(** * go-httprange: ranged HTTP reads and the chunked downloader

    A shallow embedding of [down.go] and [httpreadat.go].  Go's [int64]
    values are integers of [Z] with the wrap-around of the machine
    arithmetic written out; byte slices are windows into one backing
    array; the injected [Requester] is a state-passing function, so a
    server may answer the same request differently over time. *)

From Stdlib Require Import ZArith List String Ascii Bool Lia.
From Stdlib Require Import Permutation.
Import ListNotations.
Local Open Scope string_scope.
Local Open Scope bool_scope.
Local Open Scope Z_scope.

Set Implicit Arguments.

(* ------------------------------------------------------------------ *)
(** ** Machine integers *)

Module Int64.

Definition min_int : Z := - 2 ^ 63.
Definition max_int : Z := 2 ^ 63 - 1.
Definition max_uint : Z := 2 ^ 64 - 1.

Definition in_range (z : Z) : Prop := min_int <= z <= max_int.

(** Two's complement wrap-around of a mathematical result. *)
Definition wrap (z : Z) : Z := (z + 2 ^ 63) mod 2 ^ 64 - 2 ^ 63.

Definition add (a b : Z) : Z := wrap (a + b).
Definition sub (a b : Z) : Z := wrap (a - b).

(** Go's [/] truncates towards zero. *)
Definition div (a b : Z) : Z := wrap (Z.quot a b).

End Int64.

(* ------------------------------------------------------------------ *)
(** ** Errors *)

(** The error values the package creates or compares against.  The
    sentinels ([io.EOF], [ErrValidationFailed], ...) are constructors;
    [fmt.Errorf] with [%w] keeps the wrapped error
    ([err_unexpect_status_NoRange] wraps [ErrNoRange]). *)
Inductive error : Type :=
| io_EOF
| io_ErrUnexpectedEOF
| errParse
| ErrValidationFailed
| ErrNoRange
| err_invalid_args
| err_invalid_method
| err_invalid_url
| err_http_request (cause : error)
| err_unexpect_status (status : string)
| err_unexpect_status_NoRange (status : string)
| err_different_range (reqFirst reqLast start end_ : Z)
| err_content_length_mismatch
| err_download_size (n expect offset : Z)
| err_transport (msg : string).

Definition is_EOF (e : error) : bool :=
  match e with io_EOF => true | _ => false end.

Definition is_ErrUnexpectedEOF (e : error) : bool :=
  match e with io_ErrUnexpectedEOF => true | _ => false end.

(** A Go call either returns or panics. *)
Inductive outcome (A : Type) : Type :=
| Returns (a : A)
| Panics (msg : string).
Arguments Returns {A} a.
Arguments Panics {A} msg.

(* ------------------------------------------------------------------ *)
(** ** The pieces of [strings], [strconv] and [fmt] that are used *)

Module GoStd.

(** [strings.Split(s, sep)] for a one-byte separator, which is what every
    call site passes: the pieces between the separators, empty ones
    included; a string without separator is its own single piece. *)
Fixpoint Split (s : string) (sep : ascii) : list string :=
  match s with
  | EmptyString => [EmptyString]
  | String c s' =>
      if Ascii.eqb c sep then EmptyString :: Split s' sep
      else match Split s' sep with
           | h :: t => String c h :: t
           | [] => [String c EmptyString]
           end
  end.

Definition digit_of (c : ascii) : option Z :=
  let n := Z.of_N (N_of_ascii c) in
  if (48 <=? n) && (n <=? 57) then Some (n - 48) else None.

(** The digit loop of [strconv.ParseUint(s, 10, 64)]: a byte that is not
    a decimal digit is a syntax error, a value above [2^64-1] a range
    error; both are [None] here. *)
Fixpoint ParseUint_loop (s : string) (n : Z) : option Z :=
  match s with
  | EmptyString => Some n
  | String c s' =>
      match digit_of c with
      | None => None
      | Some d =>
          if n >=? Int64.max_uint / 10 + 1 then None
          else
            let n1 := n * 10 + d in
            if n1 >? Int64.max_uint then None else ParseUint_loop s' n1
      end
  end.

Definition ParseUint (s : string) : option Z :=
  match s with
  | EmptyString => None
  | _ => ParseUint_loop s 0
  end.

(** [strconv.ParseInt(s, 10, 64)]: an optional sign, then [ParseUint],
    then the signed range check.  [None] stands for a non-nil error. *)
Definition ParseInt (s : string) : option Z :=
  match s with
  | EmptyString => None
  | String c s' =>
      let '(neg, body) :=
        if Ascii.eqb c "+"%char then (false, s')
        else if Ascii.eqb c "-"%char then (true, s')
        else (false, s) in
      match ParseUint body with
      | None => None
      | Some un =>
          let cutoff := 2 ^ 63 in
          if negb neg && (un >=? cutoff) then None
          else if neg && (un >? cutoff) then None
          else Some (if neg then Int64.wrap (- un) else un)
      end
  end.

Definition digit_char (d : Z) : ascii := ascii_of_N (Z.to_N (48 + d)).

(** Decimal digits of a nonnegative number, most significant first. *)
Fixpoint utoa (fuel : nat) (n : Z) (acc : string) : string :=
  match fuel with
  | O => acc
  | S fuel' =>
      let acc' := String (digit_char (n mod 10)) acc in
      if n <? 10 then acc' else utoa fuel' (n / 10) acc'
  end.

(** The verb [%d] of [fmt.Sprintf] at an [int64]. *)
Definition itoa (z : Z) : string :=
  if z <? 0 then String "-"%char (utoa 20 (- z) EmptyString)
  else utoa 20 z EmptyString.

End GoStd.

(* ------------------------------------------------------------------ *)
(** ** HTTP messages and the injected transport *)

(** [http.Header], with [Get] answering the empty string for a missing
    key and [Set] replacing the value. *)
Definition Header : Type := list (string * string).

Fixpoint Header_Get (h : Header) (key : string) : string :=
  match h with
  | [] => EmptyString
  | (k, v) :: h' => if String.eqb k key then v else Header_Get h' key
  end.

Fixpoint Header_Set (h : Header) (key value : string) : Header :=
  match h with
  | [] => [(key, value)]
  | (k, v) :: h' =>
      if String.eqb k key then (key, value) :: h'
      else (k, v) :: Header_Set h' key value
  end.

Definition cloneHeader (h : Header) : Header := map (fun kv => (fst kv, snd kv)) h.

Definition HttpHeaderRange : string := "Range".
Definition HttpHeaderContentLength : string := "Content-Length".
Definition HttpHeaderContentRange : string := "Content-Range".
Definition HttpHeaderContentType : string := "Content-Type".

(** [fmt.Sprintf(HttpHeaderRangeFormat, first, last)] with the format
    ["bytes=%d-%d"]. *)
Definition Sprintf_HttpHeaderRangeFormat (first last : Z) : string :=
  "bytes=" ++ GoStd.itoa first ++ "-" ++ GoStd.itoa last.

Definition http_MethodGet : string := "GET".
Definition http_StatusOK : Z := 200.
Definition http_StatusPartialContent : Z := 206.

Record Request : Type := {
  Method : string;
  URL : string;
  ReqHeader : Header
}.

(** A response body as a reader sees it: the bytes it delivers and the
    error that ends the stream ([io.EOF] for a complete body,
    [io.ErrUnexpectedEOF] or a connection error for a broken one). *)
Record body : Type := {
  body_bytes : list Init.Byte.byte;
  body_end : error
}.

Record Response : Type := {
  StatusCode : Z;
  Status : string;
  RespHeader : Header;
  ContentLength : Z;
  Body : body
}.

(** [io.ReadFull(r, buf)] for a buffer of [n] bytes: the bytes read and
    the error.  A short read that ends in [io.EOF] after at least one byte
    is [io.ErrUnexpectedEOF]; with no byte at all the reader's error is
    passed on. *)
Definition io_ReadFull (r : body) (n : Z) : list Init.Byte.byte * option error :=
  let want := Z.to_nat n in
  let have := body_bytes r in
  if (want <=? List.length have)%nat then (firstn want have, None)
  else if (0 <? List.length have)%nat && is_EOF (body_end r)
       then (have, Some io_ErrUnexpectedEOF)
       else (have, Some (body_end r)).

(* ------------------------------------------------------------------ *)
(** ** Content-Range and the metadata of a response *)

Definition result4 : Type := Z * Z * Z * option error.

(** [parseContentRange] of down.go. *)
Definition parseContentRange (str : string) : result4 :=
  let fail : result4 := (-1, -1, -1, Some errParse) in
  match GoStd.Split str " "%char with
  | [s0; s1] =>
      if negb (String.eqb s0 "bytes") then fail
      else
        match GoStd.Split s1 "/"%char with
        | [r0; r1] =>
            let length_ :=
              if negb (String.eqb r1 "*") then GoStd.ParseInt r1 else Some (-1) in
            match length_ with
            | None => fail
            | Some length =>
                let bounds :=
                  if negb (String.eqb r0 "*") then
                    match GoStd.Split r0 "-"%char with
                    | [b0; b1] =>
                        match GoStd.ParseInt b0 with
                        | None => None
                        | Some first =>
                            match GoStd.ParseInt b1 with
                            | None => None
                            | Some last => Some (first, last)
                            end
                        end
                    | _ => None
                    end
                  else Some (-1, -1) in
                match bounds with
                | None => fail
                | Some (first, last) =>
                    if (first =? -1) && (last =? -1) && (length =? -1) then fail
                    else (first, last, length, None)
                end
            end
        | _ => fail
        end
  | _ => fail
  end.

Record Meta : Type := {
  start : Z;
  end_ : Z;
  size : Z;
  lastModified : string;
  etag : string;
  contentType : string
}.

(** The zero value [Meta{}]. *)
Definition Meta_zero : Meta :=
  {| start := 0; end_ := 0; size := 0;
     lastModified := ""; etag := ""; contentType := "" |}.

(** [getMeta] of down.go. *)
Definition getMeta (resp : Response) : Meta * option error :=
  let meta :=
    {| start := -1; end_ := -1; size := 0;
       lastModified := Header_Get (RespHeader resp) "Last-Modified";
       etag := Header_Get (RespHeader resp) "ETag";
       contentType := Header_Get (RespHeader resp) HttpHeaderContentType |} in
  if StatusCode resp =? http_StatusOK then
    ({| start := start meta; end_ := end_ meta; size := ContentLength resp;
        lastModified := lastModified meta; etag := etag meta;
        contentType := contentType meta |}, None)
  else if StatusCode resp =? http_StatusPartialContent then
    let contentRange := Header_Get (RespHeader resp) HttpHeaderContentRange in
    if negb (String.eqb contentRange "") then
      match parseContentRange contentRange with
      | (_, _, _, Some err) => (Meta_zero, Some err)
      | (first, last, length, None) =>
          ({| start := first; end_ := last; size := length;
              lastModified := lastModified meta; etag := etag meta;
              contentType := contentType meta |}, None)
      end
    else (meta, None)
  else (meta, None).

(* ------------------------------------------------------------------ *)
(** ** Byte slices over one backing array *)

(** A [[]byte] value: a window of [len] bytes (capacity [cap]) that starts
    at index [base] of the backing array.  Two slices of the same array
    alias each other where their windows meet. *)
Record slice : Type := {
  base : Z;
  len : Z;
  cap : Z
}.

(** The slice expression [s[lo:hi]]; [None] is the run-time panic. *)
Definition slice_expr (s : slice) (lo hi : Z) : option slice :=
  if (0 <=? lo) && (lo <=? hi) && (hi <=? cap s)
  then Some {| base := base s + lo; len := hi - lo; cap := cap s - lo |}
  else None.

(** Storing [data] from index [at_] of the array on. *)
Definition write_at (arr : list Init.Byte.byte) (at_ : Z) (data : list Init.Byte.byte)
  : list Init.Byte.byte :=
  (firstn (Z.to_nat at_) arr ++ data
     ++ skipn (Z.to_nat at_ + List.length data) arr)%list.

(** The bytes a slice shows. *)
Definition view (arr : list Init.Byte.byte) (s : slice) : list Init.Byte.byte :=
  firstn (Z.to_nat (len s)) (skipn (Z.to_nat (base s)) arr).

(** [make([]byte, n, n)]: a zeroed array and the slice of all of it; a
    negative length panics.  How much memory the runtime can hand out is
    not part of the model. *)
Definition make_bytes (n : Z) : option (list Init.Byte.byte * slice) :=
  if n <? 0 then None
  else Some (repeat Init.Byte.x00 (Z.to_nat n), {| base := 0; len := n; cap := n |}).

(* ------------------------------------------------------------------ *)
(** ** HTTPReaderAt *)

Section Reader.

(** The state of whatever is behind the [Requester] interface. *)
Variable Srv : Type.

(** [Requester.Do]: a response or a transport error, and the next state. *)
Definition Requester : Type := Srv -> Request -> Srv * (Response + error).

(** What a call can change: the transport, the requests that went out so
    far, and the backing array of the destination buffer. *)
Record world : Type := {
  net : Srv;
  wire : list Request;
  mem : list Init.Byte.byte
}.

Definition send (client : Requester) (req : Request) (w : world)
  : world * (Response + error) :=
  let '(s', r) := client (net w) req in
  ({| net := s'; wire := (wire w ++ [req])%list; mem := mem w |}, r).

Record HTTPReaderAt : Type := {
  client : Requester;
  req : Request;
  meta : Meta
}.

Definition cloneRequest (ra : HTTPReaderAt) : Request :=
  {| Method := Method (req ra); URL := URL (req ra);
     ReqHeader := cloneHeader (ReqHeader (req ra)) |}.

Definition set_Range (r : Request) (value : string) : Request :=
  {| Method := Method r; URL := URL r;
     ReqHeader := Header_Set (ReqHeader r) "Range" value |}.

Definition Size (ra : HTTPReaderAt) : Z := size (meta ra).

(** [init]: the one-byte probe that fills in the metadata. *)
Definition init (ra : HTTPReaderAt) (w : world)
  : world * HTTPReaderAt * option error :=
  let req0 := set_Range (cloneRequest ra) "bytes=0-0" in
  let '(w1, r) := send (client ra) req0 w in
  match r with
  | inr err => (w1, ra, Some (err_http_request err))
  | inl resp =>
      if negb (StatusCode resp =? http_StatusPartialContent)
      then (w1, ra, Some (err_unexpect_status (Status resp)))
      else
        let '(m, err) := getMeta resp in
        let ra' := {| client := client ra; req := req ra; meta := m |} in
        match err with
        | Some e => (w1, ra', Some e)
        | None => (w1, ra', None)
        end
  end.

(** [New]; a nil client or request is [None]. *)
Definition New (clt : option Requester) (rq : option Request) (w : world)
  : world * (option HTTPReaderAt * option error) :=
  match clt, rq with
  | Some c, Some r =>
      if negb (String.eqb (Method r) http_MethodGet)
      then (w, (None, Some err_invalid_method))
      else
        let ra := {| client := c; req := r; meta := Meta_zero |} in
        let '(w1, ra', err) := init ra w in
        match err with
        | Some e => (w1, (None, Some e))
        | None => (w1, (Some ra', None))
        end
  | _, _ => (w, (None, Some err_invalid_args))
  end.

(** The [return] statements of [ReadAt] that come before the body is
    read. *)
Inductive early_exit : Type :=
| exit_empty_buffer
| exit_empty_range
| exit_transport
| exit_status
| exit_meta_parse
| exit_validation
| exit_range_bounds
| exit_content_length.

Inductive negotiated : Type :=
| Early (why : early_exit) (n : Z) (err : option error)
| Slice_panic
| Proceed (p : slice) (reqLast : Z) (resp : Response) (returnErr : option error).

(** [ReadAt] from the Range header to the Content-Length check (lines 127
    to 157): the request for [[reqFirst, reqLast]] goes out and the
    response is checked against the cached metadata and the range. *)
Definition ReadAt_exchange (ra : HTTPReaderAt) (p : slice) (reqFirst reqLast : Z)
    (returnErr : option error) (w : world) : world * negotiated :=
  let reqRange := Sprintf_HttpHeaderRangeFormat reqFirst reqLast in
  let rq := set_Range (cloneRequest ra) reqRange in
  let '(w1, r) := send (client ra) rq w in
  match r with
  | inr err => (w1, Early exit_transport 0 (Some (err_http_request err)))
  | inl resp =>
      if negb (StatusCode resp =? http_StatusPartialContent)
      then (w1, Early exit_status 0
                  (Some (err_unexpect_status_NoRange (Status resp))))
      else
        match getMeta resp with
        | (_, Some err) => (w1, Early exit_meta_parse 0 (Some err))
        | (m, None) =>
            if negb (size (meta ra) =? size m)
               || negb (String.eqb (lastModified (meta ra)) (lastModified m))
               || negb (String.eqb (etag (meta ra)) (etag m))
            then (w1, Early exit_validation 0 (Some ErrValidationFailed))
            else if negb (start m =? reqFirst) || (end_ m >? reqLast)
            then (w1, Early exit_range_bounds 0
                        (Some (err_different_range reqFirst reqLast
                                 (start m) (end_ m))))
            else if negb (ContentLength resp
                          =? Int64.add (Int64.sub (end_ m) (start m)) 1)
            then (w1, Early exit_content_length 0
                        (Some err_content_length_mismatch))
            else (w1, Proceed p reqLast resp returnErr)
        end
  end.

(** [ReadAt] up to the Content-Length check (lines 107 to 157): the empty
    buffer, the clamping of the range to the cached size, then the
    exchange. *)
Definition ReadAt_negotiate (ra : HTTPReaderAt) (p : slice) (off : Z) (w : world)
  : world * negotiated :=
  if len p =? 0 then (w, Early exit_empty_buffer 0 None)
  else
    let reqFirst := off in
    let reqLast := Int64.sub (Int64.add off (len p)) 1 in
    let clamp :=
      negb (size (meta ra) =? -1) && (reqLast >? Int64.sub (size (meta ra)) 1) in
    let reqLast := if clamp then Int64.sub (size (meta ra)) 1 else reqLast in
    let returnErr := if clamp then Some io_EOF else None in
    if clamp && (reqLast <? reqFirst) then (w, Early exit_empty_range 0 (Some io_EOF))
    else
      match (if clamp
             then slice_expr p 0 (Int64.add (Int64.sub reqLast reqFirst) 1)
             else Some p) with
      | None => (w, Slice_panic)
      | Some p => ReadAt_exchange ra p reqFirst reqLast returnErr w
      end.

(** [ReadAt] from [io.ReadFull] on (lines 158 to 175).  The comparison
    of the byte count with Content-Length at lines 164 to 168 only prints
    a message and leaves no trace here. *)
Definition ReadAt_body (p : slice) (resp : Response) (returnErr : option error)
    (w1 : world) : world * outcome (Z * option error) :=
  let '(data, rerr) := io_ReadFull (Body resp) (len p) in
  let n := Z.of_nat (List.length data) in
  let w2 := {| net := net w1; wire := wire w1;
               mem := write_at (mem w1) (base p) data |} in
  let err :=
    match rerr with
    | Some e => if is_ErrUnexpectedEOF e then Some io_EOF else Some e
    | None => None
    end in
  let err :=
    match err, returnErr with
    | None, Some r => Some r
    | _, _ => err
    end in
  (w2, Returns (n, err)).

(** [ReadAt]: the checks, then the body. *)
Definition ReadAt (ra : HTTPReaderAt) (p : slice) (off : Z) (w : world)
  : world * outcome (Z * option error) :=
  match ReadAt_negotiate ra p off w with
  | (w1, Early _ n err) => (w1, Returns (n, err))
  | (w1, Slice_panic) => (w1, Panics "slice bounds out of range")
  | (w1, Proceed p _ resp returnErr) => ReadAt_body p resp returnErr w1
  end.

(** Modelled from the spec: [Clone], which [readChunk] calls and whose body
    is not part of the sources.  The spec has it reuse the cached metadata
    without a new probe and bind the copy to its own timeout scope; the
    deadline itself shows here only as a transport that may fail. *)
Definition Clone (ra : HTTPReaderAt) : HTTPReaderAt :=
  {| client := client ra; req := req ra; meta := meta ra |}.

End Reader.

(* ------------------------------------------------------------------ *)
(** ** The chunk planner *)

Definition chunkSize : Z := 64 * 1024.

Record memoryTaskType : Type := {
  Offset : Z;
  Content : slice
}.

Module FileTask.
Record fileTaskType : Type := {
  Offset : Z;
  Size : Z
}.
End FileTask.
Abbreviation fileTaskType := FileTask.fileTaskType.

(** The loop of [makeFileTask]: [count] entries of [chunkSize] bytes from
    [offset] on, and the offset after the last one. *)
Fixpoint fill_fileTasks (count : nat) (offset : Z) : list fileTaskType * Z :=
  match count with
  | O => ([], offset)
  | S count' =>
      let '(rest, last) := fill_fileTasks count' (Int64.add offset chunkSize) in
      ({| FileTask.Offset := offset; FileTask.Size := chunkSize |} :: rest, last)
  end.

(** [makeFileTask]; the closed, pre-filled channel is the list of what it
    holds, first in first out.  [make] with a negative length panics. *)
Definition makeFileTask (totalSize : Z) : outcome (list fileTaskType) :=
  let taskCount := Int64.div totalSize chunkSize in
  if taskCount <? 0 then Panics "makeslice: len out of range"
  else
    let '(taskList, offset) := fill_fileTasks (Z.to_nat taskCount) 0 in
    if offset <? totalSize
    then Returns (taskList ++ [{| FileTask.Offset := offset;
                                  FileTask.Size := Int64.sub totalSize offset |}])%list
    else Returns taskList.

(** The loop of [makeMemoryTask]; each entry is the window
    [buf[offset : offset+chunkSize]]. *)
Fixpoint fill_memoryTasks (count : nat) (offset : Z) (buf : slice)
  : option (list memoryTaskType * Z) :=
  match count with
  | O => Some ([], offset)
  | S count' =>
      match slice_expr buf offset (Int64.add offset chunkSize) with
      | None => None
      | Some window =>
          match fill_memoryTasks count' (Int64.add offset chunkSize) buf with
          | None => None
          | Some (rest, last) =>
              Some ({| Offset := offset; Content := window |} :: rest, last)
          end
      end
  end.

(** [makeMemoryTask]. *)
Definition makeMemoryTask (totalSize : Z) (buf : slice) : outcome (list memoryTaskType) :=
  let taskCount := Int64.div totalSize chunkSize in
  if taskCount <? 0 then Panics "makeslice: len out of range"
  else
    match fill_memoryTasks (Z.to_nat taskCount) 0 buf with
    | None => Panics "slice bounds out of range"
    | Some (taskList, offset) =>
        if offset <? totalSize then
          match slice_expr buf offset totalSize with
          | None => Panics "slice bounds out of range"
          | Some window =>
              Returns (taskList ++ [{| Offset := offset; Content := window |}])%list
          end
        else Returns taskList
    end.

(* ------------------------------------------------------------------ *)
(** ** The buffer-mode download *)

Definition concurrentCount : nat := 48.

(** The caller's [context.Context] as a download sees it.  The download
    looks at it only through [errCtx.Done()], so what counts is when it is
    cancelled, measured in the chunk reads of the call that have returned
    by then: [cancelled_after 0] is done before any chunk is read, and
    [never_cancelled] is [context.Background()] or any context that
    outlives the call.  A context whose reads never come to pass is
    cancelled later, while the call waits. *)
Inductive Context : Type :=
| never_cancelled
| cancelled_after (reads : nat).

(** [<-ctx.Done()] is ready. *)
Definition ctx_done (ctx : Context) : bool :=
  match ctx with
  | cancelled_after O => true
  | _ => false
  end.

(** The context one returned chunk read later. *)
Definition ctx_tick (ctx : Context) : Context :=
  match ctx with
  | cancelled_after (S k) => cancelled_after k
  | _ => ctx
  end.

(** The context is not cancelled before [reads] chunk reads have
    returned. *)
Definition outlives (ctx : Context) (reads : nat) : Prop :=
  match ctx with
  | never_cancelled => True
  | cancelled_after k => (reads <= k)%nat
  end.

(** What the Go scheduler decides in one run of the worker pool: which of
    the tasks held by workers performs its read next ([picks], an index
    into the first [concurrentCount] tasks not yet read, taken modulo their
    number), and how many workers were already past the check of
    [errCtx.Done()] when the context of the group was cancelled, by the
    first error or by the caller ([stragglers]). *)
Record schedule : Type := {
  picks : list nat;
  stragglers : nat
}.

Definition remove_nth {A : Type} (k : nat) (l : list A) : list A :=
  (firstn k l ++ skipn (S k) l)%list.

Definition no_task : memoryTaskType :=
  {| Offset := 0; Content := {| base := 0; len := 0; cap := 0 |} |}.

Definition is_some {A : Type} (o : option A) : bool :=
  match o with Some _ => true | None => false end.

Section Download.

Variable Srv : Type.

(** [http.NewRequestWithContext] fails on a URL it cannot parse; which
    URLs those are is the library's business. *)
Variable valid_url : string -> bool.

(** [readChunk].  Its context goes into the timeout of the chunk and into
    the clone; a transport that gives up on a finished context is a
    transport that fails. *)
Definition readChunk (preReader : HTTPReaderAt Srv) (task : memoryTaskType) (w : world Srv)
  : world Srv * outcome (option error) :=
  let chunkReader := Clone preReader in
  match ReadAt chunkReader (Content task) (Offset task) w with
  | (w1, Panics msg) => (w1, Panics msg)
  | (w1, Returns (n, Some err)) => (w1, Returns (Some err))
  | (w1, Returns (n, None)) =>
      if negb (n =? len (Content task))
      then (w1, Returns (Some (err_download_size n (len (Content task)) (Offset task))))
      else (w1, Returns None)
  end.

(** One chunk read and what it returned. *)
Definition chunk_log : Type := list (memoryTaskType * option error).

(** The worker goroutines of [Do], one chunk read at a time in the order
    the schedule picks.  [first] is the error [errgroup] has kept (its
    first one).  [errCtx] is done once the caller's context is done or an
    error is kept; from then on every worker that comes to its check
    returns nil, and only the [late] reads of workers already past it
    still happen: at most [concurrentCount] of them after a cancellation
    by the caller, one fewer after an error, whose worker has returned.
    A read after the first error changes nothing in what the group
    returns. *)
Fixpoint workers (fuel : nat) (ctx : Context) (preRead : HTTPReaderAt Srv) (picks : list nat)
    (late : nat) (queue : list memoryTaskType) (first : option error) (w : world Srv)
    (log : chunk_log)
  : world Srv * outcome (option error) * chunk_log :=
  match fuel, queue with
  | O, _ => (w, Returns first, log)
  | _, [] => (w, Returns first, log)
  | S fuel', _ :: _ =>
      let done := ctx_done ctx || is_some first in
      match done, late with
      | true, O => (w, Returns first, log)
      | _, _ =>
          let k := (hd O picks mod Nat.min concurrentCount (List.length queue))%nat in
          let task := nth k queue no_task in
          match readChunk preRead task w with
          | (w1, Panics msg) => (w1, Panics msg, log)
          | (w1, Returns r) =>
              let log1 := (log ++ [(task, r)])%list in
              let first1 := match first with Some _ => first | None => r end in
              let late1 :=
                if done then (late - 1)%nat
                else if is_some r then Nat.min late (concurrentCount - 1)
                else late in
              workers fuel' (ctx_tick ctx) preRead (tl picks) late1 (remove_nth k queue)
                first1 w1 log1
          end
      end
  end.

(** [Do], with the chunk reads it performed.  [None] is a nil slice or a
    nil error. *)
Definition Do_log (ctx : Context) (sch : schedule) (clt : option (Requester Srv))
    (url : string) (w : world Srv)
  : world Srv * outcome (option (list Init.Byte.byte) * option error) * chunk_log :=
  if negb (valid_url url) then (w, Returns (None, Some err_invalid_url), [])
  else
    let rq := {| Method := http_MethodGet; URL := url; ReqHeader := [] |} in
    match New clt (Some rq) w with
    | (w1, (_, Some err)) => (w1, Returns (None, Some err), [])
    | (w1, (None, None)) => (w1, Panics "nil pointer dereference", [])
    | (w1, (Some preRead, None)) =>
        let totalSize := Size preRead in
        match make_bytes totalSize with
        | None => (w1, Panics "makeslice: len out of range", [])
        | Some (arr, buf) =>
            let w2 := {| net := net w1; wire := wire w1; mem := arr |} in
            match makeMemoryTask totalSize buf with
            | Panics msg => (w2, Panics msg, [])
            | Returns taskList =>
                match workers (List.length taskList) ctx preRead (picks sch)
                        (Nat.min (stragglers sch) concurrentCount)
                        taskList None w2 [] with
                | (w3, Panics msg, log) => (w3, Panics msg, log)
                | (w3, Returns (Some err), log) => (w3, Returns (None, Some err), log)
                | (w3, Returns None, log) =>
                    (w3, Returns (Some (view (mem w3) buf), None), log)
                end
            end
        end
    end.

Definition Do (ctx : Context) (sch : schedule) (clt : option (Requester Srv)) (url : string)
    (w : world Srv)
  : world Srv * outcome (option (list Init.Byte.byte) * option error) :=
  fst (Do_log ctx sch clt url w).

(** Reading [[off, off + sum lens)] with one [ReadAt] per entry of [lens],
    each into a fresh buffer of that length, one after the other, and
    joining what was read; [None] when a read fails. *)
Fixpoint sequential_reads (ra : HTTPReaderAt Srv) (lens : list Z) (off : Z) (w : world Srv)
  : world Srv * option (list Init.Byte.byte) :=
  match lens with
  | [] => (w, Some [])
  | l :: lens' =>
      match make_bytes l with
      | None => (w, None)
      | Some (arr, p) =>
          match ReadAt ra p off {| net := net w; wire := wire w; mem := arr |} with
          | (w1, Returns (n, None)) =>
              match sequential_reads ra lens' (off + l) w1 with
              | (w2, Some more) =>
                  (w2, Some (firstn (Z.to_nat n) (view (mem w1) p) ++ more)%list)
              | (w2, None) => (w2, None)
              end
          | (w1, _) => (w1, None)
          end
      end
  end.

End Download.

(* ------------------------------------------------------------------ *)
(** ** Transports to run the code against *)

(** A transport honors Range requests for the resource [data] with stable
    metadata: the probe and every request for a range that starts inside
    the resource is answered [206] with the total length and the same
    validators each time, and a range inside the resource comes back with
    the bounds asked for (the end cut to the last byte) and exactly those
    bytes. *)
Definition honors_range (Srv : Type) (clt : Requester Srv)
    (data : list Init.Byte.byte) (lm et : string) : Prop :=
  let T := Z.of_nat (List.length data) in
  forall (s : Srv) (rq : Request) (f l : Z),
    Header_Get (ReqHeader rq) "Range" = Sprintf_HttpHeaderRangeFormat f l ->
    0 <= f <= l -> l <= Int64.max_int -> f < T \/ f = 0 ->
    exists (s' : Srv) (resp : Response) (m : Meta),
      clt s rq = (s', inl resp)
      /\ StatusCode resp = http_StatusPartialContent
      /\ getMeta resp = (m, None)
      /\ size m = T /\ lastModified m = lm /\ etag m = et
      /\ (f < T ->
          start m = f /\ end_ m = Z.min l (T - 1)
          /\ ContentLength resp = end_ m - f + 1
          /\ body_bytes (Body resp)
             = firstn (Z.to_nat (end_ m - f + 1)) (skipn (Z.to_nat f) data)).

(** The value of a Range header, as a server reads it. *)
Definition parse_Range (v : string) : option (Z * Z) :=
  match GoStd.Split v "="%char with
  | [unit_; r] =>
      if String.eqb unit_ "bytes" then
        match GoStd.Split r "-"%char with
        | [a; b] =>
            match GoStd.ParseInt a, GoStd.ParseInt b with
            | Some f, Some l => Some (f, l)
            | _, _ => None
            end
        | _ => None
        end
      else None
  | _ => None
  end.

(** How a scripted server treats one request. *)
Inductive behaviour : Type :=
| Serve (lm et : string)
| ServeUnknownLength (lm et : string)
| ServeBare (lm et : string)
| ServeCut (lm et : string) (keep : nat) (how : error)
| Refuse (e : error).

Definition validators (b : behaviour) : Header :=
  match b with
  | Serve lm et | ServeUnknownLength lm et | ServeBare lm et | ServeCut lm et _ _ =>
      [("Last-Modified", lm); ("ETag", et); ("Content-Type", "application/octet-stream")]
  | Refuse _ => []
  end.

(** One answer of a server that holds [data]: [Serve] is the honest
    partial response, [ServeUnknownLength] writes [*] for the total length,
    [ServeBare] leaves Content-Range out, [ServeCut] ends the body after
    [keep] bytes with the error [how], and [Refuse] fails the request.  A
    range that starts outside the resource gets [416]. *)
Definition answer (data : list Init.Byte.byte) (b : behaviour) (rq : Request)
  : Response + error :=
  let T := Z.of_nat (List.length data) in
  match b with
  | Refuse e => inr e
  | _ =>
      match parse_Range (Header_Get (ReqHeader rq) "Range") with
      | None =>
          inl {| StatusCode := http_StatusOK; Status := "200 OK";
                 RespHeader := validators b; ContentLength := T;
                 Body := {| body_bytes := data; body_end := io_EOF |} |}
      | Some (f, l) =>
          if (0 <=? f) && (f <=? l) && (f <? T) then
            let l' := Z.min l (T - 1) in
            let part := firstn (Z.to_nat (l' - f + 1)) (skipn (Z.to_nat f) data) in
            let range := ("bytes " ++ GoStd.itoa f ++ "-" ++ GoStd.itoa l' ++ "/")%string in
            let ok (h : Header) (bd : body) :=
              inl {| StatusCode := http_StatusPartialContent;
                     Status := "206 Partial Content";
                     RespHeader := (validators b ++ h)%list;
                     ContentLength := l' - f + 1; Body := bd |} in
            match b with
            | ServeUnknownLength _ _ =>
                ok [(HttpHeaderContentRange, (range ++ "*")%string)]
                   {| body_bytes := part; body_end := io_EOF |}
            | ServeBare _ _ => ok [] {| body_bytes := part; body_end := io_EOF |}
            | ServeCut _ _ keep how =>
                ok [(HttpHeaderContentRange, (range ++ GoStd.itoa T)%string)]
                   {| body_bytes := firstn keep part; body_end := how |}
            | _ =>
                ok [(HttpHeaderContentRange, (range ++ GoStd.itoa T)%string)]
                   {| body_bytes := part; body_end := io_EOF |}
            end
          else
            inl {| StatusCode := 416; Status := "416 Range Not Satisfiable";
                   RespHeader :=
                     (validators b
                        ++ [(HttpHeaderContentRange, ("bytes */" ++ GoStd.itoa T)%string)])%list;
                   ContentLength := 0;
                   Body := {| body_bytes := []; body_end := io_EOF |} |}
      end
  end.

(** A server whose state is the number of requests it has seen; the
    script says how it treats each. *)
Definition scripted_server (data : list Init.Byte.byte) (script : nat -> behaviour)
  : Requester nat :=
  fun (seen : nat) (rq : Request) => (S seen, answer data (script seen) rq).

Definition honest_server (data : list Init.Byte.byte) (lm et : string) : Requester nat :=
  scripted_server data (fun _ => Serve lm et).

Definition fresh_world (Srv : Type) (s : Srv) : world Srv :=
  {| net := s; wire := []; mem := [] |}.

(* ------------------------------------------------------------------ *)
(** ** A small resource and a reader on it, for concrete runs *)

Definition five_bytes : list Init.Byte.byte :=
  [Init.Byte.x01; Init.Byte.x02; Init.Byte.x03; Init.Byte.x04; Init.Byte.x05].

Definition demo_request : Request :=
  {| Method := http_MethodGet; URL := "http://example.org/file"; ReqHeader := [] |}.

(** The metadata the probe of [five_bytes] leaves behind. *)
Definition demo_meta : Meta :=
  {| start := 0; end_ := 0; size := 5; lastModified := "lm"; etag := "v1";
     contentType := "application/octet-stream" |}.

(** A reader on [five_bytes] after its probe; [script] says how the
    server treats the requests that follow. *)
Definition demo_reader (script : nat -> behaviour) : HTTPReaderAt nat :=
  {| client := scripted_server five_bytes script; req := demo_request; meta := demo_meta |}.

Definition honest (n : nat) : behaviour := Serve "lm" "v1".

(** A server that answers [206] and leaves the Content-Range header
    out, and one that writes [*] for the total length. *)
Definition bare (n : nat) : behaviour := ServeBare "lm" "v1".
Definition unknown_length (n : nat) : behaviour := ServeUnknownLength "lm" "v1".

(** The ETag changes after the probe. *)
Definition changed_after_probe (n : nat) : behaviour :=
  match n with
  | O => Serve "lm" "v1"
  | _ => Serve "lm" "v2"
  end.

(** After the probe the first request is lost on the way and the ETag
    has changed by the time of the second. *)
Definition reset_then_changed (n : nat) : behaviour :=
  match n with
  | O => Serve "lm" "v1"
  | S O => Refuse (err_transport "connection reset")
  | _ => Serve "lm" "v2"
  end.

(** A resource of two chunks: 64 KiB and five bytes. *)
Definition two_chunks : list Init.Byte.byte :=
  (repeat Init.Byte.x07 (Z.to_nat chunkSize) ++ five_bytes)%list.

(** Both chunks are held by workers when the first read fails. *)
Definition one_in_flight : schedule := {| picks := []; stragglers := 1 |}.

(** The server sends honest headers and then loses the connection after
    three bytes of the body, which [net/http] reports as
    [io.ErrUnexpectedEOF]. *)
Definition cut_short (n : nat) : behaviour := ServeCut "lm" "v1" 3 io_ErrUnexpectedEOF.

(** The slice of all of a zeroed array of [n] bytes, and a world that
    holds it. *)
Definition whole (n : Z) : slice := {| base := 0; len := n; cap := n |}.

Definition demo_world (n : nat) : world nat :=
  {| net := 1%nat; wire := []; mem := repeat Init.Byte.x00 n |}.

(* ------------------------------------------------------------------ *)
(** ** Notions used in the statements *)

(** A slice as Go can hold one: inside its array, no longer than its
    capacity, and of a length that is an [int]. *)
Definition slice_ok (p : slice) : Prop :=
  0 <= base p /\ 0 <= len p <= cap p /\ len p <= Int64.max_int.

(** The slice lies inside the array [arr]. *)
Definition slice_in (arr : list Init.Byte.byte) (p : slice) : Prop :=
  base p + len p <= Z.of_nat (List.length arr).

(** The request [ReadAt] sends for the bytes [first] to [last]. *)
Definition range_request (Srv : Type) (ra : HTTPReaderAt Srv) (first last : Z) : Request :=
  set_Range (cloneRequest ra) (Sprintf_HttpHeaderRangeFormat first last).

(** The request [Do] makes from its URL. *)
Definition get_request (url : string) : Request :=
  {| Method := http_MethodGet; URL := url; ReqHeader := [] |}.

(** Every URL is taken as well-formed. *)
Definition any_url (url : string) : bool := true.

(** Workers read their chunks in queue order, none is in flight when an
    error cancels the group. *)
Definition in_order : schedule := {| picks := []; stragglers := 0 |}.

(** The probe [init] sends for the prototype [rq]. *)
Definition probe_request (rq : Request) : Request :=
  set_Range {| Method := Method rq; URL := URL rq;
               ReqHeader := cloneHeader (ReqHeader rq) |} "bytes=0-0".

(** The plan in the words of the specification, to compare the planners
    with: [T / chunkSize] chunks of full size at the offsets [0],
    [chunkSize], [2 * chunkSize], ..., then one chunk with the remainder
    when there is one. *)
Definition file_plan (T : Z) : list fileTaskType :=
  (map (fun i : nat => {| FileTask.Offset := Z.of_nat i * chunkSize;
                          FileTask.Size := chunkSize |})
       (seq 0 (Z.to_nat (T / chunkSize)))
   ++ (if T mod chunkSize =? 0 then []
       else [{| FileTask.Offset := T / chunkSize * chunkSize;
                FileTask.Size := T mod chunkSize |}]))%list.

(** The same plan as windows into a destination buffer of [T] bytes. *)
Definition memory_plan (T : Z) : list memoryTaskType :=
  map (fun t : fileTaskType =>
         {| Offset := FileTask.Offset t;
            Content := {| base := FileTask.Offset t; len := FileTask.Size t;
                          cap := T - FileTask.Offset t |} |})
      (file_plan T).

(** The byte ranges of a plan, as offset and length. *)
Definition file_ranges (l : list fileTaskType) : list (Z * Z) :=
  map (fun t => (FileTask.Offset t, FileTask.Size t)) l.

Definition memory_ranges (l : list memoryTaskType) : list (Z * Z) :=
  map (fun t => (Offset t, len (Content t))) l.

(** The [n] bytes of [data] from offset [off] on. *)
Definition chunk_of (data : list Init.Byte.byte) (off n : Z) : list Init.Byte.byte :=
  firstn (Z.to_nat n) (skipn (Z.to_nat off) data).

(** The sum of the lengths of a sequence of reads. *)
Definition total (lens : list Z) : Z := fold_right Z.add 0 lens.

(** A reader on the transport [clt] that holds the metadata of the
    resource [data]. *)
Definition reads_resource (Srv : Type) (clt : Requester Srv) (data : list Init.Byte.byte)
    (lm et : string) (ra : HTTPReaderAt Srv) : Prop :=
  client ra = clt /\ size (meta ra) = Z.of_nat (List.length data)
  /\ lastModified (meta ra) = lm /\ etag (meta ra) = et.

(** A task of a download of [T] bytes: a non-empty window of the
    destination buffer that starts at the task's offset and ends inside
    the buffer. *)
Definition task_ok (T : Z) (t : memoryTaskType) : Prop :=
  base (Content t) = Offset t /\ 0 < len (Content t) <= cap (Content t)
  /\ 0 <= Offset t /\ Offset t + len (Content t) <= T.

(** The byte at index [i] lies in the window of one of the tasks. *)
Definition covered (queue : list memoryTaskType) (i : nat) : Prop :=
  exists t : memoryTaskType,
    In t queue /\ Offset t <= Z.of_nat i < Offset t + len (Content t).

(** The first error among the chunk reads of a run, in the order they
    returned. *)
Fixpoint first_error (log : list (memoryTaskType * option error)) : option error :=
  match log with
  | [] => None
  | (_, Some e) :: _ => Some e
  | (_, None) :: rest => first_error rest
  end.


Fixpoint string_all (P : ascii -> bool) (s : string) : bool :=
  match s with
  | EmptyString => true
  | String c s' => P c && string_all P s'
  end.

Definition is_digit (c : ascii) : bool :=
  match GoStd.digit_of c with Some _ => true | None => false end.

Definition differs (sep : ascii) (c : ascii) : bool := negb (Ascii.eqb c sep).

(** The length part of a Content-Range value as [parseContentRange] reads
    it: [*] is unknown, anything else goes through [ParseInt]. *)
Definition length_field (t : string) : option Z :=
  if String.eqb t "*" then Some (-1) else GoStd.ParseInt t.

(** A Content-Range value with the bounds [f] and [l] and the text [t]
    after the slash. *)
Definition printed_range (f l : Z) (t : string) : string :=
  (("bytes " ++ GoStd.itoa f ++ "-" ++ GoStd.itoa l ++ "/") ++ t)%string.

(* ------------------------------------------------------------------ *)
(** ** The accessors of the reader and the checked download *)

(** [ContentType] and [LastModified] of httpreadat.go. *)
Definition ContentType (Srv : Type) (ra : HTTPReaderAt Srv) : string :=
  contentType (meta ra).

Definition LastModified (Srv : Type) (ra : HTTPReaderAt Srv) : string :=
  lastModified (meta ra).

Module Hex.

(** The errors of [encoding/hex]. *)
Inductive hex_error : Type :=
| InvalidByteError (c : ascii)
| ErrLength.

(** The value of a hexadecimal digit, either case. *)
Definition fromHexChar (c : ascii) : option Z :=
  let n := Z.of_N (N_of_ascii c) in
  if (48 <=? n) && (n <=? 57) then Some (n - 48)
  else if (97 <=? n) && (n <=? 102) then Some (n - 97 + 10)
  else if (65 <=? n) && (n <=? 70) then Some (n - 65 + 10)
  else None.

Definition byte_of (n : Z) : Init.Byte.byte := byte_of_ascii (ascii_of_N (Z.to_N n)).

(** [hex.DecodeString]: the bytes decoded before the first error, and the
    error.  Pairs are read from the left; a character that is no digit is
    an [InvalidByteError], a lone last digit is [ErrLength]. *)
Fixpoint DecodeString (s : string) : list Init.Byte.byte * option hex_error :=
  match s with
  | EmptyString => ([], None)
  | String p EmptyString =>
      match fromHexChar p with
      | None => ([], Some (InvalidByteError p))
      | Some _ => ([], Some ErrLength)
      end
  | String p (String q rest) =>
      match fromHexChar p with
      | None => ([], Some (InvalidByteError p))
      | Some a =>
          match fromHexChar q with
          | None => ([], Some (InvalidByteError q))
          | Some b =>
              let '(bytes, err) := DecodeString rest in
              (byte_of (a * 16 + b) :: bytes, err)
          end
      end
  end.

End Hex.

(** [hmac.Equal]: the two byte strings have the same length and the same
    bytes; that the comparison takes constant time is not visible here. *)
Fixpoint hmac_Equal (a b : list Init.Byte.byte) : bool :=
  match a, b with
  | [], [] => true
  | x :: a', y :: b' => Ascii.eqb (ascii_of_byte x) (ascii_of_byte y) && hmac_Equal a' b'
  | _, _ => false
  end.

(** What [DoWithCheck] can return as its error: an error of [Do], or the
    checksum mismatch it makes with [fmt.Errorf]. *)
Inductive check_error : Type :=
| do_error (e : error)
| err_checksum (sum : string).

Section Checked.

Variable Srv : Type.
Variable valid_url : string -> bool.

(** [sha256.Sum256], whose code is the standard library's: any function
    from contents to digests. *)
Variable sha256_Sum256 : list Init.Byte.byte -> list Init.Byte.byte.

(** [equal] of down.go. *)
Definition equal (content : list Init.Byte.byte) (checksum : string)
  : bool * option Hex.hex_error :=
  match Hex.DecodeString checksum with
  | (_, Some err) => (false, Some err)
  | (expect, None) => (hmac_Equal (sha256_Sum256 content) expect, None)
  end.

(** [DoWithCheck]; a nil slice has no bytes. *)
Definition DoWithCheck (ctx : Context) (sch : schedule) (clt : option (Requester Srv))
    (url sha256Sum : string) (w : world Srv)
  : world Srv * outcome (option (list Init.Byte.byte) * option check_error) :=
  match Do valid_url ctx sch clt url w with
  | (w1, Panics msg) => (w1, Panics msg)
  | (w1, Returns (_, Some err)) => (w1, Returns (None, Some (do_error err)))
  | (w1, Returns (result, None)) =>
      let content := match result with Some b => b | None => [] end in
      if negb (fst (equal content sha256Sum))
      then (w1, Returns (None, Some (err_checksum sha256Sum)))
      else (w1, Returns (result, None))
  end.

End Checked.

(* ------------------------------------------------------------------ *)
(** ** Further notions used in the statements *)

(** The pieces of a split put together again, with the separator between
    them. *)
Fixpoint join (sep : ascii) (pieces : list string) : string :=
  match pieces with
  | [] => EmptyString
  | [a] => a
  | a :: rest => (a ++ String sep (join sep rest))%string
  end.

(** The number of tasks a download of [T] bytes needs. *)
Definition chunk_count (T : Z) : Z := (T + chunkSize - 1) / chunkSize.

(* ------------------------------------------------------------------ *)
(** ** The file-mode download *)

(** What [DoToFile] can return as its error: an error of the download, or
    one of the file system. *)
Inductive file_error : Type :=
| download_error (e : error)
| os_error (msg : string).

(** The file system as [DoToFile] meets it: whether [os.Create] gives a
    file ([None] is an empty file opened for writing), and whether the
    [k]-th call of [WriteAt] on that file, counted from 0, fails on the
    device. *)
Record file_system : Type := {
  os_Create : string -> option file_error;
  write_fault : nat -> option file_error
}.

(** What a call of [os.File.WriteAt] did: it stored all of its bytes, it
    refused the call and stored none, or it failed on the way, with an
    unknown part of the bytes stored. *)
Inductive write_result : Type :=
| stored (file : list Init.Byte.byte)
| refused (err : file_error)
| broken (err : file_error).

(** [os.File.WriteAt] on a file that holds the bytes [file]: a negative
    offset is refused; for an empty [b] nothing is done; otherwise [b] is
    stored from [off] on, after zero bytes where [off] lies beyond the
    end, unless the device fails. *)
Definition File_WriteAt (fault : option file_error) (file b : list Init.Byte.byte) (off : Z)
  : write_result :=
  if off <? 0 then refused (os_error "negative offset")
  else
    match b, fault with
    | [], _ => stored file
    | _ :: _, Some err => broken err
    | _ :: _, None =>
        let grown :=
          (file ++ repeat Init.Byte.x00
                     (Z.to_nat off + List.length b - List.length file))%list in
        stored (write_at grown off b)
    end.

(** A chunk on its way to the writer: the offset and the bytes read. *)
Definition chunk : Type := (Z * list Init.Byte.byte)%type.

(** The byte range of a chunk, as offset and length. *)
Definition chunk_range (c : chunk) : Z * Z := (fst c, Z.of_nat (List.length (snd c))).

(** [errgroup] keeps the first error it is given. *)
Definition keep (first : option file_error) (err : file_error) : option file_error :=
  match first with
  | Some _ => first
  | None => Some err
  end.

(** The caller's context is done once [reads] chunk reads have
    returned. *)
Definition ctx_passed (ctx : Context) (reads : nat) : bool :=
  match ctx with
  | never_cancelled => false
  | cancelled_after k => (k <=? reads)%nat
  end.

(** The worker goroutines of a running [DoToFile]: the tasks still in
    [taskCh], the number of workers at the head of their loop, the tasks
    of the workers that are past the check of [errCtx.Done()] and have
    their read before them, and the chunks of the workers that have read
    and stand at the second [select]. *)
Record pool_state : Type := {
  tasks : list fileTaskType;
  idle : nat;
  reading : list fileTaskType;
  holding : list chunk
}.

(** The writer goroutine: whether it is still in its loop, the bytes of
    the file, whether a write failed on the way, [totalWrite], and the
    number of [WriteAt] calls so far. *)
Record writer_state : Type := {
  writing : bool;
  file : list Init.Byte.byte;
  torn : bool;
  totalWrite : Z;
  writes : nat
}.

(** How a call of [DoToFile] ends when it ends. *)
Inductive file_outcome : Type :=
| file_returns (err : option file_error)
| file_panics (msg : string).

(** The file at [filePath] after the call: not created, or created and
    holding these bytes, with [torn] set when a write failed on the
    way. *)
Inductive file_state : Type :=
| no_file
| file_of (bytes : list Init.Byte.byte) (torn : bool).

Section FileDownload.

Variable Srv : Type.
Variable valid_url : string -> bool.

(** A running [DoToFile] between two steps of its goroutines: the
    workers, [chunkResultCh], the writer, the error the group has kept,
    the panic that ended the program, the transport with the caller's
    memory, and the chunk reads so far. *)
Record download : Type := {
  pool : pool_state;
  chan : list chunk;
  sink : writer_state;
  kept : option file_error;
  crashed : option string;
  env : world Srv;
  reads : chunk_log
}.

Definition with_pool (s : download) (p : pool_state) : download :=
  {| pool := p; chan := chan s; sink := sink s; kept := kept s; crashed := crashed s;
     env := env s; reads := reads s |}.

(** [<-errCtx.Done()] is ready: the caller's context is done or the group
    has kept an error. *)
Definition errCtx_done (ctx : Context) (s : download) : bool :=
  ctx_passed ctx (List.length (reads s)) || is_some (kept s).

(** The state after the read of the task [t], taken out of [reading] as
    [before ++ t :: after]: the read ran on the buffer [content] of its
    own and ended in the world [w1] with [r].  A chunk read well is held
    for the second [select]; an error is returned to the group and the
    worker is gone. *)
Definition after_read (s : download) (before after : list fileTaskType) (t : fileTaskType)
    (content : slice) (w1 : world Srv) (r : option error) : download :=
  {| pool := {| tasks := tasks (pool s); idle := idle (pool s);
                reading := (before ++ after)%list;
                holding := match r with
                           | None => (holding (pool s)
                                        ++ [(FileTask.Offset t, view (mem w1) content)])%list
                           | Some _ => holding (pool s)
                           end |};
     chan := chan s; sink := sink s;
     kept := match r with
             | Some err => keep (kept s) (download_error err)
             | None => kept s
             end;
     crashed := crashed s;
     env := {| net := net w1; wire := wire w1; mem := mem (env s) |};
     reads := (reads s ++ [({| Offset := FileTask.Offset t; Content := content |}, r)])%list |}.

(** The state after a worker panicked. *)
Definition after_panic (s : download) (before after : list fileTaskType) (msg : string)
  : download :=
  {| pool := {| tasks := tasks (pool s); idle := idle (pool s);
                reading := (before ++ after)%list; holding := holding (pool s) |};
     chan := chan s; sink := sink s; kept := kept s; crashed := Some msg;
     env := env s; reads := reads s |}.

(** The state after the writer took the chunk [c] from the channel, which
    held [c :: rest], and called [WriteAt] (lines 125 to 132). *)
Definition after_write (fs : file_system) (totalSize : Z) (s : download) (c : chunk)
    (rest : list chunk) : download :=
  let w := sink s in
  match File_WriteAt (write_fault fs (writes w)) (file w) (snd c) (fst c) with
  | stored file1 =>
      let total := Int64.add (totalWrite w) (Z.of_nat (List.length (snd c))) in
      {| pool := pool s; chan := rest;
         sink := {| writing := negb (total =? totalSize); file := file1; torn := torn w;
                    totalWrite := total; writes := S (writes w) |};
         kept := kept s; crashed := crashed s; env := env s; reads := reads s |}
  | refused err =>
      {| pool := pool s; chan := rest;
         sink := {| writing := false; file := file w; torn := torn w;
                    totalWrite := totalWrite w; writes := S (writes w) |};
         kept := keep (kept s) err; crashed := crashed s; env := env s; reads := reads s |}
  | broken err =>
      {| pool := pool s; chan := rest;
         sink := {| writing := false; file := file w; torn := true;
                    totalWrite := totalWrite w; writes := S (writes w) |};
         kept := keep (kept s) err; crashed := crashed s; env := env s; reads := reads s |}
  end.

(** One step of one goroutine of [DoToFile].  The workers are lines 92 to
    116 and the writer is lines 119 to 135 of down.go; which goroutine
    moves next is open, and so is the branch a [select] takes when both
    of its cases are ready.

    A worker at the head of its loop receives a task and, [errCtx] not
    being done, goes on to read it ([worker_takes]); with [errCtx] done
    it returns nil ([worker_leaves]); with [taskCh] drained it returns
    nil ([worker_finishes]).  A worker past the check makes the buffer of
    its task and reads the chunk, one request and its response at a time
    ([worker_reads]), or panics in doing so.  A worker with a chunk sends
    it, which the channel always has room for ([worker_sends]); once
    [errCtx] is done it may return nil instead ([worker_drops]).  The
    writer receives a chunk and stores it ([writer_stores]); once
    [errCtx] is done it may return nil instead ([writer_quits]).  With
    nothing to receive and [errCtx] not done the writer has no step. *)
Inductive step (ctx : Context) (fs : file_system) (preRead : HTTPReaderAt Srv)
    (totalSize : Z) : download -> download -> Prop :=
| worker_takes (s : download) (t : fileTaskType) (rest : list fileTaskType) (n : nat) :
    crashed s = None ->
    tasks (pool s) = t :: rest -> idle (pool s) = S n ->
    errCtx_done ctx s = false ->
    step ctx fs preRead totalSize s
      (with_pool s {| tasks := rest; idle := n;
                      reading := (reading (pool s) ++ [t])%list;
                      holding := holding (pool s) |})
| worker_leaves (s : download) (t : fileTaskType) (rest : list fileTaskType) (n : nat) :
    crashed s = None ->
    tasks (pool s) = t :: rest -> idle (pool s) = S n ->
    errCtx_done ctx s = true ->
    step ctx fs preRead totalSize s
      (with_pool s {| tasks := rest; idle := n; reading := reading (pool s);
                      holding := holding (pool s) |})
| worker_finishes (s : download) (n : nat) :
    crashed s = None ->
    tasks (pool s) = [] -> idle (pool s) = S n ->
    step ctx fs preRead totalSize s
      (with_pool s {| tasks := []; idle := n; reading := reading (pool s);
                      holding := holding (pool s) |})
| worker_reads (s : download) (before after : list fileTaskType) (t : fileTaskType)
      (arr : list Init.Byte.byte) (content : slice) (w1 : world Srv) (r : option error) :
    crashed s = None ->
    reading (pool s) = (before ++ t :: after)%list ->
    make_bytes (FileTask.Size t) = Some (arr, content) ->
    readChunk preRead {| Offset := FileTask.Offset t; Content := content |}
      {| net := net (env s); wire := wire (env s); mem := arr |} = (w1, Returns r) ->
    step ctx fs preRead totalSize s (after_read s before after t content w1 r)
| worker_panics_in_make (s : download) (before after : list fileTaskType)
      (t : fileTaskType) :
    crashed s = None ->
    reading (pool s) = (before ++ t :: after)%list ->
    make_bytes (FileTask.Size t) = None ->
    step ctx fs preRead totalSize s
      (after_panic s before after "makeslice: len out of range")
| worker_panics_in_read (s : download) (before after : list fileTaskType)
      (t : fileTaskType) (arr : list Init.Byte.byte) (content : slice) (w1 : world Srv)
      (msg : string) :
    crashed s = None ->
    reading (pool s) = (before ++ t :: after)%list ->
    make_bytes (FileTask.Size t) = Some (arr, content) ->
    readChunk preRead {| Offset := FileTask.Offset t; Content := content |}
      {| net := net (env s); wire := wire (env s); mem := arr |} = (w1, Panics msg) ->
    step ctx fs preRead totalSize s (after_panic s before after msg)
| worker_sends (s : download) (before after : list chunk) (c : chunk) :
    crashed s = None ->
    holding (pool s) = (before ++ c :: after)%list ->
    step ctx fs preRead totalSize s
      {| pool := {| tasks := tasks (pool s); idle := S (idle (pool s));
                    reading := reading (pool s); holding := (before ++ after)%list |};
         chan := (chan s ++ [c])%list; sink := sink s; kept := kept s;
         crashed := crashed s; env := env s; reads := reads s |}
| worker_drops (s : download) (before after : list chunk) (c : chunk) :
    crashed s = None ->
    holding (pool s) = (before ++ c :: after)%list ->
    errCtx_done ctx s = true ->
    step ctx fs preRead totalSize s
      (with_pool s {| tasks := tasks (pool s); idle := idle (pool s);
                      reading := reading (pool s); holding := (before ++ after)%list |})
| writer_stores (s : download) (c : chunk) (rest : list chunk) :
    crashed s = None ->
    writing (sink s) = true ->
    chan s = c :: rest ->
    step ctx fs preRead totalSize s (after_write fs totalSize s c rest)
| writer_quits (s : download) :
    crashed s = None ->
    writing (sink s) = true ->
    errCtx_done ctx s = true ->
    step ctx fs preRead totalSize s
      {| pool := pool s; chan := chan s;
         sink := {| writing := false; file := file (sink s); torn := torn (sink s);
                    totalWrite := totalWrite (sink s); writes := writes (sink s) |};
         kept := kept s; crashed := crashed s; env := env s; reads := reads s |}.

(** Any number of steps. *)
Inductive steps (ctx : Context) (fs : file_system) (preRead : HTTPReaderAt Srv)
    (totalSize : Z) : download -> download -> Prop :=
| steps_none (s : download) : steps ctx fs preRead totalSize s s
| steps_more (s s1 s2 : download) :
    steps ctx fs preRead totalSize s s1 -> step ctx fs preRead totalSize s1 s2 ->
    steps ctx fs preRead totalSize s s2.

(** [group.Wait] returns: every worker and the writer have returned. *)
Definition returned (s : download) : Prop :=
  crashed s = None
  /\ idle (pool s) = 0%nat /\ reading (pool s) = [] /\ holding (pool s) = []
  /\ writing (sink s) = false.

(** [DoToFile] up to the start of its goroutines (lines 72 to 90): it has
    ended, or its goroutines start in the state given. *)
Inductive beginning : Type :=
| ended (out : file_outcome)
| begun (preRead : HTTPReaderAt Srv) (s0 : download).

Definition DoToFile_begin (fs : file_system) (clt : option (Requester Srv))
    (url filePath : string) (w : world Srv) : world Srv * beginning :=
  if negb (valid_url url)
  then (w, ended (file_returns (Some (download_error err_invalid_url))))
  else
    let rq := {| Method := http_MethodGet; URL := url; ReqHeader := [] |} in
    match New clt (Some rq) w with
    | (w1, (_, Some err)) => (w1, ended (file_returns (Some (download_error err))))
    | (w1, (None, None)) => (w1, ended (file_panics "nil pointer dereference"))
    | (w1, (Some preRead, None)) =>
        match makeFileTask (Size preRead) with
        | Panics msg => (w1, ended (file_panics msg))
        | Returns taskCh =>
            match os_Create fs filePath with
            | Some err => (w1, ended (file_returns (Some err)))
            | None =>
                (w1, begun preRead
                       {| pool := {| tasks := taskCh; idle := concurrentCount;
                                     reading := []; holding := [] |};
                          chan := [];
                          sink := {| writing := true; file := []; torn := false;
                                     totalWrite := 0; writes := 0 |};
                          kept := None; crashed := None; env := w1; reads := [] |})
            end
        end
    end.

(** The ends of [DoToFile]: the world it leaves, what it returns or the
    panic, and the file.  A call for which no end can be derived does not
    return. *)
Inductive DoToFile (ctx : Context) (fs : file_system) (clt : option (Requester Srv))
    (url filePath : string) (w : world Srv)
  : world Srv -> file_outcome -> file_state -> chunk_log -> Prop :=
| DoToFile_ended (w1 : world Srv) (out : file_outcome) :
    DoToFile_begin fs clt url filePath w = (w1, ended out) ->
    DoToFile ctx fs clt url filePath w w1 out no_file []
| DoToFile_returned (w1 : world Srv) (preRead : HTTPReaderAt Srv) (s0 s : download) :
    DoToFile_begin fs clt url filePath w = (w1, begun preRead s0) ->
    steps ctx fs preRead (Size preRead) s0 s ->
    returned s ->
    DoToFile ctx fs clt url filePath w (env s) (file_returns (kept s))
      (file_of (file (sink s)) (torn (sink s))) (reads s)
| DoToFile_panicked (w1 : world Srv) (preRead : HTTPReaderAt Srv) (s0 s : download)
      (msg : string) :
    DoToFile_begin fs clt url filePath w = (w1, begun preRead s0) ->
    steps ctx fs preRead (Size preRead) s0 s ->
    crashed s = Some msg ->
    DoToFile ctx fs clt url filePath w (env s) (file_panics msg)
      (file_of (file (sink s)) (torn (sink s))) (reads s).

(** What is left to do in a running download, as a number that every
    step makes smaller. *)
Definition remaining (s : download) : nat :=
  (4 * List.length (tasks (pool s)) + 4 * List.length (reading (pool s))
   + 3 * List.length (holding (pool s)) + List.length (chan s) + idle (pool s)
   + (if writing (sink s) then 1 else 0))%nat.

End FileDownload.

(* ================================================================== *)
(** * Properties *)

(** ** Machine integers *)

Lemma wrap_in_range (z : Z) : Int64.in_range z -> Int64.wrap z = z.
Proof.
  unfold Int64.in_range, Int64.min_int, Int64.max_int, Int64.wrap.
  intros H. rewrite Z.mod_small by lia. lia.
Qed.

Lemma wrap_range (z : Z) : Int64.in_range (Int64.wrap z).
Proof.
  unfold Int64.in_range, Int64.min_int, Int64.max_int, Int64.wrap.
  pose proof (Z.mod_pos_bound (z + 2 ^ 63) (2 ^ 64)). lia.
Qed.

Lemma add_exact (a b : Z) : Int64.in_range (a + b) -> Int64.add a b = a + b.
Proof. apply wrap_in_range. Qed.

Lemma sub_exact (a b : Z) : Int64.in_range (a - b) -> Int64.sub a b = a - b.
Proof. apply wrap_in_range. Qed.

(** ** Decimal numbers: printing and parsing *)

Lemma string_all_app (P : ascii -> bool) (s t : string) :
  string_all P (s ++ t) = string_all P s && string_all P t.
Proof.
  induction s as [|c s IH]; simpl; [reflexivity|].
  rewrite IH. now rewrite andb_assoc.
Qed.

Lemma string_all_weaken (P Q : ascii -> bool) (s : string) :
  (forall c, P c = true -> Q c = true) ->
  string_all P s = true -> string_all Q s = true.
Proof.
  intros HPQ. induction s as [|c s IH]; simpl; [reflexivity|].
  intros H. apply andb_true_iff in H as [Hc Hs].
  apply andb_true_iff. split; auto.
Qed.

Lemma digit_cases (d : Z) :
  0 <= d < 10 ->
  d = 0 \/ d = 1 \/ d = 2 \/ d = 3 \/ d = 4 \/ d = 5 \/ d = 6 \/ d = 7 \/ d = 8 \/ d = 9.
Proof. lia. Qed.

Lemma digit_of_digit_char (d : Z) :
  0 <= d < 10 -> GoStd.digit_of (GoStd.digit_char d) = Some d.
Proof.
  intros H. destruct (digit_cases H) as [-> | [-> | [-> | [-> | [-> | [-> | [-> | [-> | [-> | ->]]]]]]]]];
    reflexivity.
Qed.

Lemma digit_char_is_digit (d : Z) : 0 <= d < 10 -> is_digit (GoStd.digit_char d) = true.
Proof. intros H. unfold is_digit. now rewrite digit_of_digit_char. Qed.

Lemma is_digit_differs (sep : ascii) :
  is_digit sep = false -> forall c, is_digit c = true -> differs sep c = true.
Proof.
  intros Hsep c Hc. unfold differs. destruct (Ascii.eqb_spec c sep) as [->|]; [|reflexivity].
  congruence.
Qed.

Lemma utoa_digits (fuel : nat) : forall (n : Z) (acc : string),
  0 <= n -> string_all is_digit acc = true ->
  string_all is_digit (GoStd.utoa fuel n acc) = true.
Proof.
  induction fuel as [|fuel IH]; intros n acc Hn Hacc; simpl; [exact Hacc|].
  assert (Hd : is_digit (GoStd.digit_char (n mod 10)) = true)
    by (apply digit_char_is_digit; apply Z.mod_pos_bound; lia).
  destruct (n <? 10).
  - simpl. now rewrite Hd.
  - apply IH; [apply Z.div_pos; lia|]. simpl. now rewrite Hd.
Qed.

Lemma utoa_cons (fuel : nat) : forall (n : Z) (acc : string),
  0 <= n ->
  exists c s, GoStd.utoa (S fuel) n acc = String c s /\ is_digit c = true.
Proof.
  induction fuel as [|fuel IH]; intros n acc Hn.
  - simpl. exists (GoStd.digit_char (n mod 10)), acc. split.
    + now destruct (n <? 10).
    + apply digit_char_is_digit. apply Z.mod_pos_bound. lia.
  - change (GoStd.utoa (S (S fuel)) n acc)
      with (let acc' := String (GoStd.digit_char (n mod 10)) acc in
            if n <? 10 then acc' else GoStd.utoa (S fuel) (n / 10) acc').
    cbv zeta. destruct (n <? 10).
    + exists (GoStd.digit_char (n mod 10)), acc. split; [reflexivity|].
      apply digit_char_is_digit. apply Z.mod_pos_bound. lia.
    + apply IH. apply Z.div_pos; lia.
Qed.

Lemma ParseUint_loop_utoa (fuel : nat) : forall (n : Z) (acc : string),
  0 <= n <= Int64.max_uint -> n < 10 ^ Z.of_nat fuel ->
  GoStd.ParseUint_loop (GoStd.utoa fuel n acc) 0 = GoStd.ParseUint_loop acc n.
Proof.
  induction fuel as [|fuel IH]; intros n acc Hn Hfuel.
  - simpl in *. assert (n = 0) by lia. now subst.
  - assert (Hmod : 0 <= n mod 10 < 10) by (apply Z.mod_pos_bound; lia).
    assert (Hdiv : n = 10 * (n / 10) + n mod 10) by (apply Z.div_mod; lia).
    assert (Hstep : forall m, 0 <= m -> m * 10 + n mod 10 = n ->
              GoStd.ParseUint_loop (String (GoStd.digit_char (n mod 10)) acc) m
              = GoStd.ParseUint_loop acc n).
    { intros m Hm Heq. simpl. rewrite digit_of_digit_char by exact Hmod.
      unfold Int64.max_uint in *.
      change (2 ^ 64 - 1) with 18446744073709551615 in *.
      change (18446744073709551615 / 10 + 1) with 1844674407370955162.
      destruct (Z.geb_spec m 1844674407370955162); [lia|].
      rewrite Heq. destruct (Z.gtb_spec n 18446744073709551615); [lia|reflexivity]. }
    simpl. destruct (Z.ltb_spec n 10).
    + apply Hstep; [lia|]. rewrite Z.mod_small by lia. lia.
    + rewrite IH.
      * apply Hstep; [apply Z.div_pos; lia | lia].
      * split; [apply Z.div_pos; lia|]. lia.
      * rewrite Nat2Z.inj_succ, Z.pow_succ_r in Hfuel by lia.
        apply Z.div_lt_upper_bound; lia.
Qed.

Arguments GoStd.utoa : simpl never.

Lemma ParseUint_utoa (n : Z) :
  0 <= n <= Int64.max_uint ->
  GoStd.ParseUint (GoStd.utoa 20 n EmptyString) = Some n.
Proof.
  intros Hn. destruct (@utoa_cons 19 n EmptyString) as (c & s & Heq & _); [lia|].
  unfold GoStd.ParseUint. rewrite Heq, <- Heq.
  rewrite ParseUint_loop_utoa; [reflexivity | exact Hn |].
  unfold Int64.max_uint in Hn. change (Z.of_nat 20) with 20. lia.
Qed.

Lemma is_digit_not_sign (c : ascii) :
  is_digit c = true -> Ascii.eqb c "+"%char = false /\ Ascii.eqb c "-"%char = false.
Proof.
  intros H. split.
  - destruct (Ascii.eqb_spec c "+"%char) as [->|]; [discriminate H | reflexivity].
  - destruct (Ascii.eqb_spec c "-"%char) as [->|]; [discriminate H | reflexivity].
Qed.

(** Parsing what [%d] printed gives the number back. *)
Lemma ParseInt_itoa (z : Z) : Int64.in_range z -> GoStd.ParseInt (GoStd.itoa z) = Some z.
Proof.
  unfold Int64.in_range, Int64.min_int, Int64.max_int. intros Hz.
  unfold GoStd.itoa. destruct (Z.ltb_spec z 0).
  - unfold GoStd.ParseInt. change (Ascii.eqb "-"%char "+"%char) with false.
    change (Ascii.eqb "-"%char "-"%char) with true. cbv iota beta.
    rewrite ParseUint_utoa by (unfold Int64.max_uint; lia).
    cbv zeta. cbn [negb andb].
    destruct (Z.gtb_spec (- z) (2 ^ 63)); [lia|].
    f_equal. rewrite Z.opp_involutive. apply wrap_in_range.
    unfold Int64.in_range, Int64.min_int, Int64.max_int. lia.
  - destruct (@utoa_cons 19 z EmptyString) as (c & s & Heq & Hc); [lia|].
    pose proof (ParseUint_utoa (n := z)) as HP. rewrite Heq in *.
    unfold GoStd.ParseInt. destruct (is_digit_not_sign _ Hc) as [-> ->].
    rewrite HP by (unfold Int64.max_uint; lia).
    cbv zeta. cbn [negb andb].
    destruct (Z.geb_spec z (2 ^ 63)); [lia | reflexivity].
Qed.

Lemma itoa_nonneg_digits (z : Z) : 0 <= z -> string_all is_digit (GoStd.itoa z) = true.
Proof.
  intros Hz. unfold GoStd.itoa. destruct (Z.ltb_spec z 0); [lia|].
  now apply utoa_digits.
Qed.

Lemma itoa_differs (sep : ascii) (z : Z) :
  is_digit sep = false -> Ascii.eqb "-"%char sep = false ->
  string_all (differs sep) (GoStd.itoa z) = true.
Proof.
  intros Hsep Hminus. unfold GoStd.itoa. destruct (Z.ltb_spec z 0).
  - cbn [string_all]. unfold differs at 1. rewrite Hminus. cbn [negb andb].
    apply string_all_weaken with (P := is_digit); [now apply is_digit_differs|].
    apply utoa_digits; [lia | reflexivity].
  - apply string_all_weaken with (P := is_digit); [now apply is_digit_differs|].
    apply utoa_digits; [lia | reflexivity].
Qed.

(** ** [strings.Split] *)

Lemma Split_nonempty (s : string) (sep : ascii) : GoStd.Split s sep <> [].
Proof.
  destruct s as [|c s]; simpl; [discriminate|].
  destruct (Ascii.eqb c sep); [discriminate|].
  destruct (GoStd.Split s sep); discriminate.
Qed.

Lemma Split_none (sep : ascii) (s : string) :
  string_all (differs sep) s = true -> GoStd.Split s sep = [s].
Proof.
  induction s as [|c s IH]; simpl; [reflexivity|].
  intros H. apply andb_true_iff in H as [Hc Hs].
  unfold differs in Hc. apply negb_true_iff in Hc. rewrite Hc, (IH Hs). reflexivity.
Qed.

Lemma Split_first (sep : ascii) (s t : string) :
  string_all (differs sep) s = true ->
  GoStd.Split (s ++ String sep t) sep = s :: GoStd.Split t sep.
Proof.
  induction s as [|c s IH]; simpl.
  - intros _. now rewrite Ascii.eqb_refl.
  - intros H. apply andb_true_iff in H as [Hc Hs].
    unfold differs in Hc. apply negb_true_iff in Hc. rewrite Hc, (IH Hs). reflexivity.
Qed.

(** ** Content-Range: what is printed parses back *)

Lemma append_assoc' (a b c : string) : ((a ++ b) ++ c)%string = (a ++ (b ++ c))%string.
Proof. induction a as [|x a IH]; simpl; [reflexivity | now rewrite IH]. Qed.

Lemma itoa_nonneg_cons (z : Z) :
  0 <= z -> exists c s, GoStd.itoa z = String c s /\ is_digit c = true.
Proof.
  intros Hz. unfold GoStd.itoa. destruct (Z.ltb_spec z 0); [lia|].
  now apply utoa_cons.
Qed.

Lemma eqb_star_digits (z : Z) (t : string) :
  0 <= z -> String.eqb (GoStd.itoa z ++ t) "*" = false.
Proof.
  intros Hz. destruct (itoa_nonneg_cons Hz) as (c & s & -> & Hc).
  simpl. destruct (Ascii.eqb_spec c "*"%char) as [->|]; [discriminate Hc | reflexivity].
Qed.

Lemma parseContentRange_printed (f l : Z) (t : string) :
  0 <= f <= Int64.max_int -> 0 <= l <= Int64.max_int ->
  string_all (differs " "%char) t = true -> string_all (differs "/"%char) t = true ->
  parseContentRange (printed_range f l t)
  = match length_field t with
    | None => (-1, -1, -1, Some errParse)
    | Some n => (f, l, n, None)
    end.
Proof.
  intros Hf Hl Hsp Hsl. unfold printed_range.
  assert (Hfr : Int64.in_range f) by (unfold Int64.in_range, Int64.min_int, Int64.max_int in *; lia).
  assert (Hlr : Int64.in_range l) by (unfold Int64.in_range, Int64.min_int, Int64.max_int in *; lia).
  set (r0 := (GoStd.itoa f ++ String "-" (GoStd.itoa l))%string).
  assert (Hshape : (("bytes " ++ GoStd.itoa f ++ "-" ++ GoStd.itoa l ++ "/") ++ t)%string
                   = ("bytes" ++ String " " (r0 ++ String "/" t))%string).
  { unfold r0. cbn [append]. do 5 f_equal.
    rewrite !append_assoc'. cbn [append]. rewrite !append_assoc'. reflexivity. }
  rewrite Hshape. unfold parseContentRange.
  rewrite Split_first by reflexivity.
  assert (Hr0sp : string_all (differs " "%char) r0 = true).
  { unfold r0. rewrite string_all_app. cbn [string_all].
    rewrite !itoa_differs by reflexivity. reflexivity. }
  assert (Hr0sl : string_all (differs "/"%char) r0 = true).
  { unfold r0. rewrite string_all_app. cbn [string_all].
    rewrite !itoa_differs by reflexivity. reflexivity. }
  rewrite Split_none
    by (rewrite string_all_app; cbn [string_all]; now rewrite Hr0sp, Hsp).
  change (String.eqb "bytes" "bytes") with true. cbn [negb].
  rewrite Split_first by exact Hr0sl.
  rewrite Split_none by exact Hsl.
  fold (length_field t).
  replace (if negb (String.eqb t "*") then GoStd.ParseInt t else Some (-1))
    with (length_field t) by (unfold length_field; now destruct (String.eqb t "*")).
  destruct (length_field t) as [n|]; [|reflexivity].
  unfold r0 at 1. rewrite eqb_star_digits by lia. cbn [negb].
  unfold r0. rewrite Split_first.
  2:{ apply string_all_weaken with (P := is_digit);
        [now apply is_digit_differs | apply itoa_nonneg_digits; lia]. }
  rewrite Split_none.
  2:{ apply string_all_weaken with (P := is_digit);
        [now apply is_digit_differs | apply itoa_nonneg_digits; lia]. }
  rewrite !ParseInt_itoa by assumption.
  destruct (Z.eqb_spec f (-1)); [lia|]. reflexivity.
Qed.

Lemma digit_of_bounds (c : ascii) (d : Z) : GoStd.digit_of c = Some d -> 0 <= d <= 9.
Proof.
  unfold GoStd.digit_of.
  destruct (Z.leb_spec 48 (Z.of_N (N_of_ascii c)));
    destruct (Z.leb_spec (Z.of_N (N_of_ascii c)) 57); cbn [andb]; intros [= <-]; lia.
Qed.

Lemma ParseUint_loop_grows (s : string) : forall n m : Z,
  0 <= n <= Int64.max_uint -> GoStd.ParseUint_loop s n = Some m -> n <= m <= Int64.max_uint.
Proof.
  induction s as [|c s IH]; intros n m Hn; cbn [GoStd.ParseUint_loop].
  - intros [= <-]. lia.
  - destruct (GoStd.digit_of c) as [d|] eqn:Hd; [|discriminate].
    apply digit_of_bounds in Hd.
    destruct (Z.geb_spec n (Int64.max_uint / 10 + 1)); [discriminate|].
    cbv zeta. destruct (Z.gtb_spec (n * 10 + d) Int64.max_uint); [discriminate|].
    intros Hrest. apply IH in Hrest; lia.
Qed.

(** [ParseInt] only ever answers with an [int64]. *)
Lemma ParseInt_range (s : string) (z : Z) : GoStd.ParseInt s = Some z -> Int64.in_range z.
Proof.
  unfold GoStd.ParseInt. destruct s as [|c s]; [discriminate|].
  destruct (if Ascii.eqb c "+"%char then (false, s)
            else if Ascii.eqb c "-"%char then (true, s) else (false, String c s))
    as [neg body].
  destruct (GoStd.ParseUint body) as [un|] eqn:Hun; [|discriminate].
  assert (0 <= un).
  { unfold GoStd.ParseUint in Hun. destruct body; [discriminate|].
    apply ParseUint_loop_grows in Hun; [lia|]. unfold Int64.max_uint. lia. }
  cbv zeta. destruct neg; cbn [negb andb].
  - destruct (Z.gtb_spec un (2 ^ 63)); [discriminate|]. intros [= <-]. apply wrap_range.
  - destruct (Z.geb_spec un (2 ^ 63)); [discriminate|]. intros [= <-].
    unfold Int64.in_range, Int64.min_int, Int64.max_int. lia.
Qed.

Ltac split_matches :=
  repeat match goal with
         | |- context [match ?x with _ => _ end] => destruct x eqn:?
         end.

(** C5: the three documented forms parse to their triples, the malformed
    inputs are parse errors, and no input at all is accepted with first,
    last and length all unknown: an input either is a parse error or
    comes back with at least one known field. *)
Theorem parseContentRange_cases :
  parseContentRange "bytes 42-1233/1234" = (42, 1233, 1234, None)
  /\ parseContentRange "bytes 42-1233/*" = (42, 1233, -1, None)
  /\ parseContentRange "bytes */1234" = (-1, -1, 1234, None)
  /\ parseContentRange "garbage" = (-1, -1, -1, Some errParse)
  /\ parseContentRange "bytes 42-1233" = (-1, -1, -1, Some errParse)
  /\ parseContentRange "bytes -/-" = (-1, -1, -1, Some errParse)
  /\ parseContentRange "bytes */*" = (-1, -1, -1, Some errParse)
  /\ forall str : string,
       parseContentRange str = (-1, -1, -1, Some errParse)
       \/ exists first last length : Z,
            parseContentRange str = (first, last, length, None)
            /\ ~ (first = -1 /\ last = -1 /\ length = -1).
Proof.
  repeat (split; [vm_compute; reflexivity|]).
  intros str. unfold parseContentRange.
  split_matches; try (left; reflexivity).
  right. do 3 eexists. split; [reflexivity|].
  intros (-> & -> & ->). discriminate.
Qed.

(** The claim of C8 fails: a header whose length field is a negative
    integer is accepted, and the negative length is handed back. *)
Lemma negative_length_is_accepted :
  parseContentRange "bytes 0-0/-5" = (0, 0, -5, None)
  /\ snd (parseContentRange "bytes 0-0/-5") <> Some errParse.
Proof. split; [vm_compute; reflexivity | vm_compute; discriminate]. Qed.

(** C8, amended: in a header [bytes F-L/N] whose length field is not [*],
    parsing succeeds exactly when the field is a decimal integer of the
    [int64] range with an optional sign, and the length is that integer;
    so for every [int64] [n], negative ones included, the header printed
    with [n] parses to [(F, L, n)]. *)
Theorem length_field_is_signed (f l : Z) (t : string) :
  0 <= f <= Int64.max_int -> 0 <= l <= Int64.max_int ->
  string_all (differs " "%char) t = true -> string_all (differs "/"%char) t = true ->
  t <> "*" ->
  parseContentRange (printed_range f l t)
  = match GoStd.ParseInt t with
    | Some n => (f, l, n, None)
    | None => (-1, -1, -1, Some errParse)
    end
  /\ (forall n : Z, GoStd.ParseInt t = Some n -> Int64.in_range n)
  /\ (forall n : Z, Int64.in_range n ->
        parseContentRange (printed_range f l (GoStd.itoa n)) = (f, l, n, None)).
Proof.
  intros Hf Hl Hsp Hsl Hstar. split; [|split].
  - rewrite parseContentRange_printed by assumption.
    unfold length_field. destruct (String.eqb_spec t "*"); [contradiction | reflexivity].
  - intros n. apply ParseInt_range.
  - intros n Hn. rewrite parseContentRange_printed; try assumption.
    + unfold length_field.
      destruct (String.eqb_spec (GoStd.itoa n) "*") as [E|_].
      * pose proof (ParseInt_itoa Hn) as HP. rewrite E in HP. discriminate HP.
      * now rewrite ParseInt_itoa.
    + now apply itoa_differs.
    + now apply itoa_differs.
Qed.

Lemma length_field_is_signed_witness :
  parseContentRange (printed_range 0 0 "-5") = (0, 0, -5, None)
  /\ parseContentRange (printed_range 7 9 (GoStd.itoa (-65536))) = (7, 9, -65536, None).
Proof.
  split.
  - apply (proj1 (@length_field_is_signed 0 0 "-5"
             ltac:(unfold Int64.max_int; lia) ltac:(unfold Int64.max_int; lia)
             eq_refl eq_refl ltac:(discriminate))).
  - apply (proj2 (proj2 (@length_field_is_signed 7 9 "1"
             ltac:(unfold Int64.max_int; lia) ltac:(unfold Int64.max_int; lia)
             eq_refl eq_refl ltac:(discriminate)))).
    unfold Int64.in_range, Int64.min_int, Int64.max_int. lia.
Defined.

(** ** Wrap-around, for [lia] *)

Lemma wrap_spec (z : Z) :
  exists k : Z, Int64.wrap z = z + k * 2 ^ 64 /\ - 2 ^ 63 <= Int64.wrap z <= 2 ^ 63 - 1.
Proof.
  unfold Int64.wrap. exists (- ((z + 2 ^ 63) / 2 ^ 64)).
  pose proof (Z.div_mod (z + 2 ^ 63) (2 ^ 64) ltac:(lia)).
  pose proof (Z.mod_pos_bound (z + 2 ^ 63) (2 ^ 64) ltac:(lia)). lia.
Qed.

(** Replaces every wrapped expression by a fresh integer together with
    the two facts [lia] needs about it. *)
Ltac unwrap :=
  unfold Int64.add, Int64.sub, Int64.in_range, Int64.min_int, Int64.max_int in *;
  repeat match goal with
         | |- context [Int64.wrap ?z] =>
             let k := fresh "k" in
             let v := fresh "v" in
             destruct (wrap_spec z) as (k & ? & ?);
             set (v := Int64.wrap z) in *; clearbody v
         | H : context [Int64.wrap ?z] |- _ =>
             let k := fresh "k" in
             let v := fresh "v" in
             destruct (wrap_spec z) as (k & ? & ?);
             set (v := Int64.wrap z) in *; clearbody v
         end.

(** The request [ReadAt] is about to send leaves the buffer as it is. *)
Lemma send_frame (Srv : Type) (c : Requester Srv) (rq : Request) (w w1 : world Srv)
    (r : Response + error) :
  send c rq w = (w1, r) ->
  mem w1 = mem w /\ wire w1 = (wire w ++ [rq])%list /\ c (net w) rq = (net w1, r).
Proof.
  unfold send. destruct (c (net w) rq) as [s' r'] eqn:E. intros [= <- <-]. now simpl.
Qed.

(** ** [ReadAt] never panics on a well-formed slice *)

Lemma clamp_in_bounds (off n sz : Z) :
  Int64.in_range off -> 0 < n <= Int64.max_int ->
  Int64.sub (Int64.add off n) 1 > Int64.sub sz 1 ->
  ~ Int64.sub sz 1 < off ->
  let k := Int64.add (Int64.sub (Int64.sub sz 1) off) 1 in
  0 < k < n /\ k = Int64.sub sz 1 - off + 1
  /\ Int64.sub (Int64.add off n) 1 = off + n - 1.
Proof.
  intros Hoff Hn Hgt Hge. cbv zeta. unwrap. lia.
Qed.

(** ** The exchange of [ReadAt] with the transport *)

Section ReadAtFacts.

Variable Srv : Type.
Implicit Types (ra : HTTPReaderAt Srv) (w : world Srv) (p : slice).

Lemma exchange_frame ra p (f l : Z) (re : option error) w w1 (res : negotiated) :
  ReadAt_exchange ra p f l re w = (w1, res) ->
  mem w1 = mem w
  /\ wire w1 = (wire w ++ [range_request ra f l])%list
  /\ res <> Slice_panic
  /\ (forall why n err, res = Early why n err -> n = 0).
Proof.
  unfold ReadAt_exchange. cbv zeta. fold (range_request ra f l).
  destruct (send (client ra) (range_request ra f l) w) as [w' r] eqn:Hsend.
  apply send_frame in Hsend as (Hmem & Hwire & _).
  intros Heq.
  assert (Hw : w' = w1).
  { destruct r as [resp|e]; [|now inversion Heq].
    destruct (negb (StatusCode resp =? http_StatusPartialContent)); [now inversion Heq|].
    destruct (getMeta resp) as [m [e|]]; [now inversion Heq|].
    repeat match type of Heq with
           | (if ?c then _ else _) = _ => destruct c
           end; now inversion Heq. }
  subst w'. repeat split; try assumption.
  - destruct r as [resp|e]; [|inversion Heq; discriminate].
    destruct (negb (StatusCode resp =? http_StatusPartialContent)); [inversion Heq; discriminate|].
    destruct (getMeta resp) as [m [e|]]; [inversion Heq; discriminate|].
    repeat match type of Heq with
           | (if ?c then _ else _) = _ => destruct c
           end; inversion Heq; discriminate.
  - intros why n err ->.
    destruct r as [resp|e]; [|now inversion Heq].
    destruct (negb (StatusCode resp =? http_StatusPartialContent)); [now inversion Heq|].
    destruct (getMeta resp) as [m [e|]]; [now inversion Heq|].
    repeat match type of Heq with
           | (if ?c then _ else _) = _ => destruct c
           end; now inversion Heq.
Qed.

(** What a response has passed when the exchange goes on to the body. *)
Lemma exchange_proceed ra p (f l : Z) (re : option error) w w1
    (p' : slice) (l' : Z) (resp : Response) (re' : option error) :
  ReadAt_exchange ra p f l re w = (w1, Proceed p' l' resp re') ->
  p' = p /\ l' = l /\ re' = re
  /\ client ra (net w) (range_request ra f l) = (net w1, inl resp)
  /\ StatusCode resp = http_StatusPartialContent
  /\ exists m : Meta,
       getMeta resp = (m, None)
       /\ size m = size (meta ra) /\ lastModified m = lastModified (meta ra)
       /\ etag m = etag (meta ra)
       /\ start m = f /\ end_ m <= l
       /\ ContentLength resp = Int64.add (Int64.sub (end_ m) (start m)) 1.
Proof.
  unfold ReadAt_exchange. cbv zeta. fold (range_request ra f l).
  destruct (send (client ra) (range_request ra f l) w) as [w' r] eqn:Hsend.
  apply send_frame in Hsend as (_ & _ & Hdo).
  destruct r as [resp0|e]; [|discriminate].
  destruct (Z.eqb_spec (StatusCode resp0) http_StatusPartialContent) as [Hst|]; [|discriminate].
  cbn [negb]. destruct (getMeta resp0) as [m [e|]] eqn:Hm; [discriminate|].
  destruct (Z.eqb_spec (size (meta ra)) (size m)); cbn [negb orb]; [|discriminate].
  destruct (String.eqb_spec (lastModified (meta ra)) (lastModified m)); cbn [negb orb]; [|discriminate].
  destruct (String.eqb_spec (etag (meta ra)) (etag m)); cbn [negb orb]; [|discriminate].
  destruct (Z.eqb_spec (start m) f); cbn [negb orb]; [|discriminate].
  destruct (Z.gtb_spec (end_ m) l); [discriminate|].
  destruct (Z.eqb_spec (ContentLength resp0) (Int64.add (Int64.sub (end_ m) (start m)) 1));
    cbn [negb]; [|discriminate].
  intros [= <- <- <- <- <-]. repeat split; try assumption.
  exists m. repeat split; (congruence || lia).
Qed.

(** A response that passes every check takes the exchange to the body. *)
Lemma exchange_accepts ra p (f l : Z) (re : option error) w (s' : Srv)
    (resp : Response) (m : Meta) :
  client ra (net w) (range_request ra f l) = (s', inl resp) ->
  StatusCode resp = http_StatusPartialContent ->
  getMeta resp = (m, None) ->
  size m = size (meta ra) -> lastModified m = lastModified (meta ra) ->
  etag m = etag (meta ra) ->
  start m = f -> end_ m <= l ->
  ContentLength resp = Int64.add (Int64.sub (end_ m) (start m)) 1 ->
  ReadAt_exchange ra p f l re w
  = ({| net := s'; wire := (wire w ++ [range_request ra f l])%list; mem := mem w |},
     Proceed p l resp re).
Proof.
  intros Hdo Hst Hm Hsz Hlm Het Hs He Hcl.
  unfold ReadAt_exchange, send. cbv zeta. fold (range_request ra f l).
  rewrite Hdo, Hst, Hm, Hsz, Hlm, Het, Hcl, Hs.
  rewrite !Z.eqb_refl, !String.eqb_refl. cbn [negb orb].
  destruct (Z.gtb_spec (end_ m) l); [lia | reflexivity].
Qed.

(** A response whose metadata differs from the snapshot ends the exchange
    with the validation error. *)
Lemma exchange_validation ra p (f l : Z) (re : option error) w (s' : Srv)
    (resp : Response) (m : Meta) :
  client ra (net w) (range_request ra f l) = (s', inl resp) ->
  StatusCode resp = http_StatusPartialContent ->
  getMeta resp = (m, None) ->
  size m <> size (meta ra) \/ lastModified m <> lastModified (meta ra)
  \/ etag m <> etag (meta ra) ->
  ReadAt_exchange ra p f l re w
  = ({| net := s'; wire := (wire w ++ [range_request ra f l])%list; mem := mem w |},
     Early exit_validation 0 (Some ErrValidationFailed)).
Proof.
  intros Hdo Hst Hm Hdiff.
  unfold ReadAt_exchange, send. cbv zeta. fold (range_request ra f l).
  rewrite Hdo, Hst, Hm. rewrite Z.eqb_refl. cbn [negb].
  assert (Hb : negb (size (meta ra) =? size m)
               || negb (String.eqb (lastModified (meta ra)) (lastModified m))
               || negb (String.eqb (etag (meta ra)) (etag m)) = true).
  { destruct (Z.eqb_spec (size (meta ra)) (size m));
      destruct (String.eqb_spec (lastModified (meta ra)) (lastModified m));
      destruct (String.eqb_spec (etag (meta ra)) (etag m)); cbn [negb orb];
      try reflexivity.
    destruct Hdiff as [H|[H|H]]; congruence. }
  now rewrite Hb.
Qed.

End ReadAtFacts.

(** ** The three ways [ReadAt] meets the end of the resource *)

Section ReadAtEnd.

Variable Srv : Type.
Implicit Types (ra : HTTPReaderAt Srv) (w : world Srv) (p : slice).

Lemma slice_expr_prefix p (k : Z) :
  0 <= k <= cap p ->
  slice_expr p 0 k = Some {| base := base p; len := k; cap := cap p |}.
Proof.
  intros Hk. unfold slice_expr.
  destruct (Z.leb_spec 0 0); [|lia]. destruct (Z.leb_spec 0 k); [|lia].
  destruct (Z.leb_spec k (cap p)); [|lia]. cbn [andb].
  now rewrite Z.add_0_r, !Z.sub_0_r.
Qed.

(** The range lies inside the resource, or the size is unknown: the
    request is for the range as it stands. *)
Lemma negotiate_inside ra p (off : Z) w :
  len p <> 0 ->
  Int64.in_range (off + len p - 1) ->
  Int64.in_range (size (meta ra) - 1) ->
  size (meta ra) = -1 \/ off + len p <= size (meta ra) ->
  ReadAt_negotiate ra p off w = ReadAt_exchange ra p off (off + len p - 1) None w.
Proof.
  intros Hlen Hlast Hsz Hin. unfold ReadAt_negotiate.
  destruct (Z.eqb_spec (len p) 0); [contradiction|]. cbv zeta.
  assert (HL : Int64.sub (Int64.add off (len p)) 1 = off + len p - 1) by (unwrap; lia).
  assert (HS : Int64.sub (size (meta ra)) 1 = size (meta ra) - 1) by (unwrap; lia).
  rewrite HL, HS.
  assert (Hc : negb (size (meta ra) =? -1) && (off + len p - 1 >? size (meta ra) - 1) = false).
  { destruct (Z.eqb_spec (size (meta ra)) (-1)); cbn [negb andb]; [reflexivity|].
    destruct (Z.gtb_spec (off + len p - 1) (size (meta ra) - 1)); [lia | reflexivity]. }
  rewrite Hc. cbn [andb]. reflexivity.
Qed.

(** The range starts at or after the end of a resource of known size:
    nothing is sent. *)
Lemma negotiate_past ra p (off : Z) w :
  len p <> 0 -> 0 <= len p ->
  Int64.in_range off ->
  Int64.in_range (off + len p - 1) ->
  Int64.in_range (size (meta ra) - 1) ->
  size (meta ra) <> -1 -> size (meta ra) <= off ->
  ReadAt_negotiate ra p off w = (w, Early exit_empty_range 0 (Some io_EOF)).
Proof.
  intros Hlen Hlen0 Hoff Hlast Hsz Hknown Hpast. unfold ReadAt_negotiate.
  destruct (Z.eqb_spec (len p) 0); [contradiction|]. cbv zeta.
  assert (HL : Int64.sub (Int64.add off (len p)) 1 = off + len p - 1) by (unwrap; lia).
  assert (HS : Int64.sub (size (meta ra)) 1 = size (meta ra) - 1) by (unwrap; lia).
  rewrite HL, HS.
  destruct (Z.eqb_spec (size (meta ra)) (-1)); [contradiction|]. cbn [negb andb].
  destruct (Z.gtb_spec (off + len p - 1) (size (meta ra) - 1)); [|lia].
  destruct (Z.ltb_spec (size (meta ra) - 1) off); [reflexivity | lia].
Qed.

(** The range straddles the end: the request stops at the last byte and
    the buffer is cut to what is left. *)
Lemma negotiate_straddle ra p (off : Z) w :
  slice_ok p ->
  Int64.in_range off ->
  Int64.in_range (off + len p - 1) ->
  Int64.in_range (size (meta ra) - 1) ->
  size (meta ra) <> -1 -> off < size (meta ra) < off + len p ->
  ReadAt_negotiate ra p off w
  = ReadAt_exchange ra {| base := base p; len := size (meta ra) - off; cap := cap p |}
      off (size (meta ra) - 1) (Some io_EOF) w.
Proof.
  intros (Hb & Hl & Hmax) Hoff Hlast Hsz Hknown Hstr. unfold ReadAt_negotiate.
  destruct (Z.eqb_spec (len p) 0); [lia|]. cbv zeta.
  assert (HL : Int64.sub (Int64.add off (len p)) 1 = off + len p - 1) by (unwrap; lia).
  assert (HS : Int64.sub (size (meta ra)) 1 = size (meta ra) - 1) by (unwrap; lia).
  rewrite HL, HS.
  destruct (Z.eqb_spec (size (meta ra)) (-1)); [contradiction|]. cbn [negb andb].
  destruct (Z.gtb_spec (off + len p - 1) (size (meta ra) - 1)); [|lia].
  destruct (Z.ltb_spec (size (meta ra) - 1) off); [lia|].
  assert (HK : Int64.add (Int64.sub (size (meta ra) - 1) off) 1 = size (meta ra) - off)
    by (unwrap; lia).
  rewrite HK, slice_expr_prefix by lia. reflexivity.
Qed.

(** A well-formed slice never makes [ReadAt] panic. *)
Lemma negotiate_no_panic ra p (off : Z) w w1 :
  slice_ok p -> Int64.in_range off ->
  ReadAt_negotiate ra p off w <> (w1, Slice_panic).
Proof.
  intros (Hb & Hl & Hmax) Hoff. unfold ReadAt_negotiate.
  destruct (Z.eqb_spec (len p) 0); [discriminate|]. cbv zeta.
  set (reqLast := Int64.sub (Int64.add off (len p)) 1).
  set (clamp := negb (size (meta ra) =? -1) && (reqLast >? Int64.sub (size (meta ra)) 1)).
  destruct clamp eqn:Hclamp; cbn [andb].
  - destruct (Z.ltb_spec (Int64.sub (size (meta ra)) 1) off); [discriminate|].
    apply andb_true_iff in Hclamp as [_ Hgt]. apply Z.gtb_lt in Hgt.
    destruct (@clamp_in_bounds off (len p) (size (meta ra))) as (Hk & _ & _);
      [assumption | lia | fold reqLast; lia | lia |].
    rewrite slice_expr_prefix by lia.
    intros Heq. apply exchange_frame in Heq as (_ & _ & Hne & _). now apply Hne.
  - intros Heq. apply exchange_frame in Heq as (_ & _ & Hne & _). now apply Hne.
Qed.

End ReadAtEnd.

(** ** [ReadAt] at and across the end of the resource *)

Ltac in_range_now :=
  unfold Int64.in_range, Int64.min_int, Int64.max_int; simpl; lia.

Lemma ReadFull_enough (r : body) (n : Z) :
  0 <= n <= Z.of_nat (List.length (body_bytes r)) ->
  io_ReadFull r n = (firstn (Z.to_nat n) (body_bytes r), None).
Proof.
  intros Hn. unfold io_ReadFull.
  destruct (Nat.leb_spec (Z.to_nat n) (List.length (body_bytes r))); [reflexivity | lia].
Qed.

Lemma ReadFull_short (r : body) (n : Z) :
  Z.of_nat (List.length (body_bytes r)) < n ->
  io_ReadFull r n
  = (body_bytes r,
     Some (if (0 <? List.length (body_bytes r))%nat && is_EOF (body_end r)
           then io_ErrUnexpectedEOF else body_end r)).
Proof.
  intros Hn. unfold io_ReadFull.
  destruct (Nat.leb_spec (Z.to_nat n) (List.length (body_bytes r))); [lia|].
  now destruct ((0 <? List.length (body_bytes r))%nat && is_EOF (body_end r)).
Qed.

(** The claim of C3 fails in two places.  Where the end of the requested
    range is not an [int64]: two bytes asked at the largest offset of a
    five-byte resource are past its end, yet the sum wraps around, nothing
    is clamped, and a request goes out.  And where the answer to the
    clamped request does not pass the checks: a read of four bytes at
    offset 3 straddles the end, the server answers with a changed ETag,
    and the read returns no byte and the validation error. *)
Lemma ReadAt_past_end_wraps :
  size (meta (demo_reader honest)) <> -1
  /\ size (meta (demo_reader honest)) <= Int64.max_int
  /\ snd (ReadAt (demo_reader honest) (whole 2) Int64.max_int (demo_world 2))
     <> Returns (0, Some io_EOF)
  /\ wire (fst (ReadAt (demo_reader honest) (whole 2) Int64.max_int (demo_world 2)))
     = [range_request (demo_reader honest) Int64.max_int Int64.min_int]
  /\ snd (ReadAt (demo_reader changed_after_probe) (whole 4) 3 (demo_world 4))
     = Returns (0, Some ErrValidationFailed).
Proof.
  split; [vm_compute; discriminate|]. split; [vm_compute; discriminate|].
  split; [vm_compute; discriminate|]. split; vm_compute; reflexivity.
Qed.

Section ReadAtClaims.

Variable Srv : Type.
Implicit Types (ra : HTTPReaderAt Srv) (w : world Srv) (p : slice).

(** C3, amended: for a reader whose cached size is known and a non-empty
    buffer whose range ends at an [int64] offset, a read that starts at or
    after the size returns 0 bytes and end-of-resource and leaves the
    world, the request log included, as it was; a read that straddles
    the end sends exactly one request, for the bytes up to [size - 1],
    and when the response passes the checks and its body holds the
    [size - off] bytes that are left, it stores them at the start of the
    buffer and returns their number with end-of-resource. *)
Theorem ReadAt_at_the_end ra p (off : Z) w :
  size (meta ra) <> -1 -> len p <> 0 -> slice_ok p ->
  Int64.in_range off -> Int64.in_range (off + len p - 1) ->
  Int64.in_range (size (meta ra) - 1) ->
  (size (meta ra) <= off -> ReadAt ra p off w = (w, Returns (0, Some io_EOF)))
  /\ (off < size (meta ra) < off + len p ->
      wire (fst (ReadAt ra p off w))
      = (wire w ++ [range_request ra off (size (meta ra) - 1)])%list
      /\ forall (s' : Srv) (resp : Response) (m : Meta),
          client ra (net w) (range_request ra off (size (meta ra) - 1)) = (s', inl resp) ->
          StatusCode resp = http_StatusPartialContent ->
          getMeta resp = (m, None) ->
          size m = size (meta ra) -> lastModified m = lastModified (meta ra) ->
          etag m = etag (meta ra) ->
          start m = off -> end_ m <= size (meta ra) - 1 ->
          ContentLength resp = Int64.add (Int64.sub (end_ m) (start m)) 1 ->
          size (meta ra) - off <= Z.of_nat (List.length (body_bytes (Body resp))) ->
          ReadAt ra p off w
          = ({| net := s';
                wire := (wire w ++ [range_request ra off (size (meta ra) - 1)])%list;
                mem := write_at (mem w) (base p)
                         (firstn (Z.to_nat (size (meta ra) - off))
                            (body_bytes (Body resp))) |},
             Returns (size (meta ra) - off, Some io_EOF))).
Proof.
  intros Hknown Hlen Hok Hoff Hlast Hsz. split.
  - intros Hpast. unfold ReadAt.
    rewrite negotiate_past; try assumption; [reflexivity|].
    destruct Hok as (_ & ? & _). lia.
  - intros Hstr. split.
    + unfold ReadAt. rewrite negotiate_straddle by assumption.
      destruct (ReadAt_exchange ra _ off (size (meta ra) - 1) (Some io_EOF) w)
        as [w1 res] eqn:Hex.
      apply exchange_frame in Hex as (_ & Hwire & Hne & _).
      destruct res as [why n err| |p' l' resp re]; [exact Hwire | contradiction |].
      unfold ReadAt_body. destruct (io_ReadFull (Body resp) (len p')). exact Hwire.
    + intros s' resp m Hdo Hst Hm Hs1 Hs2 Hs3 Hstart Hend Hcl Hbody.
      unfold ReadAt. rewrite negotiate_straddle by assumption.
      erewrite exchange_accepts by eassumption.
      unfold ReadAt_body. cbn [len base net wire mem].
      rewrite ReadFull_enough by lia. cbv zeta.
      rewrite length_firstn, Nat.min_l by lia.
      rewrite Z2Nat.id by lia. reflexivity.
Qed.

End ReadAtClaims.

Lemma ReadAt_at_the_end_witness :
  ReadAt (demo_reader honest) (whole 4) 5 (demo_world 4)
  = (demo_world 4, Returns (0, Some io_EOF))
  /\ ReadAt (demo_reader honest) (whole 4) 3 (demo_world 4)
     = ({| net := 2%nat; wire := [range_request (demo_reader honest) 3 4];
           mem := [Init.Byte.x04; Init.Byte.x05; Init.Byte.x00; Init.Byte.x00] |},
        Returns (2, Some io_EOF)).
Proof.
  split.
  - apply (@ReadAt_at_the_end nat (demo_reader honest) (whole 4) 5 (demo_world 4));
      try in_range_now; try (simpl; lia).
    unfold slice_ok, Int64.max_int; simpl; lia.
  - refine (proj2 (proj2 (@ReadAt_at_the_end nat (demo_reader honest) (whole 4) 3
                      (demo_world 4) _ _ _ _ _ _) _)
              2%nat _ _ eq_refl eq_refl eq_refl eq_refl eq_refl eq_refl eq_refl _ eq_refl _);
      try in_range_now; try (simpl; lia).
    unfold slice_ok, Int64.max_int; simpl; lia.
Defined.

(** ** Writing into the backing array *)

Lemma length_write_at (arr data : list Init.Byte.byte) (at_ : Z) :
  0 <= at_ -> at_ + Z.of_nat (List.length data) <= Z.of_nat (List.length arr) ->
  List.length (write_at arr at_ data) = List.length arr.
Proof.
  intros H0 Hfit. unfold write_at.
  rewrite !length_app, length_firstn, length_skipn. lia.
Qed.

Lemma write_at_outside (arr data : list Init.Byte.byte) (at_ : Z) (i : nat) :
  0 <= at_ -> at_ + Z.of_nat (List.length data) <= Z.of_nat (List.length arr) ->
  (i < Z.to_nat at_ \/ Z.to_nat at_ + List.length data <= i)%nat ->
  nth_error (write_at arr at_ data) i = nth_error arr i.
Proof.
  intros H0 Hfit Hi. unfold write_at. destruct Hi as [Hi|Hi].
  - rewrite nth_error_app1 by (rewrite length_firstn; lia).
    rewrite nth_error_firstn. destruct (Nat.ltb_spec i (Z.to_nat at_)); [reflexivity | lia].
  - rewrite nth_error_app2 by (rewrite length_firstn; lia).
    rewrite length_firstn, Nat.min_l by lia.
    rewrite nth_error_app2 by lia.
    rewrite nth_error_skipn. f_equal. lia.
Qed.

Lemma write_at_inside (arr data : list Init.Byte.byte) (at_ : Z) (i : nat) :
  0 <= at_ -> at_ + Z.of_nat (List.length data) <= Z.of_nat (List.length arr) ->
  (Z.to_nat at_ <= i < Z.to_nat at_ + List.length data)%nat ->
  nth_error (write_at arr at_ data) i = nth_error data (i - Z.to_nat at_).
Proof.
  intros H0 Hfit Hi. unfold write_at.
  rewrite nth_error_app2 by (rewrite length_firstn; lia).
  rewrite length_firstn, Nat.min_l by lia.
  now rewrite nth_error_app1 by lia.
Qed.

Lemma ReadFull_length (r : body) (n : Z) :
  0 <= n -> Z.of_nat (List.length (fst (io_ReadFull r n))) <= n.
Proof.
  intros Hn. unfold io_ReadFull.
  destruct (Nat.leb_spec (Z.to_nat n) (List.length (body_bytes r))).
  - cbn [fst]. rewrite length_firstn. lia.
  - destruct ((0 <? List.length (body_bytes r))%nat && is_EOF (body_end r)); cbn [fst]; lia.
Qed.

Section ReadAtShape.

Variable Srv : Type.
Implicit Types (ra : HTTPReaderAt Srv) (w : world Srv) (p : slice).

(** How the checks before the exchange can end. *)
Lemma negotiate_cases ra p (off : Z) w :
  slice_ok p -> Int64.in_range off ->
  (len p = 0 /\ ReadAt_negotiate ra p off w = (w, Early exit_empty_buffer 0 None))
  \/ ReadAt_negotiate ra p off w = (w, Early exit_empty_range 0 (Some io_EOF))
  \/ exists (p' : slice) (l : Z) (re : option error),
       ReadAt_negotiate ra p off w = ReadAt_exchange ra p' off l re w
       /\ base p' = base p /\ 0 < len p' <= len p.
Proof.
  intros (Hb & Hl & Hmax) Hoff. unfold ReadAt_negotiate.
  destruct (Z.eqb_spec (len p) 0); [left; now split|]. right. cbv zeta.
  set (reqLast := Int64.sub (Int64.add off (len p)) 1).
  set (clamp := negb (size (meta ra) =? -1) && (reqLast >? Int64.sub (size (meta ra)) 1)).
  destruct clamp eqn:Hclamp; cbn [andb].
  - destruct (Z.ltb_spec (Int64.sub (size (meta ra)) 1) off); [now left|]. right.
    apply andb_true_iff in Hclamp as [_ Hgt]. apply Z.gtb_lt in Hgt.
    destruct (@clamp_in_bounds off (len p) (size (meta ra))) as (Hk & _ & _);
      [assumption | lia | fold reqLast; lia | lia |].
    rewrite slice_expr_prefix by lia.
    eexists _, _, _. split; [reflexivity|]. cbn [base len]. split; [reflexivity | lia].
  - right. exists p, reqLast, None. split; [reflexivity|]. split; [reflexivity | lia].
Qed.

Lemma ReadAt_body_shape p (resp : Response) (re : option error) w1 :
  exists (err : option error),
    ReadAt_body p resp re w1
    = ({| net := net w1; wire := wire w1;
          mem := write_at (mem w1) (base p) (fst (io_ReadFull (Body resp) (len p))) |},
       Returns (Z.of_nat (List.length (fst (io_ReadFull (Body resp) (len p)))), err)).
Proof.
  unfold ReadAt_body. destruct (io_ReadFull (Body resp) (len p)) as [data rerr].
  cbv zeta. cbn [fst]. eexists. reflexivity.
Qed.

(** Every return of [ReadAt] , with the buffer it leaves: either nothing
    was stored and nothing read, or the body was read into the start of
    the buffer. *)
Lemma ReadAt_shape ra p (off : Z) w :
  slice_ok p -> Int64.in_range off ->
  (exists w1 why err,
      ReadAt_negotiate ra p off w = (w1, Early why 0 err)
      /\ ReadAt ra p off w = (w1, Returns (0, err)) /\ mem w1 = mem w)
  \/ (exists w1 p' l resp re data err,
        ReadAt_negotiate ra p off w = (w1, Proceed p' l resp re)
        /\ mem w1 = mem w /\ base p' = base p /\ 0 < len p' <= len p
        /\ Z.of_nat (List.length data) <= len p'
        /\ ReadAt ra p off w
           = ({| net := net w1; wire := wire w1;
                 mem := write_at (mem w) (base p) data |},
              Returns (Z.of_nat (List.length data), err))).
Proof.
  intros Hok Hoff. unfold ReadAt.
  destruct (negotiate_cases ra w Hok Hoff) as [[_ ->] | [-> | (p' & l & re & -> & Hbase & Hlen)]].
  - left. now exists w, exit_empty_buffer, None.
  - left. now exists w, exit_empty_range, (Some io_EOF).
  - destruct (ReadAt_exchange ra p' off l re w) as [w1 res] eqn:Hex.
    pose proof (exchange_frame _ _ _ _ _ _ Hex) as (Hmem & _ & Hne & Hzero).
    destruct res as [why n err| |p'' l'' resp re''].
    + left. rewrite (Hzero why n err eq_refl). now exists w1, why, err.
    + contradiction.
    + right. apply exchange_proceed in Hex as (-> & -> & -> & _).
      destruct (ReadAt_body_shape p' resp re w1) as (err & ->).
      exists w1, p', l, resp, re, (fst (io_ReadFull (Body resp) (len p'))), err.
      repeat split; try assumption; try lia.
      * apply ReadFull_length. lia.
      * now rewrite Hmem, Hbase.
Qed.

End ReadAtShape.

Section ReadAtFrame.

Variable Srv : Type.
Implicit Types (ra : HTTPReaderAt Srv) (w : world Srv) (p : slice).

(** C10: [ReadAt] on a buffer that lies in its array always returns, and
    whenever it returns from one of the eight places before the body is
    read (empty buffer, empty clamped range, transport failure, status
    other than 206, metadata parse failure, validation failure,
    range-bounds mismatch, Content-Length mismatch) it returns 0 and the
    array is unchanged; in every case the array keeps its length and
    every byte outside the first [n] bytes of the buffer, [n] being the
    count returned, is what it was: only the body read stores bytes. *)
Theorem ReadAt_frame ra p (off : Z) w :
  slice_ok p -> slice_in (mem w) p -> Int64.in_range off ->
  exists (w' : world Srv) (n : Z) (err : option error),
    ReadAt ra p off w = (w', Returns (n, err))
    /\ 0 <= n <= len p
    /\ List.length (mem w') = List.length (mem w)
    /\ (forall i : nat,
          (i < Z.to_nat (base p) \/ Z.to_nat (base p + n) <= i)%nat ->
          nth_error (mem w') i = nth_error (mem w) i)
    /\ (forall (w1 : world Srv) (why : early_exit) (n0 : Z) (e0 : option error),
          ReadAt_negotiate ra p off w = (w1, Early why n0 e0) ->
          w' = w1 /\ n = 0 /\ err = e0 /\ mem w' = mem w).
Proof.
  intros Hok Hin Hoff. pose proof Hok as (Hb & Hl & Hmax). unfold slice_in in Hin.
  destruct (ReadAt_shape ra w Hok Hoff)
    as [(w1 & why & err & Hneg & HR & Hmem)
       | (w1 & p' & l & resp & re & data & err & Hneg & Hmem & Hbase & Hlen & Hdata & HR)].
  - exists w1, 0, err. split; [exact HR|]. split; [lia|]. split; [congruence|]. split.
    + intros i _. now rewrite Hmem.
    + intros w2 why' n0 e0 E. rewrite Hneg in E. inversion E. subst. now repeat split.
  - eexists _, _, err. split; [exact HR|]. cbn [mem]. split; [lia|].
    split; [apply length_write_at; lia|]. split.
    + intros i Hi. apply write_at_outside; lia.
    + intros w2 why' n0 e0 E. rewrite Hneg in E. discriminate E.
Qed.

(** The response that [ReadAt] got, told by the request log, fails the
    comparison with the cached metadata: 0 bytes and the validation
    error, and the buffer untouched. *)
Lemma ReadAt_validation ra p (off : Z) w (rq : Request) (s' : Srv)
    (resp : Response) (m : Meta) :
  slice_ok p -> Int64.in_range off ->
  wire (fst (ReadAt ra p off w)) = (wire w ++ [rq])%list ->
  client ra (net w) rq = (s', inl resp) ->
  StatusCode resp = http_StatusPartialContent ->
  getMeta resp = (m, None) ->
  size m <> size (meta ra) \/ lastModified m <> lastModified (meta ra)
  \/ etag m <> etag (meta ra) ->
  ReadAt ra p off w
  = ({| net := s'; wire := (wire w ++ [rq])%list; mem := mem w |},
     Returns (0, Some ErrValidationFailed)).
Proof.
  intros Hok Hoff Hwire Hdo Hst Hm Hdiff.
  assert (Hnil : forall l : list Request, l <> (l ++ [rq])%list).
  { intros l E. apply (f_equal (@List.length _)) in E. rewrite length_app in E.
    simpl in E. lia. }
  unfold ReadAt in *.
  destruct (negotiate_cases ra w Hok Hoff) as [[_ E] | [E | (p' & l & re & E & _)]];
    rewrite E in *; cbn [fst wire] in Hwire; try (now apply Hnil in Hwire).
  destruct (ReadAt_exchange ra p' off l re w) as [w1 res] eqn:Hex.
  pose proof (exchange_frame _ _ _ _ _ _ Hex) as (_ & Hw1 & _ & _).
  assert (Hrq : rq = range_request ra off l).
  { assert (Hw : wire w1 = (wire w ++ [rq])%list).
    { destruct res as [why n err| |p'' l'' resp' re'']; cbn [fst wire] in Hwire;
        try exact Hwire.
      destruct (ReadAt_body_shape p'' resp' re'' w1) as (err & Eb).
      rewrite Eb in Hwire. exact Hwire. }
    rewrite Hw1 in Hw. apply app_inv_head in Hw. now inversion Hw. }
  subst rq. erewrite exchange_validation in Hex by eassumption.
  inversion Hex. reflexivity.
Qed.

End ReadAtFrame.

Lemma ReadAt_frame_witness :
  (ReadAt (demo_reader changed_after_probe) {| base := 1; len := 2; cap := 2 |} 0
     (demo_world 4)
   = ({| net := 2%nat; wire := [range_request (demo_reader changed_after_probe) 0 1];
         mem := repeat Init.Byte.x00 4 |},
      Returns (0, Some ErrValidationFailed)))
  /\ (ReadAt (demo_reader honest) {| base := 1; len := 0; cap := 2 |} 0 (demo_world 4)
      = (demo_world 4, Returns (0, None)))
  /\ exists (w' : world nat) (n : Z) (err : option error),
       ReadAt (demo_reader honest) {| base := 1; len := 2; cap := 2 |} 0 (demo_world 4)
       = (w', Returns (n, err))
       /\ 0 <= n <= 2
       /\ List.length (mem w') = 4%nat
       /\ (forall i : nat, (i < 1 \/ Z.to_nat (1 + n) <= i)%nat ->
             nth_error (mem w') i = nth_error (repeat Init.Byte.x00 4) i)
       /\ (forall (w1 : world nat) (why : early_exit) (n0 : Z) (e0 : option error),
             ReadAt_negotiate (demo_reader honest) {| base := 1; len := 2; cap := 2 |} 0
               (demo_world 4) = (w1, Early why n0 e0) ->
             w' = w1 /\ n = 0 /\ err = e0 /\ mem w' = repeat Init.Byte.x00 4).
Proof.
  split; [|split].
  - destruct (@ReadAt_frame nat (demo_reader changed_after_probe)
                {| base := 1; len := 2; cap := 2 |} 0 (demo_world 4))
      as (w' & n & err & HR & _ & _ & _ & Hearly);
      [ unfold slice_ok, Int64.max_int; simpl; lia
      | unfold slice_in; simpl; lia
      | in_range_now | ].
    destruct (Hearly {| net := 2%nat;
                        wire := [range_request (demo_reader changed_after_probe) 0 1];
                        mem := repeat Init.Byte.x00 4 |}
                exit_validation 0 (Some ErrValidationFailed) eq_refl)
      as (-> & -> & -> & _).
    exact HR.
  - destruct (@ReadAt_frame nat (demo_reader honest)
                {| base := 1; len := 0; cap := 2 |} 0 (demo_world 4))
      as (w' & n & err & HR & _ & _ & _ & Hearly);
      [ unfold slice_ok, Int64.max_int; simpl; lia
      | unfold slice_in; simpl; lia
      | in_range_now | ].
    destruct (Hearly (demo_world 4) exit_empty_buffer 0 None eq_refl) as (-> & -> & -> & _).
    exact HR.
  - apply (@ReadAt_frame nat (demo_reader honest) {| base := 1; len := 2; cap := 2 |} 0
             (demo_world 4)).
    + unfold slice_ok, Int64.max_int; simpl; lia.
    + unfold slice_in; simpl; lia.
    + in_range_now.
Defined.

(** ** A body that ends early *)

(** The claim of C6 fails: the response announces five bytes in
    Content-Length, the body ends after three, and [ReadAt] reports the
    three bytes with end-of-resource, not with a transport error. *)
Lemma truncated_body_is_end_of_resource :
  (exists (s' : nat) (resp : Response),
      client (demo_reader cut_short) 1%nat (range_request (demo_reader cut_short) 0 4)
      = (s', inl resp)
      /\ ContentLength resp = 5
      /\ List.length (body_bytes (Body resp)) = 3%nat)
  /\ snd (ReadAt (demo_reader cut_short) (whole 5) 0 (demo_world 5))
     = Returns (3, Some io_EOF).
Proof.
  split.
  - eexists _, _. split; [reflexivity|]. split; reflexivity.
  - vm_compute. reflexivity.
Qed.

Section ShortBody.

Variable Srv : Type.
Implicit Types (ra : HTTPReaderAt Srv) (w : world Srv) (p : slice).

(** C6, amended: when a [ReadAt] call reaches the body and the body ends
    before the (possibly clamped) buffer is full, the bytes that arrived
    are stored and counted, and the error is end-of-resource whenever the
    stream ended with [io.EOF] or [io.ErrUnexpectedEOF], whatever
    Content-Length announced; an error of any other kind that ended the
    stream is returned as it is. *)
Theorem short_body_is_EOF ra p (off : Z) w w1 (p' : slice) (l : Z) (resp : Response)
    (re : option error) :
  ReadAt_negotiate ra p off w = (w1, Proceed p' l resp re) ->
  Z.of_nat (List.length (body_bytes (Body resp))) < len p' ->
  ReadAt ra p off w
  = ({| net := net w1; wire := wire w1;
        mem := write_at (mem w1) (base p') (body_bytes (Body resp)) |},
     Returns (Z.of_nat (List.length (body_bytes (Body resp))),
              Some (if is_EOF (body_end (Body resp))
                       || is_ErrUnexpectedEOF (body_end (Body resp))
                    then io_EOF else body_end (Body resp)))).
Proof.
  intros Hneg Hshort. unfold ReadAt. rewrite Hneg. unfold ReadAt_body.
  rewrite ReadFull_short by exact Hshort. cbv zeta.
  destruct (0 <? List.length (body_bytes (Body resp)))%nat;
    destruct (body_end (Body resp)); reflexivity.
Qed.

End ShortBody.

Lemma short_body_is_EOF_witness :
  ReadAt (demo_reader cut_short) (whole 5) 0 (demo_world 5)
  = ({| net := 2%nat; wire := [range_request (demo_reader cut_short) 0 4];
        mem := [Init.Byte.x01; Init.Byte.x02; Init.Byte.x03; Init.Byte.x00; Init.Byte.x00] |},
     Returns (3, Some io_EOF)).
Proof.
  refine (@short_body_is_EOF nat (demo_reader cut_short) (whole 5) 0 (demo_world 5)
            _ _ _ _ _ eq_refl _).
  simpl. lia.
Defined.

(** ** The chunk planner *)

Lemma chunkSize_pos : 0 < chunkSize.
Proof. reflexivity. Qed.

Lemma div_chunk (T : Z) :
  0 <= T <= Int64.max_int -> Int64.div T chunkSize = T / chunkSize.
Proof.
  intros HT. unfold Int64.div. rewrite Z.quot_div_nonneg by (pose proof chunkSize_pos; lia).
  apply wrap_in_range. pose proof chunkSize_pos.
  assert (0 <= T / chunkSize) by (apply Z.div_pos; lia).
  assert (T / chunkSize <= T) by (apply Z.div_le_upper_bound; nia).
  unfold Int64.in_range, Int64.min_int, Int64.max_int in *. lia.
Qed.

Lemma chunks_fit (T : Z) :
  0 <= T ->
  0 <= T / chunkSize /\ T = T / chunkSize * chunkSize + T mod chunkSize
  /\ 0 <= T mod chunkSize < chunkSize.
Proof.
  intros HT. pose proof chunkSize_pos.
  pose proof (Z.div_mod T chunkSize ltac:(lia)).
  pose proof (Z.mod_pos_bound T chunkSize ltac:(lia)).
  assert (0 <= T / chunkSize) by (apply Z.div_pos; lia). lia.
Qed.

Lemma fill_fileTasks_plan (n : nat) : forall off : Z,
  0 <= off -> off + Z.of_nat n * chunkSize <= Int64.max_int ->
  fill_fileTasks n off
  = (map (fun i : nat => {| FileTask.Offset := off + Z.of_nat i * chunkSize;
                            FileTask.Size := chunkSize |}) (seq 0 n),
     off + Z.of_nat n * chunkSize).
Proof.
  pose proof chunkSize_pos as HC.
  induction n as [|n IH]; intros off Hoff Hfit.
  - simpl. f_equal. lia.
  - cbn [fill_fileTasks].
    assert (Hadd : Int64.add off chunkSize = off + chunkSize) by (unwrap; nia).
    rewrite Hadd, IH by nia.
    cbn [seq map]. rewrite <- seq_shift, map_map. f_equal.
    + f_equal; [f_equal; lia|]. apply map_ext. intros i. f_equal. lia.
    + lia.
Qed.

Lemma fill_memoryTasks_plan (T : Z) (n : nat) : forall off : Z,
  0 <= off -> off + Z.of_nat n * chunkSize <= T -> T <= Int64.max_int ->
  fill_memoryTasks n off (whole T)
  = Some (map (fun i : nat =>
                 {| Offset := off + Z.of_nat i * chunkSize;
                    Content := {| base := off + Z.of_nat i * chunkSize; len := chunkSize;
                                  cap := T - (off + Z.of_nat i * chunkSize) |} |})
              (seq 0 n),
          off + Z.of_nat n * chunkSize).
Proof.
  pose proof chunkSize_pos as HC.
  induction n as [|n IH]; intros off Hoff Hfit HT.
  - simpl. do 2 f_equal. lia.
  - cbn [fill_memoryTasks].
    assert (Hadd : Int64.add off chunkSize = off + chunkSize) by (unwrap; nia).
    rewrite Hadd. unfold slice_expr, whole. cbn [base len cap].
    destruct (Z.leb_spec 0 off); [|lia].
    destruct (Z.leb_spec off (off + chunkSize)); [|lia].
    destruct (Z.leb_spec (off + chunkSize) T); [|nia]. cbn [andb].
    fold (whole T). rewrite IH by nia.
    cbn [seq map]. rewrite <- seq_shift, map_map. do 2 f_equal; [|lia].
    f_equal.
    + f_equal; [lia|]. f_equal; lia.
    + apply map_ext. intros i. f_equal; [lia|]. f_equal; lia.
Qed.

Ltac chunk_lia :=
  unfold Int64.in_range, Int64.min_int, Int64.max_int in *;
  change chunkSize with 65536 in *; lia.

Lemma makeFileTask_plan (T : Z) :
  0 <= T <= Int64.max_int -> makeFileTask T = Returns (file_plan T).
Proof.
  intros HT. destruct (chunks_fit (proj1 HT)) as (Hq & Hsplit & Hr).
  unfold makeFileTask. rewrite div_chunk by exact HT.
  destruct (Z.ltb_spec (T / chunkSize) 0); [chunk_lia|].
  rewrite fill_fileTasks_plan by (rewrite ?Z2Nat.id; chunk_lia).
  rewrite Z2Nat.id by chunk_lia. unfold file_plan.
  destruct (Z.ltb_spec (0 + T / chunkSize * chunkSize) T);
    destruct (Z.eqb_spec (T mod chunkSize) 0); try chunk_lia.
  - rewrite sub_exact
      by chunk_lia.
    replace (T - (0 + T / chunkSize * chunkSize)) with (T mod chunkSize)
      by chunk_lia.
    reflexivity.
  - rewrite app_nil_r. reflexivity.
Qed.

Lemma makeMemoryTask_plan (T : Z) :
  0 <= T <= Int64.max_int -> makeMemoryTask T (whole T) = Returns (memory_plan T).
Proof.
  intros HT. destruct (chunks_fit (proj1 HT)) as (Hq & Hsplit & Hr).
  unfold makeMemoryTask. rewrite div_chunk by exact HT.
  destruct (Z.ltb_spec (T / chunkSize) 0); [chunk_lia|].
  rewrite fill_memoryTasks_plan by (rewrite ?Z2Nat.id; chunk_lia).
  rewrite Z2Nat.id by chunk_lia. unfold memory_plan, file_plan.
  destruct (Z.ltb_spec (0 + T / chunkSize * chunkSize) T);
    destruct (Z.eqb_spec (T mod chunkSize) 0); try chunk_lia.
  - unfold slice_expr, whole. cbn [base len cap].
    destruct (Z.leb_spec 0 (0 + T / chunkSize * chunkSize)); [|chunk_lia].
    destruct (Z.leb_spec (0 + T / chunkSize * chunkSize) T); [|chunk_lia].
    destruct (Z.leb_spec T T); [|chunk_lia]. cbn [andb].
    rewrite map_app, map_map. cbn [map FileTask.Offset FileTask.Size].
    replace (T mod chunkSize) with (T - T / chunkSize * chunkSize) by chunk_lia.
    reflexivity.
  - rewrite app_nil_r, map_map. reflexivity.
Qed.

Lemma file_plan_length (T : Z) :
  0 <= T ->
  List.length (file_plan T)
  = (Z.to_nat (T / chunkSize)%Z + (if (T mod chunkSize =? 0)%Z then 0 else 1))%nat.
Proof.
  intros HT. unfold file_plan. rewrite length_app, length_map, length_seq.
  now destruct (T mod chunkSize =? 0).
Qed.

(** The [j]-th chunk of the plan starts at [j * chunkSize], is not empty,
    is full unless it is the trailing one, and ends inside the resource. *)
Lemma memory_plan_count (T : Z) :
  0 <= T -> Z.of_nat (List.length (memory_plan T)) = chunk_count T.
Proof.
  intros HT. destruct (chunks_fit HT) as (Hq & Hsplit & Hr).
  unfold memory_plan. rewrite length_map, file_plan_length by lia. unfold chunk_count.
  change chunkSize with 65536 in *.
  destruct (Z.eqb_spec (T mod 65536) 0); cbv iota; Z.div_mod_to_equations; lia.
Qed.

Lemma file_plan_nth (T : Z) (j : nat) (t : fileTaskType) :
  0 <= T -> nth_error (file_plan T) j = Some t ->
  FileTask.Offset t = Z.of_nat j * chunkSize
  /\ 0 < FileTask.Size t <= chunkSize
  /\ FileTask.Offset t + FileTask.Size t <= T
  /\ (Z.of_nat j < T / chunkSize -> FileTask.Size t = chunkSize)
  /\ (Z.of_nat j = T / chunkSize -> FileTask.Size t = T mod chunkSize).
Proof.
  intros HT Hnth. destruct (chunks_fit HT) as (Hq & Hsplit & Hr).
  unfold file_plan in Hnth.
  destruct (Nat.lt_ge_cases j (Z.to_nat (T / chunkSize))) as [Hj|Hj].
  - rewrite nth_error_app1 in Hnth by (rewrite length_map, length_seq; exact Hj).
    rewrite nth_error_map, nth_error_seq in Hnth.
    destruct (Nat.ltb_spec j (Z.to_nat (T / chunkSize))); [|lia].
    cbn [option_map Nat.add] in Hnth. injection Hnth as <-.
    cbn [FileTask.Offset FileTask.Size].
    repeat split; try chunk_lia; nia.
  - rewrite nth_error_app2 in Hnth by (rewrite length_map, length_seq; exact Hj).
    rewrite length_map, length_seq in Hnth.
    destruct (Z.eqb_spec (T mod chunkSize) 0).
    + destruct (j - Z.to_nat (T / chunkSize)%Z)%nat; discriminate Hnth.
    + destruct (j - Z.to_nat (T / chunkSize)%Z)%nat as [|d] eqn:Hd;
        [|destruct d; discriminate Hnth].
      injection Hnth as <-. cbn [FileTask.Offset FileTask.Size].
      assert (Z.of_nat j = T / chunkSize) by lia.
      repeat split; try chunk_lia; nia.
Qed.

Lemma file_plan_cover (T i : Z) :
  0 <= i < T ->
  exists (j : nat) (t : fileTaskType),
    nth_error (file_plan T) j = Some t
    /\ FileTask.Offset t <= i < FileTask.Offset t + FileTask.Size t.
Proof.
  intros Hi. assert (HT : 0 <= T) by lia.
  destruct (chunks_fit HT) as (Hq & Hsplit & Hr).
  pose proof chunkSize_pos as HC.
  assert (Hiq : 0 <= i / chunkSize) by (apply Z.div_pos; lia).
  assert (Hle : i / chunkSize <= T / chunkSize) by (apply Z.div_le_mono; lia).
  pose proof (Z.div_mod i chunkSize ltac:(lia)) as Hdm.
  pose proof (Z.mod_pos_bound i chunkSize ltac:(lia)) as Hmb.
  exists (Z.to_nat (i / chunkSize)).
  destruct (nth_error (file_plan T) (Z.to_nat (i / chunkSize))) as [t|] eqn:Hnth.
  - exists t. split; [reflexivity|].
    destruct (file_plan_nth _ HT Hnth) as (Hoff & Hsz & _ & Hfull & Hlast).
    rewrite Z2Nat.id in * by lia.
    destruct (Z.eq_dec (i / chunkSize) (T / chunkSize)) as [E|NE].
    + rewrite (Hlast E). rewrite Hoff. rewrite E in *. nia.
    + rewrite (Hfull ltac:(lia)). rewrite Hoff. nia.
  - exfalso. apply nth_error_None in Hnth. rewrite (file_plan_length HT) in Hnth.
    destruct (Z.eqb_spec (T mod chunkSize) 0); [|lia].
    assert (i / chunkSize = T / chunkSize) by lia. nia.
Qed.

(** C2: for a total size [T] of the [int64] range and not negative, both
    planners return the plan of the specification: [T / chunkSize] chunks
    of 64 KiB at the offsets [0], [chunkSize], [2 * chunkSize], ... and
    then one chunk of [T mod chunkSize] bytes when that is not zero, the
    memory tasks being the windows of the destination buffer at those
    offsets; the ranges of the chunks are pairwise disjoint and a byte
    offset lies in one of them exactly when it lies in [[0, T)]. *)
Theorem planner_partitions (T : Z) :
  0 <= T <= Int64.max_int ->
  chunkSize = 65536
  /\ makeFileTask T = Returns (file_plan T)
  /\ makeMemoryTask T (whole T) = Returns (memory_plan T)
  /\ memory_ranges (memory_plan T) = file_ranges (file_plan T)
  /\ (forall t : memoryTaskType, In t (memory_plan T) -> base (Content t) = Offset t)
  /\ (forall i : Z,
        0 <= i < T <->
        exists z : Z * Z, In z (file_ranges (file_plan T)) /\ fst z <= i < fst z + snd z)
  /\ (forall (j k : nat) (a b : Z * Z),
        j <> k ->
        nth_error (file_ranges (file_plan T)) j = Some a ->
        nth_error (file_ranges (file_plan T)) k = Some b ->
        fst a + snd a <= fst b \/ fst b + snd b <= fst a).
Proof.
  intros HT. pose proof chunkSize_pos as HC.
  split; [reflexivity|]. split; [now apply makeFileTask_plan|].
  split; [now apply makeMemoryTask_plan|]. split; [|split; [|split]].
  - unfold memory_ranges, file_ranges, memory_plan. rewrite map_map. reflexivity.
  - intros t Hin. unfold memory_plan in Hin. apply in_map_iff in Hin as (ft & <- & _).
    reflexivity.
  - intros i. split.
    + intros Hi. destruct (file_plan_cover Hi) as (j & t & Hnth & Hin).
      exists (FileTask.Offset t, FileTask.Size t). split; [|exact Hin].
      unfold file_ranges. apply in_map_iff. exists t. split; [reflexivity|].
      eapply nth_error_In; eassumption.
    + intros ((o & sz) & Hin & Hi). unfold file_ranges in Hin.
      apply in_map_iff in Hin as (t & [= <- <-] & Hin).
      apply In_nth_error in Hin as (j & Hnth).
      destruct (file_plan_nth _ (proj1 HT) Hnth) as (Hoff & Hsz & Hend & _).
      cbn [fst snd] in Hi. nia.
  - intros j k a b Hjk Ha Hb. unfold file_ranges in Ha, Hb.
    rewrite nth_error_map in Ha, Hb.
    destruct (nth_error (file_plan T) j) as [tj|] eqn:Hj; [|discriminate].
    destruct (nth_error (file_plan T) k) as [tk|] eqn:Hk; [|discriminate].
    injection Ha as <-. injection Hb as <-. cbn [fst snd].
    destruct (file_plan_nth _ (proj1 HT) Hj) as (Hoj & Hsj & _).
    destruct (file_plan_nth _ (proj1 HT) Hk) as (Hok & Hsk & _).
    rewrite Hoj, Hok. destruct (Nat.lt_ge_cases j k); [left | right]; nia.
Qed.

Lemma planner_partitions_witness :
  makeFileTask 200000 = Returns (file_plan 200000)
  /\ file_ranges (file_plan 200000)
     = [(0, 65536); (65536, 65536); (131072, 65536); (196608, 3392)].
Proof.
  split; [|vm_compute; reflexivity].
  apply (@planner_partitions 200000). unfold Int64.max_int. lia.
Defined.

(** ** The probe *)

Section Probe.

Variable Srv : Type.
Implicit Types (w : world Srv) (clt : Requester Srv).

(** A probe answered [206] with metadata that parses makes the reader. *)
Lemma New_probe clt (rq : Request) w (s' : Srv) (resp : Response) (m : Meta) :
  Method rq = http_MethodGet ->
  clt (net w) (probe_request rq) = (s', inl resp) ->
  StatusCode resp = http_StatusPartialContent ->
  getMeta resp = (m, None) ->
  New (Some clt) (Some rq) w
  = ({| net := s'; wire := (wire w ++ [probe_request rq])%list; mem := mem w |},
     (Some {| client := clt; req := rq; meta := m |}, None)).
Proof.
  intros Hget Hdo Hst Hm. unfold New. rewrite Hget. cbn [String.eqb negb].
  change (String.eqb http_MethodGet http_MethodGet) with true. cbn [negb].
  unfold init, send, cloneRequest. cbn [client req meta].
  fold (probe_request rq). rewrite Hdo, Hst, Z.eqb_refl. cbn [negb].
  rewrite Hm. reflexivity.
Qed.

(** Metadata of a [206] response without Content-Range: the size stays at
    the [0] it was initialised with. *)
Lemma getMeta_without_range (resp : Response) :
  StatusCode resp = http_StatusPartialContent ->
  Header_Get (RespHeader resp) HttpHeaderContentRange = "" ->
  exists m : Meta, getMeta resp = (m, None) /\ size m = 0 /\ start m = -1 /\ end_ m = -1.
Proof.
  intros Hst Hcr. unfold getMeta. rewrite Hst, Hcr.
  change (http_StatusPartialContent =? http_StatusOK) with false.
  rewrite Z.eqb_refl. cbn [String.eqb negb]. eexists. split; [reflexivity|]. now cbn.
Qed.

(** Metadata of a [206] response whose Content-Range parses. *)
Lemma getMeta_with_range (resp : Response) (f l n : Z) :
  StatusCode resp = http_StatusPartialContent ->
  Header_Get (RespHeader resp) HttpHeaderContentRange <> "" ->
  parseContentRange (Header_Get (RespHeader resp) HttpHeaderContentRange) = (f, l, n, None) ->
  getMeta resp
  = ({| start := f; end_ := l; size := n;
        lastModified := Header_Get (RespHeader resp) "Last-Modified";
        etag := Header_Get (RespHeader resp) "ETag";
        contentType := Header_Get (RespHeader resp) HttpHeaderContentType |}, None).
Proof.
  intros Hst Hcr Hparse. unfold getMeta. rewrite Hst.
  change (http_StatusPartialContent =? http_StatusOK) with false.
  rewrite Z.eqb_refl.
  destruct (String.eqb_spec (Header_Get (RespHeader resp) HttpHeaderContentRange) "");
    [contradiction|]. cbn [negb]. rewrite Hparse. reflexivity.
Qed.

(** C7 at the input where the code leaves the claim: the probe is
    answered [206] with no Content-Range header, so no total length was
    communicated; construction succeeds and [Size] is [0], not [-1].
    With a Content-Range whose length is [*] it is [-1]. *)
Theorem Size_without_Content_Range clt (rq : Request) w (s' : Srv) (resp : Response) :
  Method rq = http_MethodGet ->
  clt (net w) (probe_request rq) = (s', inl resp) ->
  StatusCode resp = http_StatusPartialContent ->
  (Header_Get (RespHeader resp) HttpHeaderContentRange = "" ->
   exists ra : HTTPReaderAt Srv,
     snd (New (Some clt) (Some rq) w) = (Some ra, None) /\ Size ra = 0)
  /\ (forall f l : Z,
        0 <= f <= Int64.max_int -> 0 <= l <= Int64.max_int ->
        Header_Get (RespHeader resp) HttpHeaderContentRange = printed_range f l "*" ->
        exists ra : HTTPReaderAt Srv,
          snd (New (Some clt) (Some rq) w) = (Some ra, None) /\ Size ra = -1).
Proof.
  intros Hget Hdo Hst. split.
  - intros Hcr. destruct (getMeta_without_range resp Hst Hcr) as (m & Hm & Hsz & _).
    erewrite New_probe by eassumption. eexists. split; [reflexivity | exact Hsz].
  - intros f l Hf Hl Hcr.
    assert (Hp : parseContentRange (Header_Get (RespHeader resp) HttpHeaderContentRange)
                 = (f, l, -1, None)).
    { rewrite Hcr, parseContentRange_printed by (assumption || reflexivity). reflexivity. }
    assert (Hne : Header_Get (RespHeader resp) HttpHeaderContentRange <> "").
    { rewrite Hcr. unfold printed_range. cbn [append]. discriminate. }
    erewrite New_probe; [| eassumption | eassumption | eassumption | exact (getMeta_with_range resp Hst Hne Hp)].
    eexists. split; reflexivity.
Qed.

End Probe.

Lemma Size_without_Content_Range_witness :
  (exists ra : HTTPReaderAt nat,
      snd (New (Some (scripted_server five_bytes bare)) (Some demo_request) (fresh_world 0%nat))
      = (Some ra, None) /\ Size ra = 0)
  /\ (exists ra : HTTPReaderAt nat,
        snd (New (Some (scripted_server five_bytes unknown_length)) (Some demo_request)
               (fresh_world 0%nat))
        = (Some ra, None) /\ Size ra = -1).
Proof.
  split.
  - refine (proj1 (@Size_without_Content_Range nat (scripted_server five_bytes bare)
                     demo_request (fresh_world 0%nat) _ _ eq_refl eq_refl eq_refl) eq_refl).
  - refine (proj2 (@Size_without_Content_Range nat (scripted_server five_bytes unknown_length)
                     demo_request (fresh_world 0%nat) _ _ eq_refl eq_refl eq_refl) 0 0 _ _ eq_refl);
      unfold Int64.max_int; lia.
Defined.

(** ** [Do] *)

Section DoFacts.

Variable Srv : Type.
Variable valid_url : string -> bool.
Implicit Types (w : world Srv) (clt : option (Requester Srv)) (sch : schedule)
  (ctx : Context).

(** C9: [Do] hands the probed size to [make] as it is.  When the probe
    succeeds and leaves a negative size, [-1] for an unknown total length
    in particular, [Do] does not return an error: it panics at the
    allocation of the destination buffer, the probe being the only
    request sent. *)
Theorem Do_panics_on_unknown_size ctx sch clt (url : string) w w1 (ra : HTTPReaderAt Srv) :
  valid_url url = true ->
  New clt (Some (get_request url)) w = (w1, (Some ra, None)) ->
  Size ra < 0 ->
  Do valid_url ctx sch clt url w = (w1, Panics "makeslice: len out of range").
Proof.
  intros Hurl Hnew Hsize. unfold Do, Do_log. rewrite Hurl. cbn [negb].
  fold (get_request url). rewrite Hnew. unfold make_bytes.
  destruct (Z.ltb_spec (Size ra) 0); [reflexivity | lia].
Qed.

End DoFacts.

Lemma Do_panics_on_unknown_size_witness :
  Do any_url never_cancelled in_order (Some (scripted_server five_bytes unknown_length))
    "http://example.org/file" (fresh_world 0%nat)
  = ({| net := 1%nat; wire := [probe_request demo_request]; mem := [] |},
     Panics "makeslice: len out of range").
Proof.
  refine (@Do_panics_on_unknown_size nat any_url never_cancelled in_order
            (Some (scripted_server five_bytes unknown_length)) "http://example.org/file"
            (fresh_world 0%nat)
            {| net := 1%nat; wire := [probe_request demo_request]; mem := [] |}
            {| client := scripted_server five_bytes unknown_length; req := demo_request;
               meta := {| start := 0; end_ := 0; size := -1; lastModified := "lm";
                          etag := "v1"; contentType := "application/octet-stream" |} |}
            eq_refl eq_refl eq_refl).
Defined.

(** ** Reading from a transport that honors Range *)

Lemma Header_Get_Set (h : Header) (key value : string) :
  Header_Get (Header_Set h key value) key = value.
Proof.
  induction h as [|[k v] h IH]; simpl.
  - now rewrite String.eqb_refl.
  - destruct (String.eqb k key) eqn:E; simpl.
    + now rewrite String.eqb_refl.
    + now rewrite E.
Qed.

Lemma chunk_of_length (data : list Init.Byte.byte) (off n : Z) :
  0 <= off -> 0 <= n -> off + n <= Z.of_nat (List.length data) ->
  Z.of_nat (List.length (chunk_of data off n)) = n.
Proof.
  intros Hoff Hn Hfit. unfold chunk_of. rewrite length_firstn, length_skipn. lia.
Qed.

Lemma chunk_of_nth (data : list Init.Byte.byte) (off n : Z) (i : nat) :
  0 <= off -> 0 <= n -> (i < Z.to_nat n)%nat ->
  nth_error (chunk_of data off n) i = nth_error data (Z.to_nat off + i).
Proof.
  intros Hoff Hn Hi. unfold chunk_of. rewrite nth_error_firstn.
  destruct (Nat.ltb_spec i (Z.to_nat n)); [|lia]. now rewrite nth_error_skipn.
Qed.

Section Honest.

Variable Srv : Type.
Variable clt : Requester Srv.
Variable data : list Init.Byte.byte.
Variables lm et : string.
Hypothesis Hhonors : honors_range clt data lm et.
Hypothesis Hsize : Z.of_nat (List.length data) <= Int64.max_int.

Local Abbreviation T := (Z.of_nat (List.length data)).
Local Abbreviation reads_resource := (reads_resource clt data lm et).

Lemma New_honest (rq : Request) (w : world Srv) :
  Method rq = http_MethodGet ->
  exists (w1 : world Srv) (ra : HTTPReaderAt Srv),
    New (Some clt) (Some rq) w = (w1, (Some ra, None))
    /\ reads_resource ra /\ req ra = rq.
Proof.
  intros Hget.
  destruct (Hhonors (net w) (probe_request rq) (f := 0) (l := 0))
    as (s' & resp & m & Hdo & Hst & Hm & Hsz & Hlm & Het & _).
  - unfold probe_request, set_Range. cbn [ReqHeader]. now rewrite Header_Get_Set.
  - lia.
  - unfold Int64.max_int. lia.
  - now right.
  - eexists _, _. split; [eapply New_probe; eassumption|].
    split; [|reflexivity]. now repeat split.
Qed.

(** A read of a window that lies inside the resource fills the window
    with the bytes of the resource at that offset. *)
Lemma ReadAt_honest (ra : HTTPReaderAt Srv) (p : slice) (off : Z) (w : world Srv) :
  reads_resource ra -> slice_ok p -> 0 < len p -> 0 <= off -> off + len p <= T ->
  exists s' : Srv,
    ReadAt ra p off w
    = ({| net := s'; wire := (wire w ++ [range_request ra off (off + len p - 1)])%list;
          mem := write_at (mem w) (base p) (chunk_of data off (len p)) |},
       Returns (len p, None)).
Proof.
  intros (Hc & Hsz & Hlm & Het) (Hb & Hl & Hmax) Hpos Hoff Hfit.
  destruct (Hhonors (net w) (range_request ra off (off + len p - 1))
              (f := off) (l := off + len p - 1))
    as (s' & resp & m & Hdo & Hst & Hm & Hmsz & Hmlm & Hmet & Hin).
  - unfold range_request, set_Range. cbn [ReqHeader]. now rewrite Header_Get_Set.
  - lia.
  - lia.
  - left. lia.
  - destruct (Hin ltac:(lia)) as (Hstart & Hend & Hcl & Hbody).
    rewrite Z.min_l in Hend by lia.
    exists s'. unfold ReadAt.
    rewrite negotiate_inside; try (unfold Int64.in_range, Int64.min_int, Int64.max_int in *; lia).
    rewrite <- Hc in Hdo.
    erewrite exchange_accepts; try eassumption; try congruence; try lia.
    + unfold ReadAt_body. cbn [net wire mem].
      assert (Hbytes : body_bytes (Body resp) = chunk_of data off (len p)).
      { rewrite Hbody, Hend. unfold chunk_of. do 2 f_equal. lia. }
      rewrite ReadFull_enough.
      2:{ rewrite Hbytes, chunk_of_length; lia. }
      cbv zeta. rewrite Hbytes.
      rewrite firstn_all2 by (pose proof (@chunk_of_length data off (len p)); lia).
      rewrite chunk_of_length by lia. reflexivity.
    + rewrite Hcl, Hstart, Hend.
      unfold Int64.max_int in *. unwrap. lia.
Qed.

End Honest.

(** ** The worker pool *)

Lemma remove_nth_split (A : Type) (d : A) (k : nat) (l : list A) :
  (k < List.length l)%nat ->
  l = (firstn k l ++ nth k l d :: skipn (S k) l)%list.
Proof.
  revert l. induction k as [|k IH]; intros [|a l] Hk; simpl in *; try lia.
  - reflexivity.
  - f_equal. apply IH. lia.
Qed.

Lemma remove_nth_length (A : Type) (k : nat) (l : list A) :
  (k < List.length l)%nat -> List.length (remove_nth k l) = (List.length l - 1)%nat.
Proof.
  intros Hk. unfold remove_nth. rewrite length_app, length_firstn, length_skipn. lia.
Qed.

Lemma remove_nth_In (A : Type) (k : nat) (l : list A) (a : A) :
  In a (remove_nth k l) -> In a l.
Proof.
  unfold remove_nth. intros H. apply in_app_or in H as [H|H].
  - rewrite <- (firstn_skipn k l). apply in_or_app. now left.
  - rewrite <- (firstn_skipn (S k) l). apply in_or_app. now right.
Qed.

Lemma remove_nth_other (A : Type) (d : A) (k : nat) (l : list A) (a : A) :
  (k < List.length l)%nat -> In a l -> a = nth k l d \/ In a (remove_nth k l).
Proof.
  intros Hk Hin. rewrite (remove_nth_split d l Hk) in Hin.
  apply in_app_or in Hin as [H|[H|H]].
  - right. unfold remove_nth. apply in_or_app. now left.
  - now left.
  - right. unfold remove_nth. apply in_or_app. now right.
Qed.

Lemma pick_in_queue (x : nat) (queue : list memoryTaskType) :
  queue <> [] ->
  let k := (x mod Nat.min concurrentCount (List.length queue))%nat in
  (k < List.length queue)%nat /\ In (nth k queue no_task) queue.
Proof.
  intros Hne. cbv zeta.
  assert (Hlen : (0 < List.length queue)%nat) by (destruct queue; [contradiction | simpl; lia]).
  assert (Hk : (x mod Nat.min concurrentCount (List.length queue) < List.length queue)%nat).
  { assert (0 < Nat.min concurrentCount (List.length queue))%nat
      by (unfold concurrentCount; lia).
    pose proof (Nat.mod_upper_bound x (Nat.min concurrentCount (List.length queue))). lia. }
  split; [exact Hk | now apply nth_In].
Qed.

Lemma memory_plan_ok (T : Z) (t : memoryTaskType) :
  0 <= T -> In t (memory_plan T) -> task_ok T t.
Proof.
  intros HT Hin. unfold memory_plan in Hin. apply in_map_iff in Hin as (ft & <- & Hin).
  apply In_nth_error in Hin as (j & Hnth).
  destruct (file_plan_nth _ HT Hnth) as (Hoff & Hsz & Hend & _).
  unfold task_ok. cbn [Offset Content base len cap]. pose proof chunkSize_pos. nia.
Qed.

Lemma memory_plan_cover (T : Z) (i : nat) :
  Z.of_nat i < T -> covered (memory_plan T) i.
Proof.
  intros Hi. destruct (@file_plan_cover T (Z.of_nat i)) as (j & ft & Hnth & Hin); [lia|].
  eexists. split.
  - unfold memory_plan. apply in_map. eapply nth_error_In. exact Hnth.
  - cbn [Offset Content len]. exact Hin.
Qed.

Lemma outlives_not_done (ctx : Context) (n : nat) :
  outlives ctx (S n) -> ctx_done ctx = false /\ outlives (ctx_tick ctx) n.
Proof.
  destruct ctx as [|[|k]]; cbn [outlives ctx_done ctx_tick]; intros H;
    (split; [reflexivity || lia | trivial || lia]).
Qed.

(** Every return of [workers] extends the log, and the error it keeps is
    the one it had or else the first of the reads it added. *)
Lemma workers_log (Srv : Type) (pre : HTTPReaderAt Srv) (fuel : nat) :
  forall (ctx : Context) (picks : list nat) (late : nat) (queue : list memoryTaskType)
         (first : option error) (w w' : world Srv) (log log' : chunk_log)
         (r : outcome (option error)),
    workers fuel ctx pre picks late queue first w log = (w', r, log') ->
    exists ext : chunk_log,
      log' = (log ++ ext)%list
      /\ forall fe, r = Returns fe ->
           fe = match first with Some e => Some e | None => first_error ext end.
Proof.
  induction fuel as [|fuel IH]; intros ctx picks late queue first w w' log log' r Hrun.
  - cbn [workers] in Hrun. injection Hrun as <- <- <-.
    exists []. rewrite app_nil_r. split; [reflexivity|].
    intros fe [= <-]. now destruct first.
  - cbn [workers] in Hrun. destruct queue as [|t0 queue].
    { injection Hrun as <- <- <-. exists []. rewrite app_nil_r. split; [reflexivity|].
      intros fe [= <-]. now destruct first. }
    set (k := (hd 0%nat picks mod Nat.min concurrentCount (List.length (t0 :: queue)))%nat) in *.
    assert (Hstop : (w, Returns first, log) = (w', r, log') ->
                    exists ext : chunk_log,
                      log' = (log ++ ext)%list
                      /\ forall fe, r = Returns fe ->
                           fe = match first with
                                | Some e => Some e
                                | None => first_error ext
                                end).
    { intros [= <- <- <-]. exists []. rewrite app_nil_r. split; [reflexivity|].
      intros fe [= <-]. now destruct first. }
    destruct (readChunk pre (nth k (t0 :: queue) no_task) w) as [w1 [r0|msg]] eqn:Hread.
    + assert (Hgo : forall late1,
                 workers fuel (ctx_tick ctx) pre (tl picks) late1 (remove_nth k (t0 :: queue))
                   match first with Some _ => first | None => r0 end w1
                   (log ++ [(nth k (t0 :: queue) no_task, r0)])%list = (w', r, log') ->
                 exists ext : chunk_log,
                   log' = (log ++ ext)%list
                   /\ forall fe, r = Returns fe ->
                        fe = match first with
                             | Some e => Some e
                             | None => first_error ext
                             end).
      { intros late1 Hrec. apply IH in Hrec as (ext & -> & Hfe).
        exists ((nth k (t0 :: queue) no_task, r0) :: ext).
        rewrite <- app_assoc. split; [reflexivity|].
        intros fe Hr. rewrite (Hfe fe Hr). destruct first as [e|]; [reflexivity|].
        cbn [first_error]. now destruct r0. }
      destruct (ctx_done ctx || is_some first).
      * destruct late as [|late]; [now apply Hstop | now apply Hgo in Hrun].
      * now apply Hgo in Hrun.
    + assert (Hpanic : (w1, @Panics (option error) msg, log) = (w', r, log') ->
                       exists ext : chunk_log,
                         log' = (log ++ ext)%list
                         /\ forall fe, r = Returns fe ->
                              fe = match first with
                                   | Some e => Some e
                                   | None => first_error ext
                                   end).
      { intros [= <- <- <-]. exists []. rewrite app_nil_r.
        split; [reflexivity | discriminate]. }
      destruct (ctx_done ctx || is_some first).
      * destruct late as [|late]; [now apply Hstop | now apply Hpanic].
      * now apply Hpanic.
Qed.

Lemma parseContentRange_range (str : string) (f l n : Z) :
  parseContentRange str = (f, l, n, None) ->
  Int64.in_range f /\ Int64.in_range l /\ Int64.in_range n.
Proof.
  assert (Hm1 : Int64.in_range (-1))
    by (unfold Int64.in_range, Int64.min_int, Int64.max_int; lia).
  unfold parseContentRange. intros H.
  repeat match type of H with
         | context [match ?x with _ => _ end] => destruct x eqn:?; try discriminate H
         end.
  injection H as <- <- <-.
  repeat match goal with
         | E : match ?x with _ => _ end = Some _ |- _ =>
             destruct x eqn:?; try discriminate E
         | E : Some _ = Some _ |- _ => injection E as ?; subst
         | E : (_, _) = (_, _) |- _ => injection E as ?; subst
         | E : GoStd.ParseInt _ = Some _ |- _ => apply ParseInt_range in E
         end; auto.
Qed.

Lemma getMeta_range (resp : Response) (m : Meta) :
  StatusCode resp = http_StatusPartialContent ->
  getMeta resp = (m, None) -> Int64.in_range (size m).
Proof.
  intros Hst. unfold getMeta. rewrite Hst.
  change (http_StatusPartialContent =? http_StatusOK) with false. rewrite Z.eqb_refl.
  destruct (negb (String.eqb (Header_Get (RespHeader resp) HttpHeaderContentRange) "")).
  - destruct (parseContentRange (Header_Get (RespHeader resp) HttpHeaderContentRange))
      as [[[f l] n] [e|]] eqn:Hp; [discriminate|].
    intros [= <-]. cbn [size]. now apply parseContentRange_range in Hp.
  - intros [= <-]. cbn [size]. unfold Int64.in_range, Int64.min_int, Int64.max_int. lia.
Qed.

Section Pool.

Variable Srv : Type.
Implicit Types (w : world Srv) (pre ra : HTTPReaderAt Srv).

Lemma New_inv (clt : option (Requester Srv)) (rq : Request) w w1 ra :
  New clt (Some rq) w = (w1, (Some ra, None)) ->
  Int64.in_range (Size ra).
Proof.
  unfold New. destruct clt as [c|]; [|discriminate].
  destruct (negb (String.eqb (Method rq) http_MethodGet)); [discriminate|].
  unfold init. cbn [client req meta].
  destruct (send c _ w) as [w0 [resp|e]]; [|discriminate].
  destruct (Z.eqb_spec (StatusCode resp) http_StatusPartialContent) as [Hst|];
    cbn [negb]; [|discriminate].
  destruct (getMeta resp) as [m [e|]] eqn:Hm; [discriminate|].
  intros [= <- <-]. unfold Size. cbn [meta]. eapply getMeta_range; eassumption.
Qed.

Lemma ReadAt_returns ra (p : slice) (off : Z) w :
  slice_ok p -> Int64.in_range off ->
  exists w' n err, ReadAt ra p off w = (w', Returns (n, err)).
Proof.
  intros Hok Hoff.
  destruct (ReadAt_shape ra w Hok Hoff)
    as [(w1 & why & err & _ & HR & _) | (w1 & p' & l & resp & re & d & err & _ & _ & _ & _ & _ & HR)];
    rewrite HR; eauto.
Qed.

Lemma readChunk_returns pre (t : memoryTaskType) w :
  slice_ok (Content t) -> Int64.in_range (Offset t) ->
  exists w' r, readChunk pre t w = (w', Returns r).
Proof.
  intros Hok Hoff. unfold readChunk.
  destruct (ReadAt_returns (Clone pre) w Hok Hoff) as (w' & n & err & ->).
  destruct err; [eauto|]. destruct (negb (n =? len (Content t))); eauto.
Qed.

Lemma workers_returns pre (fuel : nat) :
  forall (ctx : Context) (picks : list nat) (late : nat) (queue : list memoryTaskType)
         (first : option error) w w' (log log' : chunk_log) (r : outcome (option error)),
    (forall t, In t queue -> slice_ok (Content t) /\ Int64.in_range (Offset t)) ->
    workers fuel ctx pre picks late queue first w log = (w', r, log') ->
    exists fe, r = Returns fe.
Proof.
  induction fuel as [|fuel IH]; intros ctx picks late queue first w w' log log' r Hq Hrun.
  - cbn [workers] in Hrun. injection Hrun as <- <- <-. eauto.
  - cbn [workers] in Hrun. destruct queue as [|t0 queue].
    { injection Hrun as <- <- <-. eauto. }
    destruct (@pick_in_queue (hd 0%nat picks) (t0 :: queue) ltac:(discriminate)) as (Hk & Hin).
    set (k := (hd 0%nat picks mod Nat.min concurrentCount (List.length (t0 :: queue)))%nat) in *.
    destruct (Hq _ Hin) as (Hok & Hoff).
    destruct (readChunk_returns pre _ w Hok Hoff) as (w1 & r0 & Hread).
    rewrite Hread in Hrun.
    assert (Hq' : forall t, In t (remove_nth k (t0 :: queue)) ->
                    slice_ok (Content t) /\ Int64.in_range (Offset t))
      by (intros t Ht; apply Hq; eapply remove_nth_In; exact Ht).
    destruct (ctx_done ctx || is_some first).
    + destruct late as [|late]; [injection Hrun as <- <- <-; eauto|].
      eapply IH; eassumption.
    + eapply IH; eassumption.
Qed.

End Pool.

(** ** A download whose chunk read fails *)

Lemma first_error_In (log : chunk_log) (t : memoryTaskType) (e0 : error) :
  In (t, Some e0) log -> exists e : error, first_error log = Some e.
Proof.
  induction log as [|[t' [e'|]] log IH]; intros Hin; cbn [first_error].
  - contradiction.
  - eauto.
  - destruct Hin as [Heq|Hin]; [discriminate Heq | auto].
Qed.

Lemma first_error_app (log1 log2 : chunk_log) :
  first_error log1 = None -> first_error (log1 ++ log2) = first_error log2.
Proof.
  induction log1 as [|[t [e|]] log1 IH]; cbn [first_error app]; intros H;
    [reflexivity | discriminate | auto].
Qed.

Section FailedDownload.

Variable Srv : Type.
Variable valid_url : string -> bool.
Implicit Types (w : world Srv) (ra : HTTPReaderAt Srv) (sch : schedule) (ctx : Context).

(** What [Do] did when it got as far as reading chunks. *)
Lemma Do_log_inv ctx sch (clt : option (Requester Srv)) (url : string) w w'
    (out : outcome (option (list Init.Byte.byte) * option error)) (log : chunk_log) :
  Do_log valid_url ctx sch clt url w = (w', out, log) -> log <> [] ->
  exists (w1 : world Srv) (pre : HTTPReaderAt Srv) (r : outcome (option error)),
    New clt (Some (get_request url)) w = (w1, (Some pre, None))
    /\ 0 <= Size pre <= Int64.max_int
    /\ workers (List.length (memory_plan (Size pre))) ctx pre (picks sch)
         (Nat.min (stragglers sch) concurrentCount) (memory_plan (Size pre)) None
         {| net := net w1; wire := wire w1;
            mem := repeat Init.Byte.x00 (Z.to_nat (Size pre)) |} []
       = (w', r, log)
    /\ out = match r with
             | Panics msg => Panics msg
             | Returns (Some err) => Returns (None, Some err)
             | Returns None => Returns (Some (view (mem w') (whole (Size pre))), None)
             end.
Proof.
  unfold Do_log. intros Hrun Hlog.
  assert (Hstop : forall (wx : world Srv) ox, (wx, ox, @nil (memoryTaskType * option error))
                    = (w', out, log) -> False)
    by (intros wx ox E; apply Hlog; now inversion E).
  destruct (negb (valid_url url)); [now apply Hstop in Hrun|].
  fold (get_request url) in Hrun.
  destruct (New clt (Some (get_request url)) w) as [w1 [[pre|] [e|]]] eqn:Hnew;
    try (now apply Hstop in Hrun).
  pose proof (New_inv _ _ _ Hnew) as Hrange.
  unfold make_bytes in Hrun.
  destruct (Z.ltb_spec (Size pre) 0); [now apply Hstop in Hrun|].
  assert (HT : 0 <= Size pre <= Int64.max_int)
    by (unfold Int64.in_range in Hrange; lia).
  fold (whole (Size pre)) in Hrun. rewrite (makeMemoryTask_plan HT) in Hrun.
  destruct (workers _ ctx pre _ _ _ None _ []) as [[w3 r] log3] eqn:Hw in Hrun.
  exists w1, pre, r. split; [reflexivity|]. split; [exact HT|].
  destruct r as [[e|]|msg]; injection Hrun as <- <- <-; split; (exact Hw || reflexivity).
Qed.

(** C4, amended.  A [ReadAt] call whose response (the answer to the
    request it logged) is [206] with metadata that parses and differs
    from the cached snapshot in size, Last-Modified or ETag returns 0
    bytes and the validation error.  A buffer-mode download in which a
    chunk read hit this condition returns a nil buffer and the first
    error among its chunk reads: the validation error when no read
    failed before that one, the earlier error otherwise; never a
    buffer. *)
Theorem validation_failure_fails_download :
  (forall ra (p : slice) (off : Z) w (rq : Request) (s' : Srv) (resp : Response) (m : Meta),
      slice_ok p -> Int64.in_range off ->
      wire (fst (ReadAt ra p off w)) = (wire w ++ [rq])%list ->
      client ra (net w) rq = (s', inl resp) ->
      StatusCode resp = http_StatusPartialContent ->
      getMeta resp = (m, None) ->
      size m <> size (meta ra) \/ lastModified m <> lastModified (meta ra)
      \/ etag m <> etag (meta ra) ->
      ReadAt ra p off w
      = ({| net := s'; wire := (wire w ++ [rq])%list; mem := mem w |},
         Returns (0, Some ErrValidationFailed)))
  /\ (forall ctx sch (clt : option (Requester Srv)) (url : string) w w'
             (out : outcome (option (list Init.Byte.byte) * option error))
             (log : chunk_log) (task : memoryTaskType),
        Do_log valid_url ctx sch clt url w = (w', out, log) ->
        In (task, Some ErrValidationFailed) log ->
        (exists e : error, first_error log = Some e /\ out = Returns (None, Some e))
        /\ (forall (before after : chunk_log),
              log = (before ++ (task, Some ErrValidationFailed) :: after)%list ->
              first_error before = None ->
              out = Returns (None, Some ErrValidationFailed))).
Proof.
  split.
  - intros. now apply ReadAt_validation with (resp := resp) (m := m).
  - intros ctx sch clt url w w' out log task Hrun Hin.
    assert (Hne : log <> []) by (intros ->; contradiction).
    pose proof Hrun as Hinv.
    apply Do_log_inv in Hinv as (w1 & pre & r & Hnew & HT & Hw & Hout); [|exact Hne].
    assert (Hq : forall t, In t (memory_plan (Size pre)) ->
                   slice_ok (Content t) /\ Int64.in_range (Offset t)).
    { intros t Ht. apply memory_plan_ok in Ht as (Hb & Hl & Ho & He); [|lia].
      unfold slice_ok, Int64.in_range, Int64.min_int, Int64.max_int in *.
      repeat split; lia. }
    pose proof Hw as Hret. eapply workers_returns in Hret as (fe & ->); [|exact Hq].
    pose proof Hw as Hext. apply workers_log in Hext as (ext & Hlog & Hfe).
    cbn [app] in Hlog. subst ext. specialize (Hfe fe eq_refl). cbn iota in Hfe.
    pose proof Hin as Hfirst. apply first_error_In in Hfirst as (e & He).
    assert (Hres : out = Returns (None, Some e)) by (rewrite Hout, Hfe, He; reflexivity).
    split; [eauto|].
    intros before after -> Hbefore. rewrite first_error_app in He by exact Hbefore.
    cbn [first_error] in He. injection He as <-. exact Hres.
Qed.

End FailedDownload.

(** The claim of C4 fails in its second half: both chunks of the download
    are being read when the first read fails on the transport; the second
    read then meets the changed ETag and returns the validation error,
    but [Do] returns the error it saw first. *)
Lemma later_validation_failure_is_not_returned :
  map snd (snd (Do_log any_url never_cancelled one_in_flight
                  (Some (scripted_server two_chunks reset_then_changed))
                  "http://example.org/file" (fresh_world 0%nat)))
  = [Some (err_http_request (err_transport "connection reset"));
     Some ErrValidationFailed]
  /\ snd (fst (Do_log any_url never_cancelled one_in_flight
                 (Some (scripted_server two_chunks reset_then_changed))
                 "http://example.org/file" (fresh_world 0%nat)))
     = Returns (None, Some (err_http_request (err_transport "connection reset"))).
Proof. split; lazy; reflexivity. Qed.

Lemma validation_failure_fails_download_witness :
  ReadAt (demo_reader changed_after_probe) (whole 5) 0 (demo_world 5)
  = ({| net := 2%nat; wire := [range_request (demo_reader changed_after_probe) 0 4];
        mem := repeat Init.Byte.x00 5 |},
     Returns (0, Some ErrValidationFailed))
  /\ snd (fst (Do_log any_url never_cancelled in_order (Some (scripted_server five_bytes changed_after_probe))
                 "http://example.org/file" (fresh_world 0%nat)))
     = Returns (None, Some ErrValidationFailed).
Proof.
  split.
  - refine (proj1 (@validation_failure_fails_download nat any_url)
              (demo_reader changed_after_probe) (whole 5) 0 (demo_world 5)
              (range_request (demo_reader changed_after_probe) 0 4) 2%nat _ _
              _ _ eq_refl eq_refl eq_refl eq_refl (or_intror (or_intror _))).
    + unfold slice_ok, Int64.max_int; simpl; lia.
    + in_range_now.
    + discriminate.
  - destruct (Do_log any_url never_cancelled in_order (Some (scripted_server five_bytes changed_after_probe))
                "http://example.org/file" (fresh_world 0%nat)) as [[w' out] log] eqn:Hrun.
    cbn [fst snd].
    refine (proj2 (proj2 (@validation_failure_fails_download nat any_url)
                     never_cancelled in_order _ _ _ w' out log
                     {| Offset := 0; Content := {| base := 0; len := 5; cap := 5 |} |}
                     Hrun _) [] [] _ eq_refl).
    + assert (Hlog : log = snd (Do_log any_url never_cancelled in_order
                                  (Some (scripted_server five_bytes changed_after_probe))
                                  "http://example.org/file" (fresh_world 0%nat)))
        by (now rewrite Hrun).
      rewrite Hlog. left. reflexivity.
    + assert (Hlog : log = snd (Do_log any_url never_cancelled in_order
                                  (Some (scripted_server five_bytes changed_after_probe))
                                  "http://example.org/file" (fresh_world 0%nat)))
        by (now rewrite Hrun).
      rewrite Hlog. reflexivity.
Defined.

(** ** The download against a transport that honors Range *)

Lemma firstn_add (A : Type) (n m : nat) : forall l : list A,
  firstn (n + m) l = (firstn n l ++ firstn m (skipn n l))%list.
Proof.
  induction n as [|n IH]; intros [|a l]; simpl; try reflexivity.
  - now rewrite firstn_nil.
  - now rewrite IH.
Qed.

Lemma chunk_of_app (data : list Init.Byte.byte) (off n m : Z) :
  0 <= off -> 0 <= n -> 0 <= m ->
  (chunk_of data off n ++ chunk_of data (off + n) m)%list = chunk_of data off (n + m).
Proof.
  intros Hoff Hn Hm. unfold chunk_of.
  rewrite (Z2Nat.inj_add n m), firstn_add, skipn_skipn by lia.
  do 3 f_equal. lia.
Qed.

Lemma chunk_of_all (data : list Init.Byte.byte) :
  chunk_of data 0 (Z.of_nat (List.length data)) = data.
Proof.
  unfold chunk_of. rewrite Nat2Z.id. cbn [Z.to_nat skipn]. apply firstn_all.
Qed.

Lemma write_at_whole (arr d : list Init.Byte.byte) :
  List.length arr = List.length d -> write_at arr 0 d = d.
Proof.
  intros Hlen. unfold write_at. cbn [Z.to_nat firstn app Nat.add].
  rewrite skipn_all2 by lia. apply app_nil_r.
Qed.

Lemma view_whole (arr : list Init.Byte.byte) :
  view arr (whole (Z.of_nat (List.length arr))) = arr.
Proof.
  unfold view, whole. cbn [base len Z.to_nat skipn]. rewrite Nat2Z.id. apply firstn_all.
Qed.

Lemma view_exact (arr : list Init.Byte.byte) (n : Z) :
  Z.of_nat (List.length arr) = n -> view arr {| base := 0; len := n; cap := n |} = arr.
Proof. intros <-. apply view_whole. Qed.

Section HonestDownload.

Variable Srv : Type.
Variable valid_url : string -> bool.
Variable clt : Requester Srv.
Variable data : list Init.Byte.byte.
Variables lm et : string.
Hypothesis Hhonors : honors_range clt data lm et.
Hypothesis Hsize : Z.of_nat (List.length data) <= Int64.max_int.

Local Abbreviation T := (Z.of_nat (List.length data)).
Local Abbreviation reads_resource := (reads_resource clt data lm et).

Lemma readChunk_honest (ra : HTTPReaderAt Srv) (t : memoryTaskType) (w : world Srv) :
  reads_resource ra -> task_ok T t ->
  exists (s' : Srv) (sent : list Request),
    readChunk ra t w
    = ({| net := s'; wire := sent;
          mem := write_at (mem w) (Offset t) (chunk_of data (Offset t) (len (Content t))) |},
       Returns None).
Proof.
  intros Hra (Hbase & Hlen & Hoff & Hend). unfold readChunk.
  assert (Hok : slice_ok (Content t)) by (unfold slice_ok; lia).
  destruct (@ReadAt_honest Srv clt data lm et Hhonors Hsize (Clone ra) (Content t) (Offset t) w
              Hra Hok ltac:(lia) Hoff Hend) as (s' & ->).
  rewrite Z.eqb_refl. cbn [negb]. rewrite Hbase. eauto.
Qed.

Lemma workers_honest (ra : HTTPReaderAt Srv) (fuel : nat) :
  forall (ctx : Context) (picks : list nat) (late : nat) (queue : list memoryTaskType)
         (w : world Srv) (log : chunk_log),
    reads_resource ra ->
    (List.length queue <= fuel)%nat ->
    outlives ctx (List.length queue) ->
    (forall t, In t queue -> task_ok T t) ->
    List.length (mem w) = List.length data ->
    exists (w' : world Srv) (log' : chunk_log),
      workers fuel ctx ra picks late queue None w log = (w', Returns None, log')
      /\ List.length (mem w') = List.length data
      /\ forall i : nat,
           nth_error (mem w) i = nth_error data i \/ covered queue i ->
           nth_error (mem w') i = nth_error data i.
Proof.
  induction fuel as [|fuel IH]; intros ctx picks late queue w log Hra Hfuel Hctx Hq Hlen.
  - destruct queue; [|simpl in Hfuel; lia]. exists w, log. cbn [workers].
    split; [reflexivity|]. split; [exact Hlen|].
    intros i [Hi | (t & [] & _)]. exact Hi.
  - destruct queue as [|t0 queue].
    { exists w, log. cbn [workers]. split; [reflexivity|]. split; [exact Hlen|].
      intros i [Hi | (t & [] & _)]. exact Hi. }
    cbn [workers].
    cbn [List.length] in Hctx. apply outlives_not_done in Hctx as (Hlive & Hctx).
    rewrite Hlive. cbn [is_some orb].
    destruct (@pick_in_queue (hd 0%nat picks) (t0 :: queue) ltac:(discriminate)) as (Hk & Hin).
    set (k := (hd 0%nat picks mod Nat.min concurrentCount (List.length (t0 :: queue)))%nat) in *.
    set (task := nth k (t0 :: queue) no_task) in *.
    pose proof (Hq _ Hin) as Htask.
    destruct (readChunk_honest w Hra Htask) as (s' & sent & ->).
    destruct Htask as (Hbase & Hl & Hoff & Hend).
    set (w1 := {| net := s'; wire := sent;
                  mem := write_at (mem w) (Offset task)
                           (chunk_of data (Offset task) (len (Content task))) |}).
    assert (Hchunk : Z.of_nat (List.length (chunk_of data (Offset task) (len (Content task))))
                     = len (Content task)) by (apply chunk_of_length; lia).
    destruct (IH (ctx_tick ctx) (tl picks) late (remove_nth k (t0 :: queue)) w1
                (log ++ [(task, None)])%list Hra)
      as (w' & log' & Hrun & Hlen' & Hdata).
    + rewrite remove_nth_length by exact Hk. simpl in *. lia.
    + rewrite remove_nth_length by exact Hk. cbn [List.length].
      replace (S (List.length queue) - 1)%nat with (List.length queue) by lia.
      exact Hctx.
    + intros t Ht. apply Hq. eapply remove_nth_In. exact Ht.
    + cbn [mem w1]. rewrite length_write_at; lia.
    + exists w', log'. split; [exact Hrun|]. split; [exact Hlen'|].
      intros i Hi. apply Hdata. cbn [mem w1].
      destruct (Z_lt_ge_dec (Z.of_nat i) (Offset task)) as [Hlo|Hlo].
      { rewrite write_at_outside by lia.
        destruct Hi as [Hi | (t & Ht & Hti)]; [now left|]. right.
        destruct (@remove_nth_other _ no_task k (t0 :: queue) t Hk Ht) as [-> | Hrest];
        [fold task in Hti; lia|].
        exists t. now split. }
      destruct (Z_lt_ge_dec (Z.of_nat i) (Offset task + len (Content task))) as [Hhi|Hhi].
      { left. rewrite write_at_inside by lia.
        rewrite chunk_of_nth by lia. f_equal. lia. }
      rewrite write_at_outside by lia.
      destruct Hi as [Hi | (t & Ht & Hti)]; [now left|]. right.
      destruct (@remove_nth_other _ no_task k (t0 :: queue) t Hk Ht) as [-> | Hrest];
        [fold task in Hti; lia|].
      exists t. now split.
Qed.

End HonestDownload.

Section Refinement.

Variable Srv : Type.
Variable valid_url : string -> bool.
Variable clt : Requester Srv.
Variable data : list Init.Byte.byte.
Variables lm et : string.
Hypothesis Hhonors : honors_range clt data lm et.
Hypothesis Hsize : Z.of_nat (List.length data) <= Int64.max_int.

Local Abbreviation T := (Z.of_nat (List.length data)).
Local Abbreviation reads_resource := (reads_resource clt data lm et).

Lemma Do_honest (ctx : Context) (sch : schedule) (url : string) (w : world Srv) :
  valid_url url = true ->
  outlives ctx (List.length (memory_plan T)) ->
  snd (Do valid_url ctx sch (Some clt) url w) = Returns (Some data, None).
Proof.
  intros Hurl Hctx. unfold Do, Do_log. rewrite Hurl. cbn [negb]. fold (get_request url).
  destruct (@New_honest Srv clt data lm et Hhonors (get_request url) w eq_refl)
    as (w1 & ra & -> & Hra & _).
  pose proof Hra as (_ & Hsz & _). unfold Size. rewrite Hsz.
  unfold make_bytes. destruct (Z.ltb_spec T 0); [lia|].
  fold (whole T). rewrite makeMemoryTask_plan by lia.
  destruct (@workers_honest Srv clt data lm et Hhonors Hsize ra
              (List.length (memory_plan T)) ctx (picks sch)
              (Nat.min (stragglers sch) concurrentCount) (memory_plan T)
              {| net := net w1; wire := wire w1;
                 mem := repeat Init.Byte.x00 (Z.to_nat T) |} [] Hra (le_n _) Hctx)
    as (w3 & log & -> & Hlen & Hdata).
  - intros t Ht. apply memory_plan_ok; [lia | exact Ht].
  - cbn [mem]. rewrite repeat_length. lia.
  - cbn [fst snd]. do 3 f_equal.
    assert (Hmem : mem w3 = data).
    { apply nth_error_ext. intros i.
      destruct (Nat.lt_ge_cases i (List.length data)) as [Hi|Hi].
      - apply Hdata. right. apply memory_plan_cover. lia.
      - rewrite (proj2 (nth_error_None (mem w3) i)) by lia.
        now rewrite (proj2 (nth_error_None data i)) by lia. }
    rewrite <- Hlen, Hmem at 1. rewrite <- Hmem at 2. rewrite Hmem.
    apply view_whole.
Qed.

Lemma sequential_reads_honest (ra : HTTPReaderAt Srv) (lens : list Z) :
  forall (off : Z) (w : world Srv),
    reads_resource ra -> Forall (fun l => 0 <= l) lens ->
    0 <= off -> off + total lens <= T ->
    snd (sequential_reads ra lens off w) = Some (chunk_of data off (total lens)).
Proof.
  induction lens as [|l lens IH]; intros off w Hra Hpos Hoff Hfit.
  - reflexivity.
  - inversion Hpos as [|? ? Hl Hrest]; subst. cbn [total fold_right] in *.
    fold (total lens) in *.
    assert (Htot : 0 <= total lens).
    { clear -Hrest. induction Hrest; cbn [total fold_right]; [lia|].
      fold (total l) in *. lia. }
    cbn [sequential_reads]. unfold make_bytes.
    destruct (Z.ltb_spec l 0); [lia|]. fold (whole l).
    destruct (Z.eq_dec l 0) as [->|Hnz].
    + unfold ReadAt, ReadAt_negotiate. cbn [whole len Z.eqb].
      specialize (IH (off + 0)
                    {| net := net w; wire := wire w; mem := repeat Init.Byte.x00 (Z.to_nat 0) |}
                    Hra Hrest ltac:(lia) ltac:(lia)).
      destruct (sequential_reads ra lens (off + 0) _) as [w2 [more|]];
        cbn [snd] in IH; [|discriminate IH].
      injection IH as ->. cbn [snd Z.to_nat firstn app].
      f_equal. rewrite Z.add_0_r, Z.add_0_l. reflexivity.
    + destruct (@ReadAt_honest Srv clt data lm et Hhonors Hsize ra (whole l) off
                  {| net := net w; wire := wire w; mem := repeat Init.Byte.x00 (Z.to_nat l) |}
                  Hra) as (s' & ->).
      * unfold slice_ok, whole. cbn [base len cap]. lia.
      * cbn [whole len]. lia.
      * exact Hoff.
      * cbn [whole len]. lia.
      * cbn [whole len base mem].
        assert (Hchunk : Z.of_nat (List.length (chunk_of data off l)) = l)
          by (apply chunk_of_length; lia).
        rewrite write_at_whole by (rewrite repeat_length; lia).
        match goal with
        | |- context [sequential_reads ra lens (off + l) ?w1] =>
            specialize (IH (off + l) w1 Hra Hrest ltac:(lia) ltac:(lia));
            destruct (sequential_reads ra lens (off + l) w1) as [w2 [more|]]
        end; cbn [snd] in IH; [|discriminate IH].
        injection IH as ->. cbn [snd]. f_equal.
        unfold whole. rewrite (view_exact _ Hchunk).
        rewrite firstn_all2 by lia. apply chunk_of_app; lia.
Qed.

(** C1, amended.  The transport honors Range for a resource [data] of
    [T] bytes, not empty, with stable metadata, and the caller's context
    is not cancelled before the [ceil (T / 65536)] chunk reads of the
    download have returned.  Whatever order the schedule lets the workers
    read in, [Do] returns a buffer of length [T], and reading [[0, T)]
    with one [ReadAt] after the other, in pieces of any lengths that add
    up to [T], through the reader [Do] builds, and joining what they
    return gives that same buffer, byte for byte: both are [data]. *)
Theorem Do_is_sequential_reads (ctx : Context) (sch : schedule) (url : string)
    (w w0 : world Srv) (lens : list Z) :
  valid_url url = true ->
  data <> [] ->
  outlives ctx (Z.to_nat (chunk_count T)) ->
  Forall (fun l => 0 <= l) lens -> total lens = T ->
  exists (w1 : world Srv) (ra : HTTPReaderAt Srv) (buf : list Init.Byte.byte),
    New (Some clt) (Some (get_request url)) w = (w1, (Some ra, None))
    /\ Size ra = T
    /\ snd (Do valid_url ctx sch (Some clt) url w) = Returns (Some buf, None)
    /\ Z.of_nat (List.length buf) = T
    /\ snd (sequential_reads ra lens 0 w0) = Some buf
    /\ buf = data.
Proof.
  intros Hurl _ Hctx Hpos Htotal.
  destruct (@New_honest Srv clt data lm et Hhonors (get_request url) w eq_refl)
    as (w1 & ra & Hnew & Hra & _).
  exists w1, ra, data. split; [exact Hnew|]. split; [apply Hra|].
  split.
  { apply Do_honest; [exact Hurl|].
    rewrite <- memory_plan_count, Nat2Z.id in Hctx by lia. exact Hctx. }
  split; [reflexivity|]. split; [|reflexivity].
  rewrite sequential_reads_honest by (assumption || lia).
  rewrite Htotal. f_equal. apply chunk_of_all.
Qed.

End Refinement.

(** ** The honest server honors Range *)

Lemma parse_Range_printed (f l : Z) :
  0 <= f <= Int64.max_int -> 0 <= l <= Int64.max_int ->
  parse_Range (Sprintf_HttpHeaderRangeFormat f l) = Some (f, l).
Proof.
  intros Hf Hl. unfold parse_Range, Sprintf_HttpHeaderRangeFormat.
  change ("bytes=" ++ GoStd.itoa f ++ "-" ++ GoStd.itoa l)%string
    with ("bytes" ++ String "="%char (GoStd.itoa f ++ String "-"%char (GoStd.itoa l)))%string.
  rewrite Split_first by reflexivity.
  rewrite Split_none.
  2:{ rewrite string_all_app. cbn [string_all].
      rewrite !itoa_differs by reflexivity. reflexivity. }
  change (String.eqb "bytes" "bytes") with true. cbv iota.
  rewrite Split_first.
  2:{ apply string_all_weaken with (P := is_digit);
        [now apply is_digit_differs | apply itoa_nonneg_digits; lia]. }
  rewrite Split_none.
  2:{ apply string_all_weaken with (P := is_digit);
        [now apply is_digit_differs | apply itoa_nonneg_digits; lia]. }
  rewrite !ParseInt_itoa by (unfold Int64.in_range, Int64.min_int, Int64.max_int in *; lia).
  reflexivity.
Qed.

Lemma length_field_itoa (n : Z) : 0 <= n <= Int64.max_int -> length_field (GoStd.itoa n) = Some n.
Proof.
  intros Hn. unfold length_field.
  destruct (@itoa_nonneg_cons n ltac:(lia)) as (c & s & Heq & Hc).
  assert (Hstar : String.eqb (GoStd.itoa n) "*" = false).
  { rewrite Heq. simpl. destruct (Ascii.eqb_spec c "*"%char) as [->|]; [discriminate Hc | reflexivity]. }
  rewrite Hstar. apply ParseInt_itoa.
  unfold Int64.in_range, Int64.min_int, Int64.max_int in *. lia.
Qed.

Lemma honest_server_honors (data : list Init.Byte.byte) (lm et : string) :
  data <> [] -> Z.of_nat (List.length data) <= Int64.max_int ->
  honors_range (honest_server data lm et) data lm et.
Proof.
  intros Hne Hmax s rq f l Hrange Hfl Hl Hcase.
  assert (HT : 0 < Z.of_nat (List.length data)) by (destruct data; [contradiction | simpl; lia]).
  assert (Hf : f < Z.of_nat (List.length data)) by lia.
  set (T := Z.of_nat (List.length data)) in *.
  unfold honest_server, scripted_server, answer. fold T.
  rewrite Hrange, parse_Range_printed by lia.
  destruct (Z.leb_spec 0 f); [|lia]. destruct (Z.leb_spec f l); [|lia].
  destruct (Z.ltb_spec f T); [|lia]. cbn [andb].
  set (l' := Z.min l (T - 1)).
  assert (Hl' : 0 <= l' <= Int64.max_int) by (unfold l'; lia).
  eexists _, _, _. split; [reflexivity|]. split; [reflexivity|].
  split.
  - apply getMeta_with_range; [reflexivity | cbn; discriminate |].
    cbn [RespHeader validators app Header_Get String.eqb Ascii.eqb Bool.eqb HttpHeaderContentRange].
    fold (printed_range f l' (GoStd.itoa T)).
    rewrite parseContentRange_printed; try lia.
    + rewrite length_field_itoa by lia. reflexivity.
    + now apply itoa_differs.
    + now apply itoa_differs.
  - cbn [size lastModified etag start end_ ContentLength Body body_bytes].
    split; [reflexivity|]. split; [reflexivity|]. split; [reflexivity|].
    intros _. repeat split; reflexivity.
Qed.

Lemma Do_is_sequential_reads_witness :
  snd (Do any_url (cancelled_after 1) one_in_flight (Some (honest_server five_bytes "lm" "v1"))
         "http://example.org/file" (fresh_world 0%nat))
  = Returns (Some five_bytes, None)
  /\ snd (sequential_reads (demo_reader honest) [2; 0; 3] 0 (demo_world 0))
     = Some five_bytes.
Proof.
  assert (Hh : honors_range (honest_server five_bytes "lm" "v1") five_bytes "lm" "v1")
    by (apply honest_server_honors; [discriminate | unfold Int64.max_int; simpl; lia]).
  destruct (@Do_is_sequential_reads nat any_url (honest_server five_bytes "lm" "v1")
              five_bytes "lm" "v1" Hh ltac:(unfold Int64.max_int; simpl; lia)
              (cancelled_after 1) one_in_flight "http://example.org/file"
              (fresh_world 0%nat) (demo_world 0)
              [2; 0; 3] eq_refl ltac:(discriminate) (le_n 1)
              ltac:(repeat constructor; lia) eq_refl)
    as (w1 & ra & buf & Hnew & _ & HDo & _ & Hseq & ->).
  split; [exact HDo|].
  assert (Hprobe : New (Some (honest_server five_bytes "lm" "v1"))
                     (Some (get_request "http://example.org/file")) (fresh_world 0%nat)
                   = ({| net := 1%nat; wire := [probe_request demo_request]; mem := [] |},
                      (Some (demo_reader honest), None))) by reflexivity.
  rewrite Hprobe in Hnew. injection Hnew as _ <-. exact Hseq.
Defined.

(** The claim of C1 fails when the caller cancels.  The server honors
    Range and the context is done when the workers start: every worker
    returns nil at its check, no chunk is read, and [Do] returns the
    buffer as it was allocated, all zero, with a nil error.  The claim
    fails for the empty resource as well: the server answers the probe
    for its first byte with [416], and [Do] returns the error of [New]
    where the claim has an empty buffer. *)
Lemma cancelled_download_returns_zeros :
  honors_range (honest_server five_bytes "lm" "v1") five_bytes "lm" "v1"
  /\ Do any_url (cancelled_after 0) in_order (Some (honest_server five_bytes "lm" "v1"))
       "http://example.org/file" (fresh_world 0%nat)
     = ({| net := 1%nat; wire := [probe_request demo_request];
           mem := repeat Init.Byte.x00 5 |},
        Returns (Some (repeat Init.Byte.x00 5), None))
  /\ repeat Init.Byte.x00 5 <> five_bytes
  /\ snd (Do any_url never_cancelled in_order (Some (honest_server [] "lm" "v1"))
            "http://example.org/file" (fresh_world 0%nat))
     = Returns (None, Some (err_unexpect_status "416 Range Not Satisfiable")).
Proof.
  split; [|split; [|split]].
  - apply honest_server_honors; [discriminate | unfold Int64.max_int; simpl; lia].
  - reflexivity.
  - discriminate.
  - reflexivity.
Qed.

(* ================================================================== *)
(** * Further properties of the package *)

(** ** What [parseContentRange] accepts *)

Lemma Split_join (sep : ascii) (s : string) :
  join sep (GoStd.Split s sep) = s
  /\ Forall (fun piece => string_all (differs sep) piece = true) (GoStd.Split s sep).
Proof.
  induction s as [|c s [IHj IHa]]; cbn [GoStd.Split].
  - split; [reflexivity | repeat constructor].
  - destruct (Ascii.eqb_spec c sep) as [->|Hc].
    + pose proof (Split_nonempty s sep) as Hne.
      destruct (GoStd.Split s sep) as [|h t] eqn:E; [contradiction|].
      split; [|constructor; [reflexivity | exact IHa]].
      change (join sep (EmptyString :: h :: t)) with (String sep (join sep (h :: t))).
      now rewrite IHj.
    + pose proof (Split_nonempty s sep) as Hne.
      destruct (GoStd.Split s sep) as [|h t] eqn:E; [contradiction|].
      pose proof (Forall_inv IHa) as Hh. pose proof (Forall_inv_tail IHa) as Ht.
      cbv beta in Hh. split.
      * destruct t as [|h' t].
        -- cbn [join] in *. now rewrite IHj.
        -- change (join sep (String c h :: h' :: t))
             with (String c (join sep (h :: h' :: t))).
           now rewrite IHj.
      * constructor; [|exact Ht]. cbn [string_all]. rewrite Hh.
        unfold differs. destruct (Ascii.eqb_spec c sep); [contradiction | reflexivity].
Qed.

Lemma Split_two (sep : ascii) (s a b : string) :
  GoStd.Split s sep = [a; b] ->
  s = (a ++ String sep b)%string
  /\ string_all (differs sep) a = true /\ string_all (differs sep) b = true.
Proof.
  intros E. destruct (Split_join sep s) as [Hj Ha]. rewrite E in Hj, Ha.
  pose proof (Forall_inv Ha) as H1.
  pose proof (Forall_inv (Forall_inv_tail Ha)) as H2. cbv beta in H1, H2.
  cbn [join] in Hj. now repeat split.
Qed.

(** A number written without a minus sign is not negative. *)
Lemma ParseInt_unsigned (s : string) (z : Z) :
  string_all (differs "-"%char) s = true -> GoStd.ParseInt s = Some z -> 0 <= z.
Proof.
  unfold GoStd.ParseInt. destruct s as [|c s]; [discriminate|].
  cbn [string_all]. intros Hall. apply andb_true_iff in Hall as [Hc _].
  unfold differs in Hc. apply negb_true_iff in Hc. rewrite Hc.
  destruct (Ascii.eqb c "+"%char).
  - destruct (GoStd.ParseUint s) as [un|] eqn:Hun; [|discriminate].
    cbv zeta. cbn [negb andb]. destruct (un >=? 2 ^ 63); [discriminate|].
    intros [= <-]. unfold GoStd.ParseUint in Hun. destruct s; [discriminate|].
    apply ParseUint_loop_grows in Hun; [lia | unfold Int64.max_uint; lia].
  - destruct (GoStd.ParseUint (String c s)) as [un|] eqn:Hun; [|discriminate].
    cbv zeta. cbn [negb andb]. destruct (un >=? 2 ^ 63); [discriminate|].
    intros [= <-]. unfold GoStd.ParseUint in Hun.
    apply ParseUint_loop_grows in Hun; [lia | unfold Int64.max_uint; lia].
Qed.

(** X1: a header that [parseContentRange] accepts has exactly the shape
    [bytes R/L]: the unit, one space, a range part and a length part with
    one slash between them and no further space or slash.  The length
    part is [*] or an integer; the range part is [*], and then first and
    last are both [-1], or two integers around one minus sign, and then
    neither bound is negative. *)
Theorem parseContentRange_accepts_only (str : string) (f l n : Z) :
  parseContentRange str = (f, l, n, None) ->
  exists r t : string,
    str = ("bytes" ++ String " "%char (r ++ String "/"%char t))%string
    /\ string_all (differs " "%char) r = true /\ string_all (differs " "%char) t = true
    /\ string_all (differs "/"%char) r = true /\ string_all (differs "/"%char) t = true
    /\ length_field t = Some n
    /\ ((r = "*" /\ f = -1 /\ l = -1)
        \/ exists a b : string,
             r = (a ++ String "-"%char b)%string
             /\ GoStd.ParseInt a = Some f /\ GoStd.ParseInt b = Some l
             /\ 0 <= f /\ 0 <= l).
Proof.
  unfold parseContentRange. cbv zeta. intros H.
  destruct (GoStd.Split str " "%char) as [|s0 [|s1 [|? ?]]] eqn:E1; try discriminate H.
  destruct (String.eqb_spec s0 "bytes") as [->|]; cbn [negb] in H; [|discriminate H].
  destruct (GoStd.Split s1 "/"%char) as [|r0 [|r1 [|? ?]]] eqn:E2; try discriminate H.
  apply Split_two in E1 as (-> & _ & Hsp). apply Split_two in E2 as (-> & Hsl0 & Hsl1).
  rewrite string_all_app in Hsp. cbn [string_all] in Hsp.
  apply andb_true_iff in Hsp as [Hsp0 Hsp1]. apply andb_true_iff in Hsp1 as [_ Hsp1].
  assert (Hlen : (if negb (String.eqb r1 "*") then GoStd.ParseInt r1 else Some (-1))
                 = length_field r1)
    by (unfold length_field; now destruct (String.eqb r1 "*")).
  rewrite Hlen in H. destruct (length_field r1) as [len|] eqn:Hfield; [|discriminate H].
  exists r0, r1. do 5 (split; [reflexivity || assumption|]).
  destruct (String.eqb_spec r0 "*") as [->|Hr0]; cbn [negb] in H.
  - destruct ((-1 =? -1) && (-1 =? -1) && (len =? -1)); [discriminate H|].
    injection H as <- <- <-. split; [exact Hfield|]. left. now repeat split.
  - destruct (GoStd.Split r0 "-"%char) as [|a [|b [|? ?]]] eqn:E3; try discriminate H.
    destruct (GoStd.ParseInt a) as [first|] eqn:Ha; [|discriminate H].
    destruct (GoStd.ParseInt b) as [last|] eqn:Hb; [|discriminate H].
    destruct ((first =? -1) && (last =? -1) && (len =? -1)); [discriminate H|].
    injection H as <- <- <-. split; [exact Hfield|]. right.
    apply Split_two in E3 as (-> & Hma & Hmb). exists a, b.
    split; [reflexivity|]. split; [exact Ha|]. split; [exact Hb|].
    split; [exact (ParseInt_unsigned _ Hma Ha) | exact (ParseInt_unsigned _ Hmb Hb)].
Qed.

Lemma parseContentRange_accepts_only_witness :
  exists r t : string,
    "bytes 42-1233/1234" = ("bytes" ++ String " "%char (r ++ String "/"%char t))%string
    /\ string_all (differs " "%char) r = true /\ string_all (differs " "%char) t = true
    /\ string_all (differs "/"%char) r = true /\ string_all (differs "/"%char) t = true
    /\ length_field t = Some 1234
    /\ ((r = "*" /\ 42 = -1 /\ 1233 = -1)
        \/ exists a b : string,
             r = (a ++ String "-"%char b)%string
             /\ GoStd.ParseInt a = Some 42 /\ GoStd.ParseInt b = Some 1233
             /\ 0 <= 42 /\ 0 <= 1233).
Proof. apply (@parseContentRange_accepts_only "bytes 42-1233/1234" 42 1233 1234). reflexivity. Defined.

Lemma itoa_not_star (n : Z) : Int64.in_range n -> String.eqb (GoStd.itoa n) "*" = false.
Proof.
  intros Hn. destruct (String.eqb_spec (GoStd.itoa n) "*") as [E|]; [|reflexivity].
  pose proof (ParseInt_itoa Hn) as HP. rewrite E in HP. discriminate HP.
Qed.

(** X2: the two forms with a star parse back to what was printed.  For
    bounds that are not negative, [bytes F-L/*] gives [(F, L, -1)]; for
    every [int64] length [N] other than [-1], [bytes */N] gives
    [(-1, -1, N)]; and [bytes */-1], which would say nothing, is a parse
    error. *)
Theorem starred_forms_round_trip :
  (forall f l : Z,
      0 <= f <= Int64.max_int -> 0 <= l <= Int64.max_int ->
      parseContentRange (printed_range f l "*") = (f, l, -1, None))
  /\ (forall n : Z,
        Int64.in_range n -> n <> -1 ->
        parseContentRange ("bytes */" ++ GoStd.itoa n) = (-1, -1, n, None))
  /\ parseContentRange ("bytes */" ++ GoStd.itoa (-1)) = (-1, -1, -1, Some errParse).
Proof.
  split; [|split].
  - intros f l Hf Hl. now rewrite parseContentRange_printed by (assumption || reflexivity).
  - intros n Hn Hne. unfold parseContentRange. cbv zeta.
    change ("bytes */" ++ GoStd.itoa n)%string
      with ("bytes" ++ String " "%char ("*" ++ String "/"%char (GoStd.itoa n)))%string.
    rewrite Split_first by reflexivity.
    rewrite Split_none
      by (rewrite string_all_app; cbn [string_all]; rewrite itoa_differs by reflexivity;
          reflexivity).
    change (String.eqb "bytes" "bytes") with true. cbn [negb].
    rewrite Split_first by reflexivity.
    rewrite Split_none by (now apply itoa_differs).
    rewrite itoa_not_star by exact Hn. cbn [negb]. rewrite ParseInt_itoa by exact Hn.
    change (String.eqb "*" "*") with true. cbn [negb].
    destruct (Z.eqb_spec n (-1)); [contradiction|]. now rewrite andb_false_r.
  - vm_compute. reflexivity.
Qed.

Lemma starred_forms_round_trip_witness :
  parseContentRange (printed_range 42 1233 "*") = (42, 1233, -1, None)
  /\ parseContentRange ("bytes */" ++ GoStd.itoa 1234) = (-1, -1, 1234, None).
Proof.
  split.
  - apply (proj1 starred_forms_round_trip); unfold Int64.max_int; lia.
  - apply (proj1 (proj2 starred_forms_round_trip)); [in_range_now | lia].
Defined.

(** ** The metadata of a response and the construction of a reader *)

Lemma parseContentRange_error (str : string) (f l n : Z) (e : error) :
  parseContentRange str = (f, l, n, Some e) ->
  e = errParse /\ f = -1 /\ l = -1 /\ n = -1.
Proof.
  unfold parseContentRange. intros H.
  repeat match type of H with
         | context [match ?x with _ => _ end] => destruct x; try discriminate H
         end;
    now inversion H.
Qed.

Lemma getMeta_error (resp : Response) (m : Meta) (e : error) :
  getMeta resp = (m, Some e) ->
  e = errParse /\ m = Meta_zero
  /\ StatusCode resp = http_StatusPartialContent
  /\ Header_Get (RespHeader resp) HttpHeaderContentRange <> ""
  /\ snd (parseContentRange (Header_Get (RespHeader resp) HttpHeaderContentRange))
     = Some errParse.
Proof.
  unfold getMeta.
  destruct (Z.eqb_spec (StatusCode resp) http_StatusOK); [discriminate|].
  destruct (Z.eqb_spec (StatusCode resp) http_StatusPartialContent) as [Hst|]; [|discriminate].
  destruct (String.eqb_spec (Header_Get (RespHeader resp) HttpHeaderContentRange) "")
    as [|Hcr]; cbn [negb]; [discriminate|].
  destruct (parseContentRange (Header_Get (RespHeader resp) HttpHeaderContentRange))
    as [[[fx lx] nx] [e'|]] eqn:Hp; [|discriminate].
  intros [= <- <-]. apply parseContentRange_error in Hp as (-> & _).
  now repeat split.
Qed.

Lemma getMeta_headers (resp : Response) (m : Meta) :
  getMeta resp = (m, None) ->
  lastModified m = Header_Get (RespHeader resp) "Last-Modified"
  /\ etag m = Header_Get (RespHeader resp) "ETag"
  /\ contentType m = Header_Get (RespHeader resp) HttpHeaderContentType.
Proof.
  unfold getMeta.
  destruct (StatusCode resp =? http_StatusOK); [intros [= <-]; now repeat split|].
  destruct (StatusCode resp =? http_StatusPartialContent);
    [|intros [= <-]; now repeat split].
  destruct (negb (String.eqb (Header_Get (RespHeader resp) HttpHeaderContentRange) ""));
    [|intros [= <-]; now repeat split].
  destruct (parseContentRange (Header_Get (RespHeader resp) HttpHeaderContentRange))
    as [[[fx lx] nx] [e'|]]; [discriminate|].
  intros [= <-]. now repeat split.
Qed.

(** X3: [getMeta] fails only on a [206] response whose Content-Range is
    present and does not parse; the error is then the parse error and the
    metadata the zero value.  On any other response it succeeds: with
    status [200] the size is Content-Length, without a Content-Range
    header or with another status it is [0], and start and end are [-1].
    Whenever it succeeds, Last-Modified, ETag and Content-Type are the
    values of those headers, empty when the header is missing. *)
Theorem getMeta_behaviour (resp : Response) :
  (forall (m : Meta) (e : error),
      getMeta resp = (m, Some e) ->
      e = errParse /\ m = Meta_zero
      /\ StatusCode resp = http_StatusPartialContent
      /\ Header_Get (RespHeader resp) HttpHeaderContentRange <> ""
      /\ snd (parseContentRange (Header_Get (RespHeader resp) HttpHeaderContentRange))
         = Some errParse)
  /\ (StatusCode resp <> http_StatusPartialContent
      \/ Header_Get (RespHeader resp) HttpHeaderContentRange = "" ->
      exists m : Meta,
        getMeta resp = (m, None) /\ start m = -1 /\ end_ m = -1
        /\ size m = (if StatusCode resp =? http_StatusOK then ContentLength resp else 0))
  /\ (forall m : Meta,
        getMeta resp = (m, None) ->
        lastModified m = Header_Get (RespHeader resp) "Last-Modified"
        /\ etag m = Header_Get (RespHeader resp) "ETag"
        /\ contentType m = Header_Get (RespHeader resp) HttpHeaderContentType).
Proof.
  split; [|split].
  - intros m e. apply getMeta_error.
  - intros Hcase. unfold getMeta.
    destruct (Z.eqb_spec (StatusCode resp) http_StatusOK); [eexists; now repeat split|].
    destruct (Z.eqb_spec (StatusCode resp) http_StatusPartialContent) as [Hst|];
      [|eexists; now repeat split].
    destruct Hcase as [Hne | Hcr]; [contradiction|]. rewrite Hcr.
    cbn [String.eqb negb]. eexists; now repeat split.
  - intros m. apply getMeta_headers.
Qed.

Lemma getMeta_behaviour_witness :
  exists m : Meta,
    getMeta {| StatusCode := 200; Status := "200 OK";
               RespHeader := [("ETag", "v1")]; ContentLength := 5;
               Body := {| body_bytes := five_bytes; body_end := io_EOF |} |} = (m, None)
    /\ start m = -1 /\ end_ m = -1 /\ size m = 5.
Proof.
  apply (proj1 (proj2 (getMeta_behaviour
           {| StatusCode := 200; Status := "200 OK";
              RespHeader := [("ETag", "v1")]; ContentLength := 5;
              Body := {| body_bytes := five_bytes; body_end := io_EOF |} |}))).
  left. discriminate.
Defined.

Section Construction.

Variable Srv : Type.
Implicit Types (w : world Srv) (ra : HTTPReaderAt Srv).

(** X4: [New] refuses without sending anything when the client or the
    request is nil or the method is not GET, and leaves the world as it
    was.  Otherwise it sends exactly one request, the probe, and fails
    with the transport's error wrapped, with the status when that is not
    [206] (a [200] from a server that ignored Range included), or with
    the error of [getMeta]; the buffer is never touched. *)
Theorem New_failures (clt : option (Requester Srv)) (rq : option Request) w w1
    (res : option (HTTPReaderAt Srv)) (e : error) :
  New clt rq w = (w1, (res, Some e)) ->
  res = None /\ mem w1 = mem w
  /\ ((w1 = w
       /\ ((e = err_invalid_args /\ (clt = None \/ rq = None))
           \/ (e = err_invalid_method
               /\ exists r, rq = Some r /\ Method r <> http_MethodGet)))
      \/ exists (c : Requester Srv) (r : Request),
           clt = Some c /\ rq = Some r /\ Method r = http_MethodGet
           /\ wire w1 = (wire w ++ [probe_request r])%list
           /\ ((exists cause, c (net w) (probe_request r) = (net w1, inr cause)
                              /\ e = err_http_request cause)
               \/ exists resp, c (net w) (probe_request r) = (net w1, inl resp)
                    /\ ((StatusCode resp <> http_StatusPartialContent
                         /\ e = err_unexpect_status (Status resp))
                        \/ (StatusCode resp = http_StatusPartialContent
                            /\ e = errParse /\ snd (getMeta resp) = Some errParse)))).
Proof.
  unfold New. destruct clt as [c|]; [|intros [= <- <- <-]; repeat split; left; split; auto].
  destruct rq as [r|]; [|intros [= <- <- <-]; repeat split; left; split; auto].
  destruct (String.eqb_spec (Method r) http_MethodGet) as [Hget|Hget]; cbn [negb].
  2:{ intros [= <- <- <-]. repeat split. left. split; [reflexivity|]. right. eauto. }
  unfold init, cloneRequest. cbn [client req]. fold (probe_request r).
  destruct (send c (probe_request r) w) as [w0 [resp|cause]] eqn:Hsend.
  - apply send_frame in Hsend as (Hmem & Hwire & Hdo).
    destruct (Z.eqb_spec (StatusCode resp) http_StatusPartialContent) as [Hst|Hst];
      cbn [negb].
    + destruct (getMeta resp) as [m [e'|]] eqn:Hm; [|discriminate].
      intros [= <- <- <-]. split; [reflexivity|]. split; [exact Hmem|]. right.
      exists c, r. do 4 (split; [reflexivity || assumption|]). right. exists resp.
      split; [exact Hdo|]. right.
      destruct (getMeta_error _ Hm) as (-> & _). now rewrite Hm.
    + intros [= <- <- <-]. split; [reflexivity|]. split; [exact Hmem|]. right.
      exists c, r. do 4 (split; [reflexivity || assumption|]). right. exists resp.
      split; [exact Hdo|]. now left.
  - apply send_frame in Hsend as (Hmem & Hwire & Hdo).
    intros [= <- <- <-]. split; [reflexivity|]. split; [exact Hmem|]. right.
    exists c, r. do 4 (split; [reflexivity || assumption|]). left. eauto.
Qed.

(** X5: a reader that [New] returns comes with no error and belongs to
    one probe answered [206]: it keeps the client and the prototype
    request as they were given, the prototype's method is GET, the probe
    is the only request sent, and [Size], [LastModified] and
    [ContentType] are what [getMeta] read from the probe's response. *)
Theorem New_reader (clt : option (Requester Srv)) (rq : option Request) w w1 ra
    (err : option error) :
  New clt rq w = (w1, (Some ra, err)) ->
  err = None
  /\ exists (r : Request) (resp : Response),
       clt = Some (client ra) /\ rq = Some r /\ req ra = r
       /\ Method r = http_MethodGet
       /\ wire w1 = (wire w ++ [probe_request r])%list /\ mem w1 = mem w
       /\ client ra (net w) (probe_request r) = (net w1, inl resp)
       /\ StatusCode resp = http_StatusPartialContent
       /\ getMeta resp = (meta ra, None)
       /\ Size ra = size (meta ra)
       /\ LastModified ra = Header_Get (RespHeader resp) "Last-Modified"
       /\ ContentType ra = Header_Get (RespHeader resp) HttpHeaderContentType.
Proof.
  unfold New. destruct clt as [c|]; [|discriminate]. destruct rq as [r|]; [|discriminate].
  destruct (String.eqb_spec (Method r) http_MethodGet) as [Hget|Hget]; cbn [negb];
    [|discriminate].
  unfold init, cloneRequest. cbn [client req]. fold (probe_request r).
  destruct (send c (probe_request r) w) as [w0 [resp|cause]] eqn:Hsend; [|discriminate].
  apply send_frame in Hsend as (Hmem & Hwire & Hdo).
  destruct (Z.eqb_spec (StatusCode resp) http_StatusPartialContent) as [Hst|Hst];
    cbn [negb]; [|discriminate].
  destruct (getMeta resp) as [m [e'|]] eqn:Hm; [discriminate|].
  intros [= <- <- <-]. split; [reflexivity|]. exists r, resp. cbn [client req meta].
  destruct (getMeta_headers _ Hm) as (Hlm & _ & Hct).
  unfold Size, LastModified, ContentType. cbn [meta].
  repeat split; try reflexivity; try assumption.
Qed.

End Construction.

Lemma New_failures_witness :
  New (Some (honest_server five_bytes "lm" "v1"))
    (Some {| Method := "HEAD"; URL := "http://example.org/file"; ReqHeader := [] |})
    (fresh_world 0%nat)
  = (fresh_world 0%nat, (None, Some err_invalid_method)).
Proof.
  destruct (New (Some (honest_server five_bytes "lm" "v1"))
              (Some {| Method := "HEAD"; URL := "http://example.org/file"; ReqHeader := [] |})
              (fresh_world 0%nat)) as [w1 [res [e|]]] eqn:Hnew; [|discriminate Hnew].
  destruct (New_failures _ _ _ Hnew) as (-> & _ & [(-> & [(-> & [H|H]) | (-> & _)]) | Hsent]).
  - discriminate H.
  - discriminate H.
  - reflexivity.
  - destruct Hsent as (c & r & _ & [= <-] & Hget & _). discriminate Hget.
Defined.

Lemma New_reader_witness :
  exists (r : Request) (resp : Response),
    Some (honest_server five_bytes "lm" "v1") = Some (client (demo_reader honest))
    /\ Some demo_request = Some r /\ req (demo_reader honest) = r
    /\ Method r = http_MethodGet
    /\ [probe_request demo_request] = ([] ++ [probe_request r])%list
    /\ @nil Init.Byte.byte = []
    /\ client (demo_reader honest) 0%nat (probe_request r) = (1%nat, inl resp)
    /\ StatusCode resp = http_StatusPartialContent
    /\ getMeta resp = (meta (demo_reader honest), None)
    /\ Size (demo_reader honest) = size (meta (demo_reader honest))
    /\ LastModified (demo_reader honest) = Header_Get (RespHeader resp) "Last-Modified"
    /\ ContentType (demo_reader honest) = Header_Get (RespHeader resp) HttpHeaderContentType.
Proof.
  apply (@New_reader nat (Some (honest_server five_bytes "lm" "v1")) (Some demo_request)
           (fresh_world 0%nat)
           {| net := 1%nat; wire := [probe_request demo_request]; mem := [] |}
           (demo_reader honest) None eq_refl).
Defined.

(** ** The requests and the results of [ReadAt] *)

Lemma cloneHeader_same (h : Header) : cloneHeader h = h.
Proof.
  unfold cloneHeader. induction h as [|[k v] h IH]; cbn [map fst snd]; [reflexivity|].
  now rewrite IH.
Qed.

Lemma Header_Get_Set_other (h : Header) (key value other : string) :
  other <> key -> Header_Get (Header_Set h key value) other = Header_Get h other.
Proof.
  intros Hne. induction h as [|[k v] h IH]; cbn [Header_Set Header_Get].
  - destruct (String.eqb_spec key other); [congruence | reflexivity].
  - destruct (String.eqb_spec k key) as [->|Hk]; cbn [Header_Get].
    + destruct (String.eqb_spec key other); [congruence | reflexivity].
    + destruct (String.eqb_spec k other); [reflexivity | exact IH].
Qed.


Section ReadAtResults.

Variable Srv : Type.
Implicit Types (ra : HTTPReaderAt Srv) (w : world Srv) (p : slice).

Lemma exchange_early_error ra p (f l : Z) (re : option error) w w1 (why : early_exit)
    (n : Z) (e : option error) :
  ReadAt_exchange ra p f l re w = (w1, Early why n e) -> n = 0 /\ e <> None.
Proof.
  unfold ReadAt_exchange. cbv zeta.
  destruct (send (client ra) _ w) as [w' r]. intros Heq.
  destruct r as [resp|cause]; [|inversion Heq; split; [reflexivity | discriminate]].
  destruct (negb (StatusCode resp =? http_StatusPartialContent));
    [inversion Heq; split; [reflexivity | discriminate]|].
  destruct (getMeta resp) as [m [e'|]];
    [inversion Heq; split; [reflexivity | discriminate]|].
  repeat match type of Heq with
         | (if ?c then _ else _) = _ => destruct c
         end; inversion Heq; split; (reflexivity || discriminate).
Qed.

(** The checks before the exchange, with what they decide: nothing to
    read, nothing left to read, the range as asked, or the range cut at
    the last byte of the resource. *)
Lemma negotiate_plan ra p (off : Z) w :
  slice_ok p -> Int64.in_range off ->
  (len p = 0 /\ ReadAt_negotiate ra p off w = (w, Early exit_empty_buffer 0 None))
  \/ (len p <> 0 /\ size (meta ra) <> -1
      /\ ReadAt_negotiate ra p off w = (w, Early exit_empty_range 0 (Some io_EOF)))
  \/ (len p <> 0
      /\ ReadAt_negotiate ra p off w
         = ReadAt_exchange ra p off (Int64.sub (Int64.add off (len p)) 1) None w
      /\ (size (meta ra) = -1
          \/ Int64.sub (Int64.add off (len p)) 1 <= Int64.sub (size (meta ra)) 1))
  \/ (exists p' : slice,
        len p <> 0 /\ size (meta ra) <> -1
        /\ ReadAt_negotiate ra p off w
           = ReadAt_exchange ra p' off (Int64.sub (size (meta ra)) 1) (Some io_EOF) w
        /\ base p' = base p /\ 0 < len p' < len p).
Proof.
  intros (Hb & Hl & Hmax) Hoff. unfold ReadAt_negotiate.
  destruct (Z.eqb_spec (len p) 0) as [|Hne]; [left; now split|]. right. cbv zeta.
  set (reqLast := Int64.sub (Int64.add off (len p)) 1).
  destruct (Z.eqb_spec (size (meta ra)) (-1)) as [Hunknown|Hknown]; cbn [negb andb].
  { right. left. split; [exact Hne|]. split; [reflexivity | now left]. }
  destruct (Z.gtb_spec reqLast (Int64.sub (size (meta ra)) 1)) as [Hgt|Hle]; cbn [andb].
  - destruct (Z.ltb_spec (Int64.sub (size (meta ra)) 1) off); [left; now repeat split|].
    right. right.
    destruct (@clamp_in_bounds off (len p) (size (meta ra))) as (Hk & _ & _);
      [assumption | lia | fold reqLast; lia | lia |].
    rewrite slice_expr_prefix by lia.
    eexists. split; [exact Hne|]. split; [exact Hknown|]. split; [reflexivity|].
    cbn [base len]. split; [reflexivity | lia].
  - right. left. split; [exact Hne|]. split; [reflexivity|]. right. lia.
Qed.

Lemma ReadAt_body_result p (resp : Response) (re : option error) w1 :
  0 <= len p ->
  exists (n : Z) (err : option error),
    ReadAt_body p resp re w1
    = ({| net := net w1; wire := wire w1;
          mem := write_at (mem w1) (base p) (fst (io_ReadFull (Body resp) (len p))) |},
       Returns (n, err))
    /\ ((n = len p /\ err = re) \/ (0 <= n < len p /\ err <> None)).
Proof.
  intros Hlen. unfold ReadAt_body.
  destruct (Z_le_gt_dec (len p) (Z.of_nat (List.length (body_bytes (Body resp))))) as [Hle|Hgt].
  - rewrite ReadFull_enough by lia. cbv zeta. cbn [fst].
    eexists _, _. split; [reflexivity|]. left.
    rewrite length_firstn, Nat.min_l by lia. split; [lia|]. now destruct re.
  - rewrite ReadFull_short by lia. cbv zeta. cbn [fst].
    eexists _, _. split; [reflexivity|]. right. split; [lia|].
    destruct ((0 <? List.length (body_bytes (Body resp)))%nat && is_EOF (body_end (Body resp)));
      cbn [is_ErrUnexpectedEOF]; [discriminate|].
    destruct (is_ErrUnexpectedEOF (body_end (Body resp))); discriminate.
Qed.

(** X6: one call of [ReadAt] sends at most one request, and none for an
    empty buffer.  The request has the method and the URL of the
    prototype and its headers, except that Range is [bytes=off-last];
    with a known size, [last] never lies beyond the last byte of the
    resource. *)
Theorem ReadAt_request ra p (off : Z) w :
  slice_ok p -> Int64.in_range off ->
  wire (fst (ReadAt ra p off w)) = wire w
  \/ exists last : Z,
       wire (fst (ReadAt ra p off w)) = (wire w ++ [range_request ra off last])%list
       /\ len p <> 0
       /\ Method (range_request ra off last) = Method (req ra)
       /\ URL (range_request ra off last) = URL (req ra)
       /\ Header_Get (ReqHeader (range_request ra off last)) "Range"
          = Sprintf_HttpHeaderRangeFormat off last
       /\ (forall key : string,
             key <> "Range" ->
             Header_Get (ReqHeader (range_request ra off last)) key
             = Header_Get (ReqHeader (req ra)) key)
       /\ (size (meta ra) <> -1 -> last <= Int64.sub (size (meta ra)) 1).
Proof.
  intros Hok Hoff.
  assert (Hsent : forall p' l re,
             wire (fst (match ReadAt_exchange ra p' off l re w with
                        | (w1, Early _ n err) => (w1, Returns (n, err))
                        | (w1, Slice_panic) => (w1, Panics "slice bounds out of range")
                        | (w1, Proceed p0 _ resp returnErr) => ReadAt_body p0 resp returnErr w1
                        end))
             = (wire w ++ [range_request ra off l])%list).
  { intros p' l re. destruct (ReadAt_exchange ra p' off l re w) as [w1 res] eqn:Hex.
    apply exchange_frame in Hex as (_ & Hwire & _ & _).
    destruct res as [why n err| |p0 l0 resp re0]; try exact Hwire.
    destruct (ReadAt_body_shape p0 resp re0 w1) as (err & ->). exact Hwire. }
  assert (Hshape : forall last,
             Method (range_request ra off last) = Method (req ra)
             /\ URL (range_request ra off last) = URL (req ra)
             /\ Header_Get (ReqHeader (range_request ra off last)) "Range"
                = Sprintf_HttpHeaderRangeFormat off last
             /\ (forall key : string,
                   key <> "Range" ->
                   Header_Get (ReqHeader (range_request ra off last)) key
                   = Header_Get (ReqHeader (req ra)) key)).
  { intros last. unfold range_request, set_Range, cloneRequest. cbn [Method URL ReqHeader].
    rewrite cloneHeader_same. split; [reflexivity|]. split; [reflexivity|].
    split; [apply Header_Get_Set | intros key Hkey; now apply Header_Get_Set_other]. }
  unfold ReadAt.
  destruct (negotiate_plan ra w Hok Hoff)
    as [(_ & ->) | [(_ & _ & ->) | [(Hne & -> & Hlast) | (p' & Hne & Hknown & -> & _)]]].
  - now left.
  - now left.
  - right. exists (Int64.sub (Int64.add off (len p)) 1). rewrite Hsent.
    destruct (Hshape (Int64.sub (Int64.add off (len p)) 1)) as (H1 & H2 & H3 & H4).
    repeat split; try assumption. intros Hknown. destruct Hlast; [contradiction | assumption].
  - right. exists (Int64.sub (size (meta ra)) 1). rewrite Hsent.
    destruct (Hshape (Int64.sub (size (meta ra)) 1)) as (H1 & H2 & H3 & H4).
    repeat split; try assumption. intros _. lia.
Qed.

(** X7: the contract of [io.ReaderAt] that the comment on [ReadAt]
    promises.  The count returned lies between 0 and the length of the
    buffer, and the error is nil exactly when the buffer was filled: a
    short count always comes with an error. *)
Theorem ReadAt_contract ra p (off : Z) w w' (n : Z) (err : option error) :
  slice_ok p -> Int64.in_range off ->
  ReadAt ra p off w = (w', Returns (n, err)) ->
  0 <= n <= len p /\ (n < len p -> err <> None) /\ (n = len p -> err = None).
Proof.
  intros Hok Hoff. pose proof Hok as (_ & Hlen & _). unfold ReadAt.
  assert (Hex : forall p' l re,
             0 < len p' <= len p ->
             (re = None -> len p' = len p) -> (re <> None -> len p' < len p) ->
             match ReadAt_exchange ra p' off l re w with
             | (w1, Early _ n err) => (w1, Returns (n, err))
             | (w1, Slice_panic) => (w1, Panics "slice bounds out of range")
             | (w1, Proceed p0 _ resp returnErr) => ReadAt_body p0 resp returnErr w1
             end = (w', Returns (n, err)) ->
             0 <= n <= len p /\ (n < len p -> err <> None) /\ (n = len p -> err = None)).
  { intros p' l re Hp' Hnone Hsome.
    destruct (ReadAt_exchange ra p' off l re w) as [w1 res] eqn:Hx.
    destruct res as [why n0 e0| |p0 l0 resp re0].
    - apply exchange_early_error in Hx as (-> & He0). intros [= <- <- <-].
      split; [lia|]. split; [intros _; exact He0 | lia].
    - discriminate.
    - apply exchange_proceed in Hx as (-> & -> & -> & _).
      destruct (ReadAt_body_result p' resp re w1 ltac:(lia)) as (n1 & e1 & -> & Hres).
      intros [= <- <- <-]. destruct Hres as [(-> & ->) | (Hn1 & He1)].
      + split; [lia|]. split.
        * intros Hlt. destruct re; [discriminate | specialize (Hnone eq_refl); lia].
        * intros Heq. destruct re as [e|]; [|reflexivity].
          assert (len p' < len p) by (apply Hsome; discriminate). lia.
      + split; [lia|]. split; [intros _; exact He1 | lia]. }
  destruct (negotiate_plan ra w Hok Hoff)
    as [(Hz & ->) | [(Hne & _ & ->) | [(Hne & -> & _) | (p' & Hne & _ & -> & _ & Hp')]]].
  - intros [= <- <- <-]. split; [lia|]. split; [lia | reflexivity].
  - intros [= <- <- <-]. split; [lia|]. split; [discriminate | lia].
  - apply Hex; [lia | reflexivity | congruence].
  - apply Hex; [lia | discriminate | intros _; lia].
Qed.

End ReadAtResults.

Lemma ReadAt_request_witness :
  wire (fst (ReadAt (demo_reader honest) (whole 4) 3 (demo_world 4)))
  = [range_request (demo_reader honest) 3 4].
Proof.
  destruct (@ReadAt_request nat (demo_reader honest) (whole 4) 3 (demo_world 4))
    as [Hnone | (last & Hwire & _)].
  - unfold slice_ok, Int64.max_int; simpl; lia.
  - in_range_now.
  - reflexivity.
  - reflexivity.
Defined.

Lemma ReadAt_contract_witness :
  0 <= 2 <= len (whole 4) /\ (2 < len (whole 4) -> Some io_EOF <> None)
  /\ (2 = len (whole 4) -> Some io_EOF = @None error).
Proof.
  apply (@ReadAt_contract nat (demo_reader honest) (whole 4) 3 (demo_world 4)
           {| net := 2%nat; wire := [range_request (demo_reader honest) 3 4];
              mem := [Init.Byte.x04; Init.Byte.x05; Init.Byte.x00; Init.Byte.x00] |}
           2 (Some io_EOF)).
  - unfold slice_ok, Int64.max_int; simpl; lia.
  - in_range_now.
  - reflexivity.
Defined.

(** ** [ReadAt] as a reader of the resource *)

Section ReaderAt.

Variable Srv : Type.
Variable clt : Requester Srv.
Variable data : list Init.Byte.byte.
Variables lm et : string.
Hypothesis Hhonors : honors_range clt data lm et.
Hypothesis Hsize : Z.of_nat (List.length data) <= Int64.max_int.

Local Abbreviation T := (Z.of_nat (List.length data)).
Local Abbreviation reads_resource := (reads_resource clt data lm et).



End ReaderAt.


(** ** More about the chunk plan *)

Lemma total_app (l1 l2 : list Z) : total (l1 ++ l2) = total l1 + total l2.
Proof.
  unfold total. induction l1 as [|a l1 IH]; cbn [app fold_right]; [reflexivity|].
  rewrite IH. lia.
Qed.

Lemma total_constant (A : Type) (c : Z) (l : list A) :
  total (map (fun _ => c) l) = Z.of_nat (List.length l) * c.
Proof.
  unfold total. induction l as [|a l IH]; cbn [map fold_right List.length]; [reflexivity|].
  rewrite IH. lia.
Qed.

(** X9: for a size [T] that is not negative, both planners make
    [ceil (T / 65536)] tasks, none for an empty resource, and the sizes
    of the tasks add up to [T]: the count of bytes the file writer waits
    for is the count the tasks deliver. *)
Theorem planner_sizes (T : Z) :
  0 <= T <= Int64.max_int ->
  exists (fl : list fileTaskType) (ml : list memoryTaskType),
    makeFileTask T = Returns fl /\ makeMemoryTask T (whole T) = Returns ml
    /\ Z.of_nat (List.length fl) = chunk_count T
    /\ List.length ml = List.length fl
    /\ total (map FileTask.Size fl) = T
    /\ total (map (fun t => len (Content t)) ml) = T
    /\ (T = 0 -> fl = [] /\ ml = []).
Proof.
  intros HT. destruct (chunks_fit (proj1 HT)) as (Hq & Hsplit & Hr).
  exists (file_plan T), (memory_plan T).
  split; [now apply makeFileTask_plan|]. split; [now apply makeMemoryTask_plan|].
  assert (Hlen : Z.of_nat (List.length (file_plan T)) = chunk_count T).
  { rewrite file_plan_length by lia. unfold chunk_count.
    change chunkSize with 65536 in *.
    destruct (Z.eqb_spec (T mod 65536) 0); cbv iota;
      Z.div_mod_to_equations; lia. }
  assert (Hsum : total (map FileTask.Size (file_plan T)) = T).
  { unfold file_plan. rewrite map_app, total_app, map_map. cbn [FileTask.Size].
    rewrite total_constant, length_seq, Z2Nat.id by lia.
    destruct (Z.eqb_spec (T mod chunkSize) 0); cbn [map total fold_right FileTask.Size]; lia. }
  split; [exact Hlen|]. split; [unfold memory_plan; apply length_map|].
  split; [exact Hsum|]. split.
  - unfold memory_plan. rewrite map_map. cbn [Content len]. exact Hsum.
  - intros ->. split; reflexivity.
Qed.

Lemma planner_sizes_witness :
  exists (fl : list fileTaskType) (ml : list memoryTaskType),
    makeFileTask 200000 = Returns fl /\ makeMemoryTask 200000 (whole 200000) = Returns ml
    /\ Z.of_nat (List.length fl) = chunk_count 200000
    /\ List.length ml = List.length fl
    /\ total (map FileTask.Size fl) = 200000
    /\ total (map (fun t => len (Content t)) ml) = 200000
    /\ (200000 = 0 -> fl = [] /\ ml = []).
Proof. apply (@planner_sizes 200000). unfold Int64.max_int. lia. Defined.

(** X10: a negative size makes no error in the planners.  Above
    [-65536] the division truncates to zero tasks and both return an
    empty plan; from [-65536] down the task count is negative and [make]
    panics. *)
Theorem planner_negative_size (T : Z) (buf : slice) :
  Int64.in_range T -> T < 0 ->
  (- chunkSize < T ->
   makeFileTask T = Returns [] /\ makeMemoryTask T buf = Returns [])
  /\ (T <= - chunkSize ->
      makeFileTask T = Panics "makeslice: len out of range"
      /\ makeMemoryTask T buf = Panics "makeslice: len out of range").
Proof.
  intros Hrange Hneg. unfold makeFileTask, makeMemoryTask, Int64.div. split.
  - intros Hsmall.
    assert (Hq : Z.quot T chunkSize = 0) by (apply Z.quot_small_iff; chunk_lia).
    rewrite Hq. change (Int64.wrap 0) with 0. cbn [Z.ltb Z.compare Z.to_nat].
    cbn [fill_fileTasks fill_memoryTasks].
    destruct (Z.ltb_spec 0 T); [lia|]. split; reflexivity.
  - intros Hbig.
    assert (Hq : Z.quot T chunkSize < 0).
    { rewrite <- (Z.opp_involutive T), Z.quot_opp_l by chunk_lia.
      assert (0 < Z.quot (- T) chunkSize); [|lia].
      rewrite Z.quot_div_nonneg by chunk_lia.
      apply Z.div_str_pos. chunk_lia. }
    assert (Hlow : - 2 ^ 63 <= Z.quot T chunkSize).
    { rewrite <- (Z.opp_involutive T), Z.quot_opp_l by chunk_lia.
      rewrite Z.quot_div_nonneg by chunk_lia.
      assert (- T / chunkSize <= - T) by (apply Z.div_le_upper_bound; chunk_lia).
      chunk_lia. }
    rewrite wrap_in_range by (unfold Int64.in_range, Int64.min_int, Int64.max_int; lia).
    destruct (Z.ltb_spec (Z.quot T chunkSize) 0); [|lia]. split; reflexivity.
Qed.

Lemma planner_negative_size_witness :
  (makeFileTask (-1) = Returns [] /\ makeMemoryTask (-1) (whole 0) = Returns [])
  /\ (makeFileTask (-65536) = Panics "makeslice: len out of range"
      /\ makeMemoryTask (-65536) (whole 0) = Panics "makeslice: len out of range").
Proof.
  split.
  - apply (@planner_negative_size (-1) (whole 0)); [in_range_now | lia | reflexivity].
  - apply (@planner_negative_size (-65536) (whole 0)); [in_range_now | lia | ].
    change chunkSize with 65536. lia.
Defined.

Lemma view_is_chunk (arr : list Init.Byte.byte) (o s c : Z) :
  view arr {| base := o; len := s; cap := c |} = chunk_of arr o s.
Proof. reflexivity. Qed.

Lemma full_chunks_tile (arr : list Init.Byte.byte) (n : nat) : forall off : Z,
  0 <= off ->
  List.concat (map (fun i : nat => chunk_of arr (off + Z.of_nat i * chunkSize) chunkSize) (seq 0 n))
  = chunk_of arr off (Z.of_nat n * chunkSize).
Proof.
  pose proof chunkSize_pos as HC.
  induction n as [|n IH]; intros off Hoff.
  - reflexivity.
  - cbn [seq map List.concat]. rewrite <- seq_shift, map_map.
    rewrite (map_ext _ (fun i : nat => chunk_of arr (off + chunkSize + Z.of_nat i * chunkSize)
                                         chunkSize))
      by (intros i; f_equal; lia).
    rewrite IH by lia. rewrite Z.mul_0_l, Z.add_0_r.
    rewrite chunk_of_app by lia. f_equal. lia.
Qed.

(** X11: the windows [makeMemoryTask] cuts out of the destination buffer
    follow one another from the first byte to the last: what they show,
    joined in the order of the task list, is the buffer itself.  Filling
    every window fills the buffer, with nothing left to merge. *)
Theorem windows_tile_the_buffer (arr : list Init.Byte.byte) :
  Z.of_nat (List.length arr) <= Int64.max_int ->
  exists ml : list memoryTaskType,
    makeMemoryTask (Z.of_nat (List.length arr)) (whole (Z.of_nat (List.length arr)))
    = Returns ml
    /\ List.concat (map (fun t => view arr (Content t)) ml) = arr.
Proof.
  intros Hmax. set (T := Z.of_nat (List.length arr)) in *.
  assert (HT : 0 <= T <= Int64.max_int) by (unfold T; lia).
  destruct (chunks_fit (proj1 HT)) as (Hq & Hsplit & Hr).
  exists (memory_plan T). split; [now apply makeMemoryTask_plan|].
  unfold memory_plan, file_plan. rewrite map_map, map_app, concat_app, map_map.
  cbn [Content FileTask.Offset FileTask.Size].
  rewrite (map_ext _ (fun i : nat => chunk_of arr (0 + Z.of_nat i * chunkSize) chunkSize))
    by (intros i; apply view_is_chunk).
  rewrite full_chunks_tile by lia. rewrite Z2Nat.id by lia.
  assert (Hall : chunk_of arr 0 T = arr) by (unfold T; apply chunk_of_all).
  destruct (Z.eqb_spec (T mod chunkSize) 0) as [Hzero|Hrem].
  - cbn [map List.concat]. rewrite app_nil_r.
    replace (T / chunkSize * chunkSize) with T by lia. exact Hall.
  - cbn [map List.concat]. rewrite app_nil_r, view_is_chunk.
    assert (Hfull : 0 <= T / chunkSize * chunkSize) by (pose proof chunkSize_pos; nia).
    transitivity (chunk_of arr 0 (T / chunkSize * chunkSize + T mod chunkSize));
      [|rewrite <- Hsplit; exact Hall].
    rewrite <- chunk_of_app by lia. do 2 f_equal; lia.
Qed.

Lemma windows_tile_the_buffer_witness :
  exists ml : list memoryTaskType,
    makeMemoryTask 5 (whole 5) = Returns ml
    /\ List.concat (map (fun t => view five_bytes (Content t)) ml) = five_bytes.
Proof.
  apply (@windows_tile_the_buffer five_bytes). unfold Int64.max_int. simpl. lia.
Defined.

(** ** What a download did *)

Section DownloadResults.

Variable Srv : Type.
Variable valid_url : string -> bool.
Implicit Types (w : world Srv) (pre ra : HTTPReaderAt Srv) (sch : schedule) (ctx : Context).

Lemma New_wire (clt : option (Requester Srv)) (rq : Request) w w1 ra :
  New clt (Some rq) w = (w1, (Some ra, None)) ->
  wire w1 = (wire w ++ [probe_request rq])%list /\ mem w1 = mem w.
Proof.
  unfold New. destruct clt as [c|]; [|discriminate].
  destruct (negb (String.eqb (Method rq) http_MethodGet)); [discriminate|].
  unfold init. cbn [client req meta].
  destruct (send c _ w) as [w0 [resp|e]] eqn:Hsend; [|discriminate].
  apply send_frame in Hsend as (Hmem & Hwire & _).
  destruct (negb (StatusCode resp =? http_StatusPartialContent)); [discriminate|].
  destruct (getMeta resp) as [m [e|]]; [discriminate|].
  intros [= <- <-]. split; [exact Hwire | exact Hmem].
Qed.

(** [New] returns a reader or an error, never both and never neither. *)
Lemma New_result (clt : option (Requester Srv)) (rq : option Request) w w1
    (r : option (HTTPReaderAt Srv)) (e : option error) :
  New clt rq w = (w1, (r, e)) ->
  (r = None /\ e <> None) \/ (r <> None /\ e = None).
Proof.
  unfold New. destruct clt as [c|]; [|intros [= <- <- <-]; left; split; congruence].
  destruct rq as [rq|]; [|intros [= <- <- <-]; left; split; congruence].
  destruct (negb (String.eqb (Method rq) http_MethodGet));
    [intros [= <- <- <-]; left; split; congruence|].
  destruct (init _ w) as [[w0 ra'] [e'|]]; intros [= <- <- <-];
    [left | right]; split; congruence.
Qed.

(** A chunk read that reports no error sent one request and left the
    array at its length. *)
Lemma readChunk_filled pre (t : memoryTaskType) w w' :
  slice_ok (Content t) -> Int64.in_range (Offset t) -> 0 < len (Content t) ->
  base (Content t) + len (Content t) <= Z.of_nat (List.length (mem w)) ->
  readChunk pre t w = (w', Returns None) ->
  List.length (wire w') = S (List.length (wire w))
  /\ List.length (mem w') = List.length (mem w).
Proof.
  intros Hok Hoff Hpos Hin. unfold readChunk.
  destruct (ReadAt_shape (Clone pre) w Hok Hoff)
    as [(w1 & why & err & Hneg & HR & Hmem)
       | (w1 & p' & l & resp & re & data & err & Hneg & Hmem & Hbase & Hlen & Hdata & HR)];
    rewrite HR.
  - destruct err as [e|]; [discriminate|].
    destruct (Z.eqb_spec 0 (len (Content t))); [lia|]. cbn [negb]. discriminate.
  - destruct err as [e|]; [discriminate|].
    destruct (Z.eqb_spec (Z.of_nat (List.length data)) (len (Content t)));
      cbn [negb]; [|discriminate].
    intros [= <-]. cbn [wire mem].
    destruct (negotiate_cases (Clone pre) w Hok Hoff)
      as [[_ E] | [E | (p'' & l'' & re'' & E & _)]]; rewrite E in Hneg; try discriminate.
    apply exchange_frame in Hneg as (_ & Hwire & _).
    destruct Hok as (Hb & _). split.
    + rewrite Hwire, length_app. cbn [List.length]. lia.
    + apply length_write_at; lia.
Qed.

(** A run of the worker pool that ends without an error has read tasks
    of its queue, each once and with one request, and none of the reads
    failed; the tasks it left are there because the context was done. *)
Lemma workers_success pre (T : Z) (fuel : nat) :
  forall ctx (picks : list nat) (late : nat) (queue : list memoryTaskType) w w'
         (log log' : chunk_log),
    T <= Int64.max_int ->
    (forall t, In t queue -> task_ok T t) ->
    Z.of_nat (List.length (mem w)) = T ->
    (List.length queue <= fuel)%nat ->
    workers fuel ctx pre picks late queue None w log = (w', Returns None, log') ->
    exists (ext : chunk_log) (rest : list memoryTaskType),
      log' = (log ++ ext)%list
      /\ Permutation (map fst ext ++ rest) queue
      /\ Forall (fun x : memoryTaskType * option error => snd x = None) ext
      /\ List.length (wire w') = (List.length (wire w) + List.length ext)%nat
      /\ List.length (mem w') = List.length (mem w)
      /\ (outlives ctx (List.length queue) -> rest = []).
Proof.
  induction fuel as [|fuel IH];
    intros ctx picks late queue w w' log log' HT Hq Hmem Hfuel Hrun.
  - destruct queue; [|simpl in Hfuel; lia]. cbn [workers] in Hrun. injection Hrun as <- <-.
    exists [], []. rewrite app_nil_r. cbn [List.length map app]. repeat split; auto; lia.
  - destruct queue as [|t0 queue].
    { cbn [workers] in Hrun. injection Hrun as <- <-.
      exists [], []. rewrite app_nil_r. cbn [List.length map app]. repeat split; auto; lia. }
    cbn [workers] in Hrun.
    destruct (@pick_in_queue (hd 0%nat picks) (t0 :: queue) ltac:(discriminate)) as (Hk & Hin).
    set (k := (hd 0%nat picks mod Nat.min concurrentCount (List.length (t0 :: queue)))%nat) in *.
    set (task := nth k (t0 :: queue) no_task) in *.
    destruct (Hq _ Hin) as (Hbase & Hl & Hoff & Hend).
    assert (Hstop : (w, @Returns (option error) None, log) = (w', Returns None, log') ->
                    ctx_done ctx = true ->
                    exists (ext : chunk_log) (rest : list memoryTaskType),
                      log' = (log ++ ext)%list
                      /\ Permutation (map fst ext ++ rest) (t0 :: queue)
                      /\ Forall (fun x : memoryTaskType * option error => snd x = None) ext
                      /\ List.length (wire w') = (List.length (wire w) + List.length ext)%nat
                      /\ List.length (mem w') = List.length (mem w)
                      /\ (outlives ctx (List.length (t0 :: queue)) -> rest = [])).
    { intros [= <- <-] Hdone. exists [], (t0 :: queue). rewrite app_nil_r.
      cbn [List.length map app]. repeat split; auto; try lia.
      intros Hlive. apply outlives_not_done in Hlive as (Hlive & _). congruence. }
    assert (Hgo : forall late1 w1,
               readChunk pre task w = (w1, Returns None) ->
               workers fuel (ctx_tick ctx) pre (tl picks) late1 (remove_nth k (t0 :: queue))
                 None w1 (log ++ [(task, None)])%list = (w', Returns None, log') ->
               exists (ext : chunk_log) (rest : list memoryTaskType),
                 log' = (log ++ ext)%list
                 /\ Permutation (map fst ext ++ rest) (t0 :: queue)
                 /\ Forall (fun x : memoryTaskType * option error => snd x = None) ext
                 /\ List.length (wire w') = (List.length (wire w) + List.length ext)%nat
                 /\ List.length (mem w') = List.length (mem w)
                 /\ (outlives ctx (List.length (t0 :: queue)) -> rest = [])).
    { intros late1 w1 Hread Hrec.
      apply readChunk_filled in Hread as (Hwire1 & Hmem1);
        [ | unfold slice_ok; lia
          | unfold Int64.in_range, Int64.min_int, Int64.max_int in *; lia
          | lia | lia ].
      apply IH in Hrec as (ext & rest & -> & Hperm & Hall & Hwire & Hmem' & Hrest);
        [ | exact HT | | lia | ].
      - exists ((task, None) :: ext), rest. rewrite <- app_assoc.
        split; [reflexivity|]. split; [|split; [constructor; [reflexivity | exact Hall]|]].
        + cbn [map fst app].
          transitivity (task :: remove_nth k (t0 :: queue)); [now constructor|].
          pose proof (remove_nth_split no_task (t0 :: queue) Hk) as Hsplit.
          fold task in Hsplit. unfold remove_nth.
          etransitivity; [apply Permutation_middle|].
          rewrite <- Hsplit. apply Permutation_refl.
        + cbn [List.length] in *. split; [lia|]. split; [lia|].
          intros Hlive. apply Hrest. cbn [List.length] in Hlive.
          apply outlives_not_done in Hlive as (_ & Hlive).
          rewrite remove_nth_length by exact Hk. cbn [List.length].
          replace (S (List.length queue) - 1)%nat with (List.length queue) by lia.
          exact Hlive.
      - intros t Ht. apply Hq. eapply remove_nth_In. exact Ht.
      - rewrite remove_nth_length by exact Hk. cbn [List.length] in *. lia. }
    change (is_some (@None error)) with false in Hrun. rewrite orb_false_r in Hrun.
    destruct (readChunk pre task w) as [w1 [r0|msg]] eqn:Hread.
    + destruct r0 as [e|].
      * destruct (ctx_done ctx) eqn:Hdone; [destruct late as [|late]|];
          [ now apply Hstop | | ];
          apply workers_log in Hrun as (ext & _ & Hfe); specialize (Hfe None eq_refl);
          discriminate.
      * destruct (ctx_done ctx) eqn:Hdone; [destruct late as [|late]|];
          [ now apply Hstop | eapply Hgo; [reflexivity | exact Hrun]
            | eapply Hgo; [reflexivity | exact Hrun] ].
    + destruct (ctx_done ctx) eqn:Hdone; [destruct late as [|late]|];
        [ now apply Hstop | discriminate | discriminate ].
Qed.

(** What [Do] did when it returned a buffer. *)
Lemma Do_log_success_inv ctx sch (clt : option (Requester Srv)) (url : string) w w'
    (buf : list Init.Byte.byte) (e : option error) (log : chunk_log) :
  Do_log valid_url ctx sch clt url w = (w', Returns (Some buf, e), log) ->
  exists (w1 : world Srv) (pre : HTTPReaderAt Srv),
    New clt (Some (get_request url)) w = (w1, (Some pre, None))
    /\ 0 <= Size pre <= Int64.max_int
    /\ workers (List.length (memory_plan (Size pre))) ctx pre (picks sch)
         (Nat.min (stragglers sch) concurrentCount) (memory_plan (Size pre)) None
         {| net := net w1; wire := wire w1;
            mem := repeat Init.Byte.x00 (Z.to_nat (Size pre)) |} []
       = (w', Returns None, log)
    /\ e = None /\ buf = view (mem w') (whole (Size pre)).
Proof.
  unfold Do_log. intros Hrun.
  destruct (negb (valid_url url)); [discriminate|].
  fold (get_request url) in Hrun.
  destruct (New clt (Some (get_request url)) w) as [w1 [[pre|] [e'|]]] eqn:Hnew;
    try discriminate.
  pose proof (New_inv _ _ _ Hnew) as Hrange.
  unfold make_bytes in Hrun.
  destruct (Z.ltb_spec (Size pre) 0); [discriminate|].
  assert (HT : 0 <= Size pre <= Int64.max_int)
    by (unfold Int64.in_range in Hrange; lia).
  fold (whole (Size pre)) in Hrun. rewrite (makeMemoryTask_plan HT) in Hrun.
  destruct (workers _ ctx pre _ _ _ None _ []) as [[w3 r] log3] eqn:Hw in Hrun.
  exists w1, pre. split; [reflexivity|]. split; [exact HT|].
  destruct r as [[e'|]|msg]; try discriminate.
  injection Hrun as <- <- <- <-. repeat split. exact Hw.
Qed.

(** X12: a download that returns a buffer has had no failed read, and
    the buffer is the whole destination array, of the probed size.
    Every chunk of the plan was read at most once, each read with one
    request after the probe.  The chunks that were not read are those
    the workers left when the caller's context was done: with a context
    that is not cancelled before the reads have returned, every chunk
    was read exactly once, in whatever order the workers took them, with
    [1 + ceil (size / 65536)] requests in all. *)
Theorem Do_success ctx sch (clt : option (Requester Srv)) (url : string) w w'
    (buf : list Init.Byte.byte) (e : option error) (log : chunk_log) :
  Do_log valid_url ctx sch clt url w = (w', Returns (Some buf, e), log) ->
  exists (pre : HTTPReaderAt Srv) (w1 : world Srv) (rest : list memoryTaskType),
    New clt (Some (get_request url)) w = (w1, (Some pre, None))
    /\ e = None
    /\ 0 <= Size pre <= Int64.max_int
    /\ Z.of_nat (List.length buf) = Size pre
    /\ buf = mem w'
    /\ Forall (fun x : memoryTaskType * option error => snd x = None) log
    /\ Permutation (map fst log ++ rest) (memory_plan (Size pre))
    /\ List.length (wire w') = (List.length (wire w) + 1 + List.length log)%nat
    /\ (outlives ctx (Z.to_nat (chunk_count (Size pre))) ->
        rest = []
        /\ Permutation (map fst log) (memory_plan (Size pre))
        /\ Z.of_nat (List.length (wire w'))
           = Z.of_nat (List.length (wire w)) + 1 + chunk_count (Size pre)).
Proof.
  intros Hrun. apply Do_log_success_inv in Hrun as (w1 & pre & Hnew & HT & Hw & -> & ->).
  apply New_wire in Hnew as Hwire1. destruct Hwire1 as (Hwire1 & _).
  apply workers_success with (T := Size pre) in Hw
    as (ext & rest & Hlog & Hperm & Hall & Hwire & Hmem & Hrest);
    [ | lia | intros t Ht; apply memory_plan_ok; [lia | exact Ht]
      | cbn [mem]; rewrite repeat_length; lia | lia ].
  cbn [app] in Hlog. subst ext. cbn [wire mem] in Hwire, Hmem.
  rewrite repeat_length in Hmem.
  assert (Hview : view (mem w') (whole (Size pre)) = mem w')
    by (apply view_exact; lia).
  assert (Hsent : List.length (wire w') = (List.length (wire w) + 1 + List.length log)%nat).
  { rewrite Hwire, Hwire1, length_app. cbn [List.length]. lia. }
  exists pre, w1, rest. rewrite Hview.
  split; [exact Hnew|]. split; [reflexivity|]. split; [exact HT|]. split; [lia|].
  split; [reflexivity|]. split; [exact Hall|]. split; [exact Hperm|].
  split; [exact Hsent|].
  intros Hlive. rewrite <- memory_plan_count, Nat2Z.id in Hlive by lia.
  specialize (Hrest Hlive). subst rest. rewrite app_nil_r in Hperm.
  split; [reflexivity|]. split; [exact Hperm|].
  rewrite Hsent, <- memory_plan_count by lia.
  apply Permutation_length in Hperm. rewrite length_map in Hperm. lia.
Qed.

(** X13: the ways a call of [Do] can return.  A URL that does not parse
    is refused before anything is sent.  An error of the probe is
    returned as it is, and no chunk is read.  Once chunks are read, the
    first error among the reads is the error of the download, and a
    buffer comes back only when no read failed: the result is never a
    buffer with an error, nor nothing at all.  A cancellation by the
    caller is not among the errors: when the context is done before the
    workers start and none of them is past its check, no chunk is read
    and [Do] returns the buffer as it was allocated, all zero, with a
    nil error. *)
Theorem Do_outcomes :
  (forall ctx sch (clt : option (Requester Srv)) (url : string) w w'
          (b : option (list Init.Byte.byte)) (e : option error) (log : chunk_log),
      Do_log valid_url ctx sch clt url w = (w', Returns (b, e), log) ->
      (valid_url url = false
       /\ b = None /\ e = Some err_invalid_url /\ w' = w /\ log = [])
      \/ (valid_url url = true
          /\ exists x : error,
               New clt (Some (get_request url)) w = (w', (None, Some x))
               /\ b = None /\ e = Some x /\ log = [])
      \/ (valid_url url = true
          /\ exists (w1 : world Srv) (pre : HTTPReaderAt Srv),
               New clt (Some (get_request url)) w = (w1, (Some pre, None))
               /\ 0 <= Size pre
               /\ ((exists x : error,
                      first_error log = Some x /\ b = None /\ e = Some x)
                   \/ (first_error log = None /\ e = None
                       /\ exists buf : list Init.Byte.byte, b = Some buf))))
  /\ (forall sch (clt : option (Requester Srv)) (url : string) w w1 pre,
        valid_url url = true ->
        New clt (Some (get_request url)) w = (w1, (Some pre, None)) ->
        0 <= Size pre ->
        stragglers sch = 0%nat ->
        Do_log valid_url (cancelled_after 0) sch clt url w
        = ({| net := net w1; wire := wire w1;
              mem := repeat Init.Byte.x00 (Z.to_nat (Size pre)) |},
           Returns (Some (repeat Init.Byte.x00 (Z.to_nat (Size pre))), None), [])).
Proof.
  split.
  - intros ctx sch clt url w w' b e log. unfold Do_log. intros Hrun.
    destruct (valid_url url); cbn [negb] in Hrun;
      [|left; injection Hrun as <- <- <- <-; now repeat split].
    right. fold (get_request url) in Hrun.
    destruct (New clt (Some (get_request url)) w) as [w1 [r e0]] eqn:Hnew.
    destruct (New_result _ _ _ Hnew) as [(-> & He) | (Hr & ->)].
    { left. destruct e0 as [x|]; [|contradiction]. injection Hrun as <- <- <- <-.
      split; [reflexivity|]. exists x. now repeat split. }
    right. destruct r as [pre|]; [|contradiction]. split; [reflexivity|].
    exists w1, pre. split; [reflexivity|].
    pose proof (New_inv _ _ _ Hnew) as Hrange.
    unfold make_bytes in Hrun.
    destruct (Z.ltb_spec (Size pre) 0); [discriminate|]. split; [lia|].
    assert (HT : 0 <= Size pre <= Int64.max_int)
      by (unfold Int64.in_range in Hrange; lia).
    fold (whole (Size pre)) in Hrun. rewrite (makeMemoryTask_plan HT) in Hrun.
    destruct (workers _ ctx pre _ _ _ None _ []) as [[w3 r] log3] eqn:Hw in Hrun.
    assert (Hq : forall t, In t (memory_plan (Size pre)) ->
                   slice_ok (Content t) /\ Int64.in_range (Offset t)).
    { intros t Ht. apply memory_plan_ok in Ht as (Hb & Hl & Ho & Hend); [|lia].
      unfold slice_ok, Int64.in_range, Int64.min_int, Int64.max_int in *.
      repeat split; lia. }
    pose proof Hw as Hret. eapply workers_returns in Hret as (fe & ->); [|exact Hq].
    apply workers_log in Hw as (ext & Hlog & Hfe).
    cbn [app] in Hlog. subst ext. specialize (Hfe fe eq_refl). cbn iota in Hfe.
    destruct fe as [x|]; injection Hrun as <- <- <- <-.
    + left. exists x. split; [now symmetry|]. now split.
    + right. split; [now symmetry|]. split; [reflexivity|]. eexists. reflexivity.
  - intros sch clt url w w1 pre Hurl Hnew Hpos Hlate. unfold Do_log.
    rewrite Hurl. cbn [negb]. fold (get_request url). rewrite Hnew.
    pose proof (New_inv _ _ _ Hnew) as Hrange.
    assert (HT : 0 <= Size pre <= Int64.max_int)
      by (unfold Int64.in_range in Hrange; lia).
    unfold make_bytes. destruct (Z.ltb_spec (Size pre) 0); [lia|].
    fold (whole (Size pre)). rewrite (makeMemoryTask_plan HT). rewrite Hlate.
    assert (Hnone : workers (List.length (memory_plan (Size pre))) (cancelled_after 0) pre
                      (picks sch) (Nat.min 0 concurrentCount) (memory_plan (Size pre)) None
                      {| net := net w1; wire := wire w1;
                         mem := repeat Init.Byte.x00 (Z.to_nat (Size pre)) |} []
                    = ({| net := net w1; wire := wire w1;
                          mem := repeat Init.Byte.x00 (Z.to_nat (Size pre)) |},
                       Returns None, []))
      by (destruct (memory_plan (Size pre)); reflexivity).
    rewrite Hnone. cbn [mem]. unfold whole.
    rewrite view_exact by (rewrite repeat_length; lia). reflexivity.
Qed.

End DownloadResults.

Lemma Do_success_witness :
  exists (pre : HTTPReaderAt nat) (w1 : world nat) (rest : list memoryTaskType),
    New (Some (scripted_server five_bytes honest))
      (Some (get_request "http://example.org/file")) (fresh_world 0%nat)
    = (w1, (Some pre, None))
    /\ @None error = None
    /\ 0 <= Size pre <= Int64.max_int
    /\ Z.of_nat (List.length five_bytes) = Size pre
    /\ five_bytes
       = mem {| net := 2%nat;
                wire := [probe_request demo_request; range_request (demo_reader honest) 0 4];
                mem := five_bytes |}
    /\ Forall (fun x : memoryTaskType * option error => snd x = None)
         [({| Offset := 0; Content := {| base := 0; len := 5; cap := 5 |} |}, @None error)]
    /\ Permutation
         (map fst [({| Offset := 0; Content := {| base := 0; len := 5; cap := 5 |} |},
                    @None error)] ++ rest)
         (memory_plan (Size pre))
    /\ List.length
         (wire {| net := 2%nat;
                  wire := [probe_request demo_request;
                           range_request (demo_reader honest) 0 4];
                  mem := five_bytes |})
       = (List.length (wire (fresh_world 0%nat)) + 1
          + List.length [({| Offset := 0;
                             Content := {| base := 0; len := 5; cap := 5 |} |},
                          @None error)])%nat
    /\ (outlives never_cancelled (Z.to_nat (chunk_count (Size pre))) ->
        rest = []
        /\ Permutation
             (map fst [({| Offset := 0; Content := {| base := 0; len := 5; cap := 5 |} |},
                        @None error)])
             (memory_plan (Size pre))
        /\ Z.of_nat (List.length
                       (wire {| net := 2%nat;
                                wire := [probe_request demo_request;
                                         range_request (demo_reader honest) 0 4];
                                mem := five_bytes |}))
           = Z.of_nat (List.length (wire (fresh_world 0%nat))) + 1
             + chunk_count (Size pre)).
Proof.
  apply (@Do_success nat any_url never_cancelled in_order
           (Some (scripted_server five_bytes honest))
           "http://example.org/file" (fresh_world 0%nat)).
  reflexivity.
Defined.

Lemma Do_outcomes_witness :
  snd (fst (Do_log any_url never_cancelled in_order
              (Some (scripted_server five_bytes changed_after_probe))
              "http://example.org/file" (fresh_world 0%nat)))
  = Returns (None, Some ErrValidationFailed)
  /\ Do_log any_url (cancelled_after 0) in_order (Some (scripted_server five_bytes honest))
       "http://example.org/file" (fresh_world 0%nat)
     = ({| net := 1%nat; wire := [probe_request demo_request];
           mem := repeat Init.Byte.x00 5 |},
        Returns (Some (repeat Init.Byte.x00 5), None), []).
Proof.
  split.
  - destruct (Do_log any_url never_cancelled in_order
                (Some (scripted_server five_bytes changed_after_probe))
                "http://example.org/file" (fresh_world 0%nat)) as [[w' out] log] eqn:Hrun.
    cbn [fst snd].
    assert (Hlog : log = snd (Do_log any_url never_cancelled in_order
                                (Some (scripted_server five_bytes changed_after_probe))
                                "http://example.org/file" (fresh_world 0%nat)))
      by (now rewrite Hrun).
    assert (Hout : out = snd (fst (Do_log any_url never_cancelled in_order
                                     (Some (scripted_server five_bytes changed_after_probe))
                                     "http://example.org/file" (fresh_world 0%nat))))
      by (now rewrite Hrun).
    assert (Hfirst : first_error log = Some ErrValidationFailed)
      by (rewrite Hlog; reflexivity).
    assert (Hret : exists b e, out = Returns (b, e))
      by (rewrite Hout; eexists _, _; reflexivity).
    destruct Hret as (b & e & ->).
    destruct (proj1 (@Do_outcomes nat any_url) _ _ _ _ _ _ _ _ _ Hrun)
      as [(Hurl & _) | [(_ & x & _ & _ & _ & Hnil) | (_ & w1 & pre & _ & _ & Hcases)]].
    + discriminate Hurl.
    + rewrite Hnil in Hfirst. discriminate Hfirst.
    + destruct Hcases as [(x & Hx & -> & ->) | (Hnone & _)].
      * rewrite Hfirst in Hx. now injection Hx as <-.
      * rewrite Hfirst in Hnone. discriminate Hnone.
  - apply (proj2 (@Do_outcomes nat any_url) in_order
             (Some (scripted_server five_bytes honest)) "http://example.org/file"
             (fresh_world 0%nat)
             {| net := 1%nat; wire := [probe_request demo_request]; mem := [] |}
             (demo_reader honest)); [reflexivity | reflexivity | | reflexivity].
    unfold Size. cbn. lia.
Defined.

(** ** The checked download *)

Lemma hmac_Equal_eq (a b : list Init.Byte.byte) : hmac_Equal a b = true <-> a = b.
Proof.
  revert b. induction a as [|x a IH]; intros [|y b]; cbn [hmac_Equal];
    try (split; [discriminate | congruence]); [split; reflexivity|].
  rewrite andb_true_iff, Ascii.eqb_eq, IH. split.
  - intros [Hxy ->]. f_equal.
    rewrite <- (byte_of_ascii_of_byte x), <- (byte_of_ascii_of_byte y). now rewrite Hxy.
  - intros [= -> ->]. now split.
Qed.

(** A string that [hex.DecodeString] accepts has two digits for each
    byte it yields. *)
Lemma DecodeString_length (s : string) :
  (forall bs, Hex.DecodeString s = (bs, None) ->
              String.length s = (2 * List.length bs)%nat)
  /\ (forall c bs, Hex.DecodeString (String c s) = (bs, None) ->
                   String.length (String c s) = (2 * List.length bs)%nat).
Proof.
  induction s as [|a s [IH1 IH2]].
  - split.
    + intros bs [= <-]. reflexivity.
    + intros c bs. cbn [Hex.DecodeString]. destruct (Hex.fromHexChar c); discriminate.
  - split; [apply IH2|].
    intros c bs. cbn [Hex.DecodeString].
    destruct (Hex.fromHexChar c); [|discriminate].
    destruct (Hex.fromHexChar a); [|discriminate].
    destruct (Hex.DecodeString s) as [bytes err] eqn:Hd.
    intros [= <- ->]. cbn [String.length List.length]. rewrite (IH1 bytes eq_refl). lia.
Qed.

Section CheckedDownload.

Variable Srv : Type.
Variable valid_url : string -> bool.
Variable sha256_Sum256 : list Init.Byte.byte -> list Init.Byte.byte.
Implicit Types (w : world Srv) (sch : schedule) (ctx : Context).

(** [Do] returns a buffer or an error, never both and never neither. *)
Lemma Do_log_result ctx sch (clt : option (Requester Srv)) (url : string) w w'
    (b : option (list Init.Byte.byte)) (e : option error) (log : chunk_log) :
  Do_log valid_url ctx sch clt url w = (w', Returns (b, e), log) ->
  (b = None /\ e <> None) \/ (b <> None /\ e = None).
Proof.
  unfold Do_log. intros H.
  destruct (negb (valid_url url)); [inversion H; left; split; congruence|].
  destruct (New clt _ w) as [w1 [[pre|] [e'|]]];
    try discriminate; try (inversion H; left; split; congruence).
  destruct (make_bytes (Size pre)) as [[arr buf]|]; [|discriminate].
  destruct (makeMemoryTask (Size pre) buf); [|discriminate].
  destruct (workers _ ctx pre _ _ _ None _ []) as [[w3 [[e'|]|msg]] lg]; try discriminate;
    inversion H; [left | right]; split; congruence.
Qed.

(** X14: [DoWithCheck] sends what [Do] sends and passes on its panic or
    its error.  When [Do] returns a buffer, the buffer comes back exactly
    when the checksum is the hexadecimal form of its SHA-256 digest, two
    digits for each byte of the digest; in every other case, a checksum
    that is no hexadecimal string included, the result is the mismatch
    error and no content.  Content that was not verified is never
    returned. *)
Theorem DoWithCheck_verified ctx sch (clt : option (Requester Srv))
    (url sha256Sum : string) w w1
    (out : outcome (option (list Init.Byte.byte) * option check_error)) :
  DoWithCheck valid_url sha256_Sum256 ctx sch clt url sha256Sum w = (w1, out) ->
  exists dout : outcome (option (list Init.Byte.byte) * option error),
    Do valid_url ctx sch clt url w = (w1, dout)
    /\ ((exists msg : string, dout = Panics msg /\ out = Panics msg)
        \/ (exists e : error,
              dout = Returns (None, Some e) /\ out = Returns (None, Some (do_error e)))
        \/ (exists buf : list Init.Byte.byte,
              dout = Returns (Some buf, None)
              /\ ((Hex.DecodeString sha256Sum = (sha256_Sum256 buf, None)
                   /\ String.length sha256Sum = (2 * List.length (sha256_Sum256 buf))%nat
                   /\ out = Returns (Some buf, None))
                  \/ (Hex.DecodeString sha256Sum <> (sha256_Sum256 buf, None)
                      /\ out = Returns (None, Some (err_checksum sha256Sum)))))).
Proof.
  unfold DoWithCheck, Do.
  destruct (Do_log valid_url ctx sch clt url w) as [[w0 dout] lg] eqn:Hlog. cbn [fst].
  destruct dout as [[b e]|msg].
  - destruct (Do_log_result _ _ _ _ _ Hlog) as [(-> & He) | (Hb & ->)].
    + destruct e as [e|]; [|contradiction]. intros [= <- <-].
      eexists. split; [reflexivity|]. right. left. now exists e.
    + destruct b as [buf|]; [|contradiction]. unfold equal.
      destruct (Hex.DecodeString sha256Sum) as [expect [herr|]] eqn:Hd; cbn [fst negb].
      * intros [= <- <-]. eexists. split; [reflexivity|]. right. right. exists buf.
        split; [reflexivity|]. right. split; [discriminate | reflexivity].
      * destruct (hmac_Equal (sha256_Sum256 buf) expect) eqn:Heq; cbn [negb];
          intros [= <- <-]; (eexists; split; [reflexivity|]); right; right; exists buf;
          (split; [reflexivity|]).
        -- apply hmac_Equal_eq in Heq. subst expect. left.
           split; [reflexivity|]. split; [|reflexivity].
           now apply (proj1 (DecodeString_length sha256Sum)).
        -- right. split; [|reflexivity]. intros [= Hx]. subst expect.
           assert (hmac_Equal (sha256_Sum256 buf) (sha256_Sum256 buf) = true)
             by now apply hmac_Equal_eq.
           congruence.
  - intros [= <- <-]. eexists. split; [reflexivity|]. left. now exists msg.
Qed.

End CheckedDownload.

Lemma DoWithCheck_verified_witness :
  exists dout : outcome (option (list Init.Byte.byte) * option error),
    Do any_url never_cancelled in_order (Some (scripted_server five_bytes honest))
      "http://example.org/file" (fresh_world 0%nat)
    = ({| net := 2%nat;
          wire := [probe_request demo_request; range_request (demo_reader honest) 0 4];
          mem := five_bytes |}, dout)
    /\ ((exists msg : string,
           dout = Panics msg
           /\ Returns (Some five_bytes, @None check_error) = Panics msg)
        \/ (exists e : error,
              dout = Returns (None, Some e)
              /\ Returns (Some five_bytes, @None check_error)
                 = Returns (None, Some (do_error e)))
        \/ (exists buf : list Init.Byte.byte,
              dout = Returns (Some buf, None)
              /\ ((Hex.DecodeString "0102030405" = (buf, None)
                   /\ String.length "0102030405" = (2 * List.length buf)%nat
                   /\ Returns (Some five_bytes, @None check_error) = Returns (Some buf, None))
                  \/ (Hex.DecodeString "0102030405" <> (buf, None)
                      /\ Returns (Some five_bytes, @None check_error)
                         = Returns (None, Some (err_checksum "0102030405")))))).
Proof.
  apply (@DoWithCheck_verified nat any_url (fun content => content) never_cancelled in_order
           (Some (scripted_server five_bytes honest)) "http://example.org/file"
           "0102030405" (fresh_world 0%nat)).
  reflexivity.
Defined.


